(** * PynPoint background subtraction and flux/position modules

    A shallow embedding of the processing modules of
    [PynPoint/processing_modules/BackgroundSubtraction.py],
    [FluxAndPosition.py] and [SkyScienceDataModules.py], together with the
    properties of their specification.

    Conventions of the embedding:
    - a Python exception is a value of [exn]; a computation that may raise
      returns a [result];
    - an image (one detector frame) is an abstract type with the arithmetic
      the modules use on it (class [Image]); a stack of images is a list;
    - the HDF5 database behind the ports is a finite map from tags to
      stacks, so that an input port and an output port with the same tag
      alias the same data set. *)

From Stdlib Require Import ZArith QArith Reals Lra List String Bool Lia Sorted.
From Stdlib Require PrimFloat Uint63.
From stdpp Require Import gmap strings list fin_maps.
Import ListNotations.

(** ** Python layer: exceptions, slices, ranges *)

Inductive exn : Type :=
| ValueError (msg : string)
| NotImplementedError (msg : string)
| ZeroDivisionError
| IndexError
| NameError (name : string)
| RecursionError
| CollaboratorError (who : string)
| TypeError (msg : string)
| NotFoundError (tag : string).

Inductive result (A : Type) : Type :=
| Ok (a : A)
| Raise (e : exn).
Arguments Ok {A} a.
Arguments Raise {A} e.

#[global] Instance result_ret : MRet result := fun A a => Ok a.
#[global] Instance result_bind : MBind result := fun A B f m =>
  match m with
  | Ok a => f a
  | Raise e => Raise e
  end.
#[global] Instance result_fmap : FMap result := fun A B f m =>
  match m with
  | Ok a => Ok (f a)
  | Raise e => Raise e
  end.

(** [l[a:b]] for non-negative bounds: Python clamps both to the length. *)
Definition getslice {A} (l : list A) (a b : nat) : list A :=
  take (b - a) (drop a l).

(** [slice(start, stop).indices(len)]: a negative bound counts from the end. *)
Definition slice_index (len : nat) (i : Z) : nat :=
  if (i <? 0)%Z then Z.to_nat (Z.max 0 (i + Z.of_nat len))
  else Nat.min (Z.to_nat i) len.

Definition py_slice {A} (l : list A) (start stop : Z) : list A :=
  getslice l (slice_index (length l) start) (slice_index (length l) stop).

(** [range(start, stop, step)] for a non-negative step; a zero step raises. *)
Fixpoint range_from (fuel start stop step : nat) : list nat :=
  match fuel with
  | O => []
  | S fuel' =>
      if start <? stop then start :: range_from fuel' (start + step) stop step
      else []
  end.

Definition py_range (start stop step : nat) : result (list nat) :=
  if step =? 0 then Raise (ValueError "range() arg 3 must not be zero")
  else Ok (range_from stop start stop step).

(** [l[i]] on a sequence. *)
Definition getitem {A} (l : list A) (i : nat) : result A :=
  match l !! i with
  | Some x => Ok x
  | None => Raise IndexError
  end.

(** ** Images *)

(** Arithmetic on frames used by the mean-based background modules. *)
Class Image (img : Type) : Type := {
  img_sub : img -> img -> img;      (* a - b *)
  img_add : img -> img -> img;      (* a + b *)
  img_half : img -> img;            (* a / 2.0 *)
  img_mean : list img -> img        (* np.mean(stack, axis=0) *)
}.

(** Broadcast subtraction [stack - image]. *)
Definition stack_sub `{Image img} (stack : list img) (b : img) : list img :=
  map (fun f => img_sub f b) stack.

(** ** The data base behind the ports *)

(** Modelled from the spec: the FrameStore of section 6 (the classes
    [InputPort] and [OutputPort] of [PynPoint.core] are not part of the
    sources at hand).  A tag names one stack; [set_all] replaces it,
    [append] extends it, [setitem] overwrites one frame, [del_all_data]
    clears it, and a read through an input port sees the current contents of
    the tag; the read of an unknown tag fails with NotFoundError. *)
Module DataBase.
Section Ops.
Context {img : Type}.

(** The frames that a tag holds, none for an unknown tag: what the shape
    counts, what a write extends, and what a read of a known tag sees. *)
Definition get_all (tag : string) (db : gmap string (list img)) : list img :=
  default [] (db !! tag).

(** The stack that a read through an input port sees. *)
Definition stack (tag : string) (db : gmap string (list img)) : result (list img) :=
  match db !! tag with
  | Some frames => Ok frames
  | None => Raise (NotFoundError tag)
  end.

(** [get_shape()[0]] *)
Definition get_shape0 (tag : string) (db : gmap string (list img)) : nat :=
  length (get_all tag db).

(** [port[i]] *)
Definition read (tag : string) (i : nat) (db : gmap string (list img)) : result img :=
  frames ← stack tag db;
  getitem frames i.

Definition set_all (tag : string) (data : list img) (db : gmap string (list img))
  : gmap string (list img) :=
  <[tag := data]> db.

Definition append (tag : string) (data : list img) (db : gmap string (list img))
  : gmap string (list img) :=
  <[tag := get_all tag db ++ data]> db.

Definition setitem (tag : string) (i : nat) (v : img) (db : gmap string (list img))
  : gmap string (list img) :=
  <[tag := <[i := v]> (get_all tag db)]> db.

(** [del_all_data]: the tag is cleared, and unknown from then on. *)
Definition del_all_data (tag : string) (db : gmap string (list img))
  : gmap string (list img) :=
  delete tag db.

End Ops.
End DataBase.

(** A [for] loop over indices whose body writes to the data base and may
    raise: the writes made before the exception stay. *)
Fixpoint for_db {img : Type}
    (body : nat -> gmap string (list img) -> result unit * gmap string (list img))
    (indices : list nat) (db : gmap string (list img))
  : result unit * gmap string (list img) :=
  match indices with
  | [] => (Ok tt, db)
  | i :: rest =>
      match body i db with
      | (Ok _, db') => for_db body rest db'
      | (Raise e, db') => (Raise e, db')
      end
  end.

(** ** MeanBackgroundSubtractionModule *)

Module MeanBackgroundSubtractionModule.

(** [star_pos_shift] is [None], an [int], or (after [None] is replaced by the
    NFRAMES attribute) a [np.ndarray]. *)
Inductive shift_t : Type :=
| ShiftNone
| ShiftInt (s : nat)
| ShiftArray (a : list nat).

Record t : Type := {
  m_star_prs_shift : shift_t;
  m_cubes_per_position : nat;
  m_image_in_tag : string;
  m_image_out_tag : string
}.

Definition too_small : exn :=
  ValueError "The input stack is to small for mean background subtraction. At leastone star position shift is needed.".

Definition not_enough : exn :=
  ValueError "Not enough frames available for the background subtraction.".

Definition same_port : exn :=
  NotImplementedError "Same input and output port not implemented yet.".

(** [np.sum(a[0:k])] *)
Definition sum_to (a : list nat) (k : nat) : nat := sum_list (take k a).

Section Run.
Context {img : Type} `{Image img}.

(** The branch of [run] for a manual, scalar [star_pos_shift].  The slices
    are read from the frames of the input tag as they are at that point; an
    unknown input tag stops the run at its first reads (the slice of the
    first mean, then frame 0) with NotFoundError, before anything is
    written, and a run that gets past them reads a known tag. *)
Definition run_scalar (self : t) (s : nat) (db : gmap string (list img))
  : result unit * gmap string (list img) :=
  let tin := m_image_in_tag self in
  let tout := m_image_out_tag self in
  let number_of_frames := DataBase.get_shape0 tin db in
  if number_of_frames <? 2 * s then (Raise too_small, db)
  else if s =? 0 then (Raise ZeroDivisionError, db)
  else
    let tmp_mean := img_mean (getslice (DataBase.get_all tin db) s (2 * s)) in
    match DataBase.read tin 0 db with
    | Raise e => (Raise e, db)
    | Ok first =>
        let tmp_res := img_sub first tmp_mean in
        if String.eqb tin tout then (Raise same_port, db)
        else
          let db := DataBase.set_all tout [tmp_res] db in
          let db := DataBase.append tout
                      (stack_sub (getslice (DataBase.get_all tin db) 1 s) tmp_mean) db in
          let top := number_of_frames / s - 2 in
          let db :=
            foldl (fun db i =>
                     let im := DataBase.get_all tin db in
                     let mean_next := img_mean (getslice im ((i + 1) * s) ((i + 2) * s)) in
                     let mean_prev := img_mean (getslice im ((i - 1) * s) (i * s)) in
                     let tmp_mean := img_half (img_add mean_next mean_prev) in
                     DataBase.append tout
                       (stack_sub (getslice im (i * s) ((i + 1) * s)) tmp_mean) db)
                  db (seq 1 (top - 1)) in
          (* the stack before the last one *)
          let im := DataBase.get_all tin db in
          let mean_prev :=
            img_mean (py_slice im ((Z.of_nat top - 1) * Z.of_nat s) (Z.of_nat (top * s))) in
          let mean_next := img_mean (getslice im ((top + 1) * s) number_of_frames) in
          let tmp_mean := img_half (img_add mean_prev mean_next) in
          let db := DataBase.append tout
                      (stack_sub (getslice im (top * s) ((top + 1) * s)) tmp_mean) db in
          (* the last stack *)
          let im := DataBase.get_all tin db in
          let tmp_mean := img_mean (getslice im (top * s) ((top + 1) * s)) in
          let db := DataBase.append tout
                      (stack_sub (getslice im ((top + 1) * s) number_of_frames) tmp_mean) db in
          (Ok tt, db)
    end.

(** The branch of [run] for the NFRAMES array, with the reads as in the
    scalar branch. *)
Definition run_array (self : t) (a : list nat) (db : gmap string (list img))
  : result unit * gmap string (list img) :=
  let tin := m_image_in_tag self in
  let tout := m_image_out_tag self in
  let c := m_cubes_per_position self in
  let num_stacks := length a in
  let next_start := sum_to a c in
  let next_end := sum_to a (2 * c) in
  if length a <? 2 * c then (Raise not_enough, db)
  else
    let tmp_mean := img_mean (getslice (DataBase.get_all tin db) next_start next_end) in
    match DataBase.read tin 0 db with
    | Raise e => (Raise e, db)
    | Ok first =>
        let tmp_res := img_sub first tmp_mean in
        if String.eqb tin tout then (Raise same_port, db)
        else
          let db := DataBase.set_all tout [tmp_res] db in
          let db := DataBase.append tout
                      (stack_sub (getslice (DataBase.get_all tin db) 1 next_start) tmp_mean) db in
          match py_range c num_stacks c with
          | Raise e => (Raise e, db)
          | Ok indices =>
              (Ok tt,
               foldl (fun db i =>
                        let im := DataBase.get_all tin db in
                        let prev_start := sum_to a (i - c) in
                        let prev_end := sum_to a i in
                        let next_start := sum_to a (i + c) in
                        let next_end := sum_to a (i + 2 * c) in
                        let mean_prev := img_mean (getslice im prev_start prev_end) in
                        let tmp_mean :=
                          if i <? num_stacks - c
                          then img_half (img_add mean_prev
                                           (img_mean (getslice im next_start next_end)))
                          else mean_prev in
                        DataBase.append tout
                          (stack_sub (getslice im prev_end next_start) tmp_mean) db)
                     db indices)
          end
    end.

(** [run]: [NFRAMES] is the non-static attribute of the input tag. *)
Definition run (self : t) (NFRAMES : list nat) (db : gmap string (list img))
  : result unit * gmap string (list img) :=
  match m_star_prs_shift self with
  | ShiftNone => run_array self NFRAMES db
  | ShiftArray a => run_array self a db
  | ShiftInt s => run_scalar self s db
  end.

End Run.
End MeanBackgroundSubtractionModule.

(** ** SimpleBackgroundSubtractionModule *)

Module SimpleBackgroundSubtractionModule.

Record t : Type := {
  m_star_prs_shift : Z;
  m_image_in_tag : string;
  m_image_out_tag : string
}.

Section Run.
Context {img : Type} `{Image img}.

(** [(i + shift) % number_of_frames] *)
Definition partner (self : t) (number_of_frames i : nat) : nat :=
  Z.to_nat ((Z.of_nat i + m_star_prs_shift self) mod Z.of_nat number_of_frames).

(** [image_in_port[i] - image_in_port[(i + shift) % number_of_frames]],
    read from the data base as it is now. *)
Definition difference (self : t) (number_of_frames i : nat)
    (db : gmap string (list img)) : result img :=
  a ← DataBase.read (m_image_in_tag self) i db;
  b ← DataBase.read (m_image_in_tag self) (partner self number_of_frames i) db;
  mret (img_sub a b).

Definition run (self : t) (db : gmap string (list img))
  : result unit * gmap string (list img) :=
  let tin := m_image_in_tag self in
  let tout := m_image_out_tag self in
  let number_of_frames := DataBase.get_shape0 tin db in
  match difference self number_of_frames 0 db with
  | Raise e => (Raise e, db)
  | Ok tmp_res =>
      let db :=
        if String.eqb tin tout then DataBase.setitem tout 0 tmp_res db
        else DataBase.set_all tout [tmp_res] db in
      for_db (fun i db =>
                match difference self number_of_frames i db with
                | Raise e => (Raise e, db)
                | Ok tmp_res =>
                    (Ok tt,
                     if String.eqb tin tout then DataBase.setitem tout i tmp_res db
                     else DataBase.append tout [tmp_res] db)
                end)
             (seq 1 (number_of_frames - 1)) db
  end.

End Run.
End SimpleBackgroundSubtractionModule.

(** ** PCABackgroundPreparationModule *)

Module PCABackgroundPreparationModule.

Record t : Type := {
  m_dither_positions : nat;
  m_cubes_per_position : nat;
  m_first_star_cube : nat
}.

Definition tuple_length : exn :=
  ValueError "The 'dither' tuple should contain three integer values.".

Definition no_parang : exn :=
  ValueError "NEW_PARA not found in header. Parallactic angles should be provided for all frames before PCA background subtraction.".

Definition could_not_broadcast : exn :=
  ValueError "could not broadcast input array".

Definition __init__ (dither : list nat) : result t :=
  match dither with
  | [d; c; f] =>
      Ok {| m_dither_positions := d; m_cubes_per_position := c; m_first_star_cube := f |}
  | _ => Raise tuple_length
  end.

(** [bg_frames[i:i+c] = False] *)
Definition clear_range (bg_frames : list bool) (i c : nat) : list bool :=
  imap (fun k b => if (i <=? k) && (k <? i + c) then false else b) bg_frames.

(** The flags of the cubes: [True] for a background cube. *)
Definition flag_cubes (self : t) (size_nframes : nat) : result (list bool) :=
  indices ← py_range (m_first_star_cube self) size_nframes
                     (m_cubes_per_position self * m_dither_positions self);
  mret (foldl (fun bg_frames i => clear_range bg_frames i (m_cubes_per_position self))
              (replicate size_nframes true) indices).

(** [np.nonzero(bg_frames)[0]] *)
Definition nonzero (bg_frames : list bool) : list nat :=
  filter (fun k => bg_frames !! k = Some true) (seq 0 (length bg_frames)).

(** [np.amax] and [np.amin] of a non-empty array of indices. *)
Definition amax (l : list nat) : nat := foldr Nat.max 0 l.
Definition amin (l : list nat) : nat :=
  match l with
  | [] => 0
  | x :: rest => foldr Nat.min x rest
  end.

(** A local variable that is read: unbound names raise. *)
Definition local {A} (name : string) (v : option A) : result A :=
  match v with
  | Some a => Ok a
  | None => Raise (NameError name)
  end.

Section Run.
Context {img : Type} `{Image img} {angle : Type}.

(** The first loop of [run]: the mean of each cube. *)
Fixpoint cube_means (frames : list img) (nframes : list nat) (count : nat) : list img :=
  match nframes with
  | [] => []
  | item :: rest =>
      img_mean (getslice frames count (count + item))
        :: cube_means frames rest (count + item)
  end.

(** The array [cube_mean] that the first loop fills.  It is allocated as
    [np.zeros((size, shape[2], shape[1]))], with the two axes of the image
    exchanged, and a cube mean has the shape [(shape[1], shape[2])]: the
    assignment [cube_mean[i,] = np.mean(...)] of the first cube raises the
    ValueError of numpy unless the frames are square.  [im_shape] is
    [(get_shape()[1], get_shape()[2])] of the input tag. *)
Definition fill_cube_mean (im_shape : nat * nat) (frames : list img) (nframes : list nat)
  : result (list img) :=
  match nframes with
  | [] => Ok []
  | _ :: _ =>
      if fst im_shape =? snd im_shape then Ok (cube_means frames nframes 0)
      else Raise could_not_broadcast
  end.

(** The variables of the second loop.  [star_out] and [background_out] are
    the contents of the two output tags (absent before the run); [bg_prev]
    and [bg_next] are the locals of the same names, which keep their value
    from one iteration to the next. *)
Record vars : Type := {
  count : nat;
  star_init : bool;
  background_init : bool;
  star_out : list img;
  background_out : list img;
  star_parang : list angle;
  star_nframes : list nat;
  background_parang : list angle;
  background_nframes : list nat;
  bg_prev : option img;
  bg_next : option img
}.

Definition initial : vars := {|
  count := 0; star_init := false; background_init := false;
  star_out := []; background_out := [];
  star_parang := []; star_nframes := [];
  background_parang := []; background_nframes := [];
  bg_prev := None; bg_next := None
|}.

(** The background of a star cube, from the locals as they are now. *)
Definition select_background (size_nframes i : nat) (prev next : option img)
  : result img :=
  if i =? 0 then local "bg_next" next
  else if i =? size_nframes - 1 then local "bg_prev" prev
  else
    p ← local "bg_prev" prev;
    n ← local "bg_next" next;
    mret (img_half (img_add p n)).

(** One iteration of the second loop, for cube [i] of [item] frames. *)
Definition step (frames : list img) (parang : list angle) (size_nframes : nat)
    (cube_mean : list img) (bg_frames : list bool)
    (i item : nat) (v : vars) : result vars :=
  let bg_indices := nonzero bg_frames in
  let im_tmp := getslice frames (count v) (count v + item) in
  let pa_tmp := getslice parang (count v) (count v + item) in
  is_bg ← getitem bg_frames i;
  if (is_bg : bool) then
    background ← getitem cube_mean i;
    mret {| count := count v + item;
            star_init := star_init v;
            background_init := true;
            star_out := star_out v;
            background_out :=
              if background_init v then background_out v ++ stack_sub im_tmp background
              else stack_sub im_tmp background;
            star_parang := star_parang v;
            star_nframes := star_nframes v;
            background_parang :=
              if background_init v then background_parang v ++ pa_tmp else pa_tmp;
            background_nframes :=
              if background_init v then background_nframes v ++ [item] else [item];
            bg_prev := bg_prev v;
            bg_next := bg_next v |}
  else
    let before := filter (fun k => k < i) bg_indices in
    let after := filter (fun k => i < k) bg_indices in
    prev ← (if 0 <? length before
            then Some <$> getitem cube_mean (amax before)
            else Ok (bg_prev v));
    next ← (if 0 <? length after
            then Some <$> getitem cube_mean (amin after)
            else Ok (bg_next v));
    background ← select_background size_nframes i prev next;
    mret {| count := count v + item;
            star_init := true;
            background_init := background_init v;
            star_out :=
              if star_init v then star_out v ++ stack_sub im_tmp background
              else stack_sub im_tmp background;
            background_out := background_out v;
            star_parang := if star_init v then star_parang v ++ pa_tmp else pa_tmp;
            star_nframes := if star_init v then star_nframes v ++ [item] else [item];
            background_parang := background_parang v;
            background_nframes := background_nframes v;
            bg_prev := prev;
            bg_next := next |}.

(** The second loop, from cube [i] on. *)
Fixpoint loop (frames : list img) (parang : list angle) (size_nframes : nat)
    (cube_mean : list img) (bg_frames : list bool)
    (i : nat) (items : list nat) (v : vars) : result vars :=
  match items with
  | [] => Ok v
  | item :: rest =>
      v' ← step frames parang size_nframes cube_mean bg_frames i item v;
      loop frames parang size_nframes cube_mean bg_frames (S i) rest v'
  end.

(** [run]: [NEW_PARA] and [NFRAMES] are the attributes of the input tag,
    [im_shape] the shape of its frames and [frames] its stack.  The result
    holds the two output stacks and their re-accumulated attributes. *)
Definition run (self : t) (NEW_PARA : option (list angle)) (NFRAMES : list nat)
    (im_shape : nat * nat) (frames : list img) : result vars :=
  match NEW_PARA with
  | None => Raise no_parang
  | Some parang =>
      cube_mean ← fill_cube_mean im_shape frames NFRAMES;
      bg_frames ← flag_cubes self (length NFRAMES);
      loop frames parang (length NFRAMES) cube_mean bg_frames 0 NFRAMES initial
  end.

End Run.
End PCABackgroundPreparationModule.

(** ** PCABackgroundSubtractionModule: the masks *)

(** The operations on doubles (the [float] of Python and the [float64] of
    numpy) that the masks use.  The definitions and theorems hold for every
    implementation of them; [Binary64] below is the IEEE 754 one. *)
Class Double (D : Type) : Type := {
  d_of_int : Z -> D;                (* the conversion of an integer *)
  d_div : D -> D -> D;              (* a / b *)
  d_sqrt : D -> D;                  (* np.sqrt *)
  d_ltb : D -> D -> bool            (* a < b *)
}.

Module PCABackgroundSubtractionModule.

(** A mask is one image of zeros and ones ("mean") or one such image per
    frame ("exact"); an image is a list of rows. *)
Inductive mask_t : Type :=
| Mask2D (m : list (list Q))
| Mask3D (ms : list (list (list Q))).

(** [int(np.mean(row))] for a row [(a, b)] of integers: [int] truncates
    towards zero. *)
Definition int_mean (row : Z * Z) : Z := Z.quot (fst row + snd row) 2.

Section Masks.
Context {D : Type} `{Double D}.

Record t : Type := {
  m_pca_number : nat;
  m_mask_radius : D;            (* arcsec *)
  m_mask_position : string
}.

(** One entry of [rr_grid < mask_radius], where
    [rr_grid = np.sqrt((xx_grid - cent_x)**2 + (yy_grid - cent_y)**2)]: the
    grids and the centre are integers, so the sum of the squares is an
    integer; its root and the comparison with the radius are of doubles. *)
Definition rr_lt (dx dy : Z) (mask_radius : D) : bool :=
  d_ltb (d_sqrt (d_of_int (dx * dx + dy * dy))) mask_radius.

(** [mask = np.ones(im_dim); mask[rr_grid < mask_radius] = 0.] with
    [rr_grid] built from [np.meshgrid(x_grid, y_grid)]: [rr_grid] has the
    shape [(im_dim[1], im_dim[0])], so the boolean index only fits square
    images; entry [[r][c]] holds the distance of column [c], row [r] from
    the centre. *)
Definition disk (im_dim : nat * nat) (cent_x cent_y : Z) (mask_radius : D)
  : result (list (list Q)) :=
  if fst im_dim =? snd im_dim then
    Ok (map (fun r =>
               map (fun c =>
                      if rr_lt (Z.of_nat c - cent_x) (Z.of_nat r - cent_y) mask_radius
                      then 0%Q else 1%Q)
                   (seq 0 (snd im_dim)))
            (seq 0 (fst im_dim)))
  else Raise IndexError.

(** [_create_mask(mask_radius, star_position, num_frames)];
    [star_position] has one row [(x, y)] per frame and [im_dim] is the shape
    of the first star frame. *)
Definition _create_mask (self : t) (im_dim : nat * nat) (mask_radius : D)
    (star_position : list (Z * Z)) (num_frames : nat) : result mask_t :=
  if String.eqb (m_mask_position self) "mean" then
    row0 ← getitem star_position 0;
    row1 ← getitem star_position 1;
    let cent_x := int_mean row0 in          (* int(np.mean(star_position[0])) *)
    let cent_y := int_mean row1 in          (* int(np.mean(star_position[1])) *)
    Mask2D <$> disk im_dim cent_x cent_y mask_radius
  else if String.eqb (m_mask_position self) "exact" then
    Mask3D <$> mapM (fun i =>
                       row ← getitem star_position i;
                       disk im_dim (fst row) (snd row) mask_radius)
                    (seq 0 num_frames)
  else Raise (NameError "mask").

(** The part of [run] that decides which mask multiplies which frames: the
    list of the chunks [(frame_start, frame_end, mask)] in the order in which
    they are fitted and written.  [self.m_mask_radius /= pixscale] is a
    division of doubles.  The SVD basis, which is made before the first
    mask, and the least-squares fit of each chunk, which follows the mask of
    the chunk, are routines of scipy; they are taken to return. *)
Definition run_masks (self : t) (MEMORY : nat) (PIXSCALE : D)
    (STAR_POSITION : list (Z * Z)) (im_dim : nat * nat) (num_frames : nat)
  : result (list (nat * nat * mask_t)) :=
  let mask_radius := d_div (m_mask_radius self) PIXSCALE in
  if MEMORY =? 0 then Raise ZeroDivisionError
  else
    let num_stacks := num_frames / MEMORY in
    mask ← (if String.eqb (m_mask_position self) "mean"
            then Some <$> _create_mask self im_dim mask_radius STAR_POSITION num_frames
            else Ok None);
    full ← mapM (fun i =>
                   let frame_start := i * MEMORY in
                   let frame_end := i * MEMORY + MEMORY in
                   m ← (if String.eqb (m_mask_position self) "exact"
                        then _create_mask self im_dim mask_radius
                               (getslice STAR_POSITION frame_start frame_end)
                               (frame_end - frame_start)
                        else PCABackgroundPreparationModule.local "mask" mask);
                   mret (frame_start, frame_end, m))
                (seq 0 num_stacks);
    rest ← (if 0 <? num_frames mod MEMORY then
              let frame_start := num_stacks * MEMORY in
              let frame_end := num_frames in
              m ← _create_mask self im_dim mask_radius
                    (getslice STAR_POSITION frame_start frame_end)
                    (frame_end - frame_start);
              mret [(frame_start, frame_end, m)]
            else Ok []);
    mret (full ++ rest).

End Masks.
End PCABackgroundSubtractionModule.

(** ** Time stamps of sky and science cubes *)

(** [NoddingBackgroundModule] and [SkySubtraction] declare the same class
    [TimeStamp] and the same method [calc_sky_frame]; it is embedded once. *)
Module TimeStamps.

(** [m_index] is an integer for a sky frame and a slice for a science cube. *)
Inductive index_t : Type :=
| IndexInt (i : nat)
| IndexSlice (start stop : nat).

Record TimeStamp : Type := {
  m_time : Z;
  m_sky_or_science : string;
  m_index : index_t
}.

Definition no_sky : exn :=
  ValueError "List of time stamps does not contain any SKY frames".

Definition is_sky (x : TimeStamp) : bool := String.eqb (m_sky_or_science x) "SKY".

Section Search.
Context {img : Type} `{Image img}.
Variable m_time_stamps : list TimeStamp.
Variable m_sky_in_port : list img.
Variable index_of_science_data : nat.

(** [self.m_sky_in_port[index, :, :]]; the entries made for sky frames by
    [_create_time_stamp_list] carry integer indices, and a slice does not
    name one frame. *)
Definition sky_frame (x : TimeStamp) : result img :=
  match m_index x with
  | IndexInt i => getitem m_sky_in_port i
  | IndexSlice _ _ => Raise (ValueError "a slice selects a cube, not a frame")
  end.

(** [for i in indices: if m_time_stamps[i] is SKY: return its frame];
    [None] when the loop ends without returning. *)
Fixpoint scan (indices : list nat) : result (option img) :=
  match indices with
  | [] => Ok None
  | i :: rest =>
      x ← getitem m_time_stamps i;
      if is_sky x then Some <$> sky_frame x else scan rest
  end.

(** The two local functions call each other; [depth] is the number of
    nested calls the interpreter still allows. *)
Fixpoint search_for_next_sky (depth : nat) : result img :=
  match depth with
  | O => Raise RecursionError
  | S depth' =>
      found ← scan (seq index_of_science_data
                        (length m_time_stamps - index_of_science_data));
      match found with
      | Some frame => Ok frame
      | None => search_for_previous_sky depth'
      end
  end
with search_for_previous_sky (depth : nat) : result img :=
  match depth with
  | O => Raise RecursionError
  | S depth' =>
      found ← scan (rev (seq 0 index_of_science_data));
      match found with
      | Some frame => Ok frame
      | None => search_for_next_sky depth'
      end
  end.

(** [calc_sky_frame]; a mode other than the three falls off the end of the
    method, which returns [None]. *)
Definition calc_sky_frame (m_mode : string) (depth : nat) : result (option img) :=
  if negb (existsb is_sky m_time_stamps) then Raise no_sky
  else if String.eqb m_mode "next" then Some <$> search_for_next_sky depth
  else if String.eqb m_mode "previous" then Some <$> search_for_previous_sky depth
  else if String.eqb m_mode "both" then
    previous_sky ← search_for_previous_sky depth;
    next_sky ← search_for_next_sky depth;
    mret (Some (img_half (img_add previous_sky next_sky)))
  else Ok None.

End Search.
End TimeStamps.

(** ** NoddingBackgroundModule *)

Module NoddingBackgroundModule.

Definition bad_mode : exn := ValueError "Mode needs to be next, previous or both.".

(** The part of the constructor that sets [m_mode]. *)
Definition __init__ (mode : string) : result string :=
  if bool_decide (mode ∈ ["next"; "previous"; "both"]%string) then Ok mode
  else Raise bad_mode.

Definition calc_sky_frame {img : Type} `{Image img} := @TimeStamps.calc_sky_frame img _.

End NoddingBackgroundModule.

(** ** SkySubtraction *)

Module SkySubtraction.

(** The part of the constructor that sets [m_mode]. *)
Definition __init__ (mode : string) : result string :=
  if bool_decide (mode ∈ ["next"; "previous"; "both"]%string) then Ok mode
  else Ok "next"%string.

Definition calc_sky_frame {img : Type} `{Image img} := @TimeStamps.calc_sky_frame img _.

End SkySubtraction.

(** ** Floating-point scalars and the numerical collaborators *)

(** The operations of Python floats and of the [math] module that the
    flux and position modules use.  The theorems hold for every
    implementation of them. *)
Class Float (F : Type) : Type := {
  f_lit : Q -> F;                   (* a literal or a converted integer *)
  f_add : F -> F -> F;
  f_sub : F -> F -> F;
  f_mul : F -> F -> F;
  f_div : F -> F -> F;
  f_neg : F -> F;
  f_pow : F -> F -> F;              (* a ** b *)
  f_mod : F -> F -> F;              (* a % b *)
  f_sqrt : F -> F;
  f_cos : F -> F;
  f_sin : F -> F;
  f_atan2 : F -> F -> F;
  f_pi : F;
  f_ceil : F -> Z                   (* int(math.ceil(a)) *)
}.

Definition f_nat `{Float F} (n : nat) : F := f_lit (inject_Z (Z.of_nat n)).

(** [np.radians] *)
Definition radians `{Float F} (a : F) : F := f_mul a (f_div f_pi (f_lit 180)).

(** Arithmetic between scalars and frames. *)
Class ScaledImage (F img : Type) : Type := {
  img_scale : F -> img -> img;      (* s * a *)
  img_divs : img -> F -> img;       (* a / s *)
  img_sum : list img -> img;        (* np.sum(stack, axis=0) *)
  img_zeros : nat -> nat -> img     (* np.zeros((h, w)) *)
}.

(** What a data set holds: one image or a stack, with the frame shape. *)
Inductive ndarray (img : Type) : Type :=
| Array2D (h w : nat) (im : img)
| Array3D (h w : nat) (stack : list img).
Arguments Array2D {img} h w im.
Arguments Array3D {img} h w stack.

(** The library routines and the modules of other files that the flux and
    position modules call.  [ndimage_shift psf (dy, dx)] is
    [scipy.ndimage.shift(psf, (dy, dx), order=5, mode='reflect')].
    Modelled from the spec: [psf_subtraction] and [fast_pca] are the runs of
    [PSFSubtractionModule] and [FastPCAModule] (section 6: from the stack with
    the fake planet, the number of components, the extra rotation and the
    mask size they write the data set of the mean residuals, or fail).
    [cutout2d] is [astropy.nddata.Cutout2D(...).data]; [merit_hessian] and
    [merit_sum] are the sums over the aperture of lines 409 to 437, whose
    value depends on [skimage.feature.hessian_matrix] and on the pixels. *)
Class Collaborators (F img : Type) : Type := {
  ndimage_shift : img -> F * F -> img;
  psf_subtraction : list img -> nat -> F -> F -> result (ndarray img);
  fast_pca : list img -> nat -> F -> result (ndarray img);
  cutout2d : img -> F * F -> Z -> img;
  merit_hessian : img -> F -> Z -> F;
  merit_sum : img -> Z -> F
}.

(** ** FakePlanetModule *)

Module FakePlanetModule.

Definition not_a_cube : exn :=
  ValueError "The image_in_tag should contain a cube of images.".

Definition size_mismatch : exn :=
  ValueError "The images in image_in_tag should have the same dimensions as the image(s) in psf_in_tag.".

Definition not_broadcastable : exn :=
  ValueError "non-broadcastable output operand".

Section Run.
Context {F img : Type} `{Float F} `{Image img} `{ScaledImage F img}
        `{Collaborators F img}.

Record t : Type := {
  m_position : F * F;           (* separation (arcsec), angle (deg) *)
  m_magnitude : F;
  m_psf_scaling : F
}.

(** [im_stacks]: the chunk boundaries. *)
Definition im_stacks (n_image memory : nat) : list nat :=
  let n_stack_im := n_image / memory in
  map (fun i => i * memory) (seq 0 (S n_stack_im))
  ++ (if n_stack_im * memory =? n_image then [] else [n_image]).

(** The mean of the PSF cube, summed chunk by chunk. *)
Definition mean_psf (h w memory : nat) (psf_stack : list img) : img :=
  let n_psf := length psf_stack in
  let n_stack_psf := n_psf / memory in
  let psf :=
    foldl (fun psf i =>
             img_add psf (img_sum (getslice psf_stack (i * memory) ((i + 1) * memory))))
          (img_zeros h w) (seq 0 n_stack_psf) in
  let psf :=
    if n_stack_psf * memory =? n_psf then psf
    else img_add psf (img_sum (getslice psf_stack (n_stack_psf * memory) n_psf)) in
  img_divs psf (f_nat n_psf).

(** One frame of the inner loop: the frame [frame] of the chunk, the
    parallactic angle [pa] (radians) and the PSF [psf_tmp] to inject. *)
Definition inject (self : t) (radial theta : F) (pa : F) (psf_tmp frame : img) : img :=
  let x_shift := f_mul radial (f_cos (f_sub theta pa)) in
  let y_shift := f_mul radial (f_sin (f_sub theta pa)) in
  let flux_ratio := f_pow (f_lit 10) (f_div (f_neg (m_magnitude self)) (f_lit 2.5)) in
  img_add frame
    (img_scale (f_mul (m_psf_scaling self) flux_ratio)
               (ndimage_shift psf_tmp (y_shift, x_shift))).

(** The body of the loop over the chunks, for chunk [j] from [a] to [b].
    The chunk [image] is read from the PSF port. *)
Definition chunk (self : t) (memory n_image : nat) (radial theta : F)
    (parang : list F) (psf : option img) (psf_in : ndarray img)
    (j a b : nat) : result (list img) :=
  match psf_in with
  | Array2D h w _ =>
      (* the slice holds rows of the PSF, not frames *)
      if Nat.min b h - Nat.min a h =? 0 then Ok []
      else
        _ ← getitem parang (j * memory);
        _ ← PCABackgroundPreparationModule.local "psf" psf;
        Raise not_broadcastable
  | Array3D _ _ psf_stack =>
      let image := getslice psf_stack a b in
      mapM (fun i =>
              pa ← getitem parang (j * memory + i);
              frame ← getitem image i;
              psf_tmp ← (if length psf_stack =? n_image
                         then getitem psf_stack (j * memory + i)
                         else PCABackgroundPreparationModule.local "psf" psf);
              mret (inject self radial theta pa psf_tmp frame))
           (seq 0 (length image))
  end.

(** [run]: [MEMORY] is the configured number of frames per chunk,
    [PIXSCALE] and [NEW_PARA] the attributes of the input tag, [image_in]
    and [psf_in] the data sets of the two input tags.  The result is the
    stack written to the output tag. *)
Definition run (self : t) (MEMORY : nat) (PIXSCALE : F) (NEW_PARA : list F)
    (image_in psf_in : ndarray img) : result (list img) :=
  let parang := map (fun a => f_mul a (f_div f_pi (f_lit 180))) NEW_PARA in
  let radial := f_div (fst (m_position self)) PIXSCALE in
  let theta := f_add (f_div (f_mul (snd (m_position self)) f_pi) (f_lit 180))
                     (f_div f_pi (f_lit 2)) in
  match image_in with
  | Array2D _ _ _ => Raise not_a_cube
  | Array3D h w frames =>
      if MEMORY =? 0 then Raise ZeroDivisionError
      else
        let n_image := length frames in
        let im_size := (h, w) in
        let psf_size :=
          match psf_in with
          | Array2D _ _ _ => (n_image, h)
          | Array3D _ _ _ => (h, w)
          end in
        if negb (bool_decide (psf_size = im_size)) then Raise size_mismatch
        else
          let stacks := im_stacks n_image MEMORY in
          let psf :=
            match psf_in with
            | Array2D _ _ p => Some p
            | Array3D _ _ psf_stack =>
                if length psf_stack =? n_image then None
                else Some (mean_psf h w MEMORY psf_stack)
            end in
          chunks ← mapM (fun j =>
                           a ← getitem stacks j;
                           b ← getitem stacks (j + 1);
                           chunk self MEMORY n_image radial theta parang psf psf_in j a b)
                        (seq 0 (length stacks - 1));
          mret (concat chunks)
  end.

End Run.
End FakePlanetModule.

(** ** SimplexMinimizationModule *)

Module SimplexMinimizationModule.

Definition bad_pca_module : exn :=
  ValueError "The pca_module should be either PSFSubtractionModule or FastPCAModule.".

Definition multiple_residuals : exn :=
  ValueError "Multiple residual images found, expecting only one.".

Definition bad_merit : exn :=
  ValueError "Function of merit should be set to hessian or sum.".

Section Run.
Context {F img : Type} `{Float F} `{Image img} `{ScaledImage F img}
        `{Collaborators F img}.

(** The attributes of the module as the constructor leaves them. *)
Record t : Type := {
  m_position : F * F;           (* approximate (x, y), pixels *)
  m_magnitude : F;
  m_psf_scaling : F;
  m_merit : string;
  m_radius : F;                 (* arcsec *)
  m_sigma : F;                  (* arcsec *)
  m_tolerance : F;
  m_pca_module : string;
  m_pca_number : nat;
  m_mask : F;                   (* arcsec *)
  m_extra_rot : F
}.

(** What [run] reads from the data base: the configured chunk size, the
    attributes of the input tag and the two input data sets. *)
Record inputs : Type := {
  MEMORY : nat;
  PIXSCALE : F;
  NEW_PARA : list F;
  image_in : ndarray img;
  psf_in : ndarray img
}.

(** The values that [run] fixes before the minimization: the attributes that
    it overwrites ([m_radius], now an integer number of pixels, [m_sigma],
    [m_position], [m_mask]) and the local [center]. *)
Record locals : Type := {
  radius : Z;
  sigma : F;
  position : F * F;
  mask : F;
  center : F * F
}.

(** The two output tags. *)
Record ports : Type := {
  m_res_out : list img;
  m_flux_position : list (list F)
}.

Definition _rotate (center position : F * F) (angle : F) : F * F :=
  let pos_x :=
    f_sub (f_mul (f_sub (fst position) (fst center)) (f_cos (radians angle)))
          (f_mul (f_sub (snd position) (snd center)) (f_sin (radians angle))) in
  let pos_y :=
    f_add (f_mul (f_sub (fst position) (fst center)) (f_sin (radians angle)))
          (f_mul (f_sub (snd position) (snd center)) (f_cos (radians angle))) in
  (f_add (fst center) pos_x, f_add (snd center) pos_y).

Definition sep_of (inp : inputs) (l : locals) (pos_x pos_y : F) : F :=
  f_mul (f_sqrt (f_add (f_pow (f_sub pos_y (fst (center l))) (f_lit 2))
                       (f_pow (f_sub pos_x (snd (center l))) (f_lit 2))))
        (PIXSCALE inp).

Definition ang_of (l : locals) (pos_x pos_y : F) : F :=
  f_sub (f_div (f_mul (f_atan2 (f_sub pos_y (fst (center l)))
                               (f_sub pos_x (snd (center l))))
                      (f_lit 180))
               f_pi)
        (f_lit 90).

(** The row that one evaluation appends to the flux and position tag. *)
Definition trial_record (self : t) (inp : inputs) (l : locals)
    (arg : F * F * F) (merit : F) : list F :=
  let '(pos_x, pos_y, mag) := arg in
  let position := _rotate (center l) (pos_x, pos_y) (f_neg (m_extra_rot self)) in
  [ fst position;
    snd position;
    sep_of inp l pos_x pos_y;
    f_mod (f_sub (ang_of l pos_x pos_y) (m_extra_rot self)) (f_lit 360);
    mag;
    merit ].

(** The PSF subtraction of one evaluation: the fake planet is injected and
    the chosen module is run; the result is the data set of the tag
    [simplex_res_mean]. *)
Definition residuals (self : t) (inp : inputs) (l : locals) (arg : F * F * F)
  : result (ndarray img) :=
  let '(pos_x, pos_y, mag) := arg in
  let fake_planet :=
    {| FakePlanetModule.m_position := (sep_of inp l pos_x pos_y, ang_of l pos_x pos_y);
       FakePlanetModule.m_magnitude := mag;
       FakePlanetModule.m_psf_scaling := m_psf_scaling self |} in
  simplex_fake ← FakePlanetModule.run fake_planet (MEMORY inp) (PIXSCALE inp)
                   (NEW_PARA inp) (image_in inp) (psf_in inp);
  if String.eqb (m_pca_module self) "PSFSubtractionModule" then
    psf_subtraction simplex_fake (m_pca_number self) (m_extra_rot self) (mask l)
  else if String.eqb (m_pca_module self) "FastPCAModule" then
    fast_pca simplex_fake (m_pca_number self) (m_extra_rot self)
  else Raise bad_pca_module.

(** [np.squeeze] of a stack of one image; more than one is an error. *)
Definition single_residual (im_res : ndarray img) : result img :=
  match im_res with
  | Array2D _ _ im => Ok im
  | Array3D _ _ [im] => Ok im
  | Array3D _ _ _ => Raise multiple_residuals
  end.

(** The function of merit of the cropped residuals. *)
Definition merit_of (self : t) (l : locals) (im_crop : img) : result F :=
  if String.eqb (m_merit self) "hessian" then Ok (merit_hessian im_crop (sigma l) (radius l))
  else if String.eqb (m_merit self) "sum" then Ok (merit_sum im_crop (radius l))
  else Raise bad_merit.

(** [_objective(arg)]: the ports keep what was appended before an
    exception. *)
Definition _objective (self : t) (inp : inputs) (l : locals)
    (arg : F * F * F) (p : ports) : result F * ports :=
  match residuals self inp l arg ≫= single_residual with
  | Raise e => (Raise e, p)
  | Ok im_res =>
      let p := {| m_res_out := m_res_out p ++ [im_res];
                  m_flux_position := m_flux_position p |} in
      let im_crop :=
        cutout2d im_res (_rotate (center l) (position l) (f_neg (m_extra_rot self)))
                 (2 * radius l) in
      match merit_of self l im_crop with
      | Raise e => (Raise e, p)
      | Ok merit =>
          (Ok merit,
           {| m_res_out := m_res_out p;
              m_flux_position := m_flux_position p ++ [trial_record self inp l arg merit] |})
      end
  end.

(** [scipy.optimize.minimize] with the Nelder-Mead method, as a caller of
    the objective.  [next] is the simplex strategy, a parameter: from
    the evaluations made so far (argument and value, oldest first) it gives
    the next argument, or [None] on convergence; [maxfev] bounds the number
    of evaluations.  The result is the list of all evaluations. *)
Fixpoint minimize (maxfev : nat)
    (next : list (F * F * F * F) -> option (F * F * F))
    (fun_ : F * F * F -> ports -> result F * ports)
    (evaluations : list (F * F * F * F)) (p : ports)
  : result (list (F * F * F * F)) * ports :=
  match maxfev with
  | O => (Ok evaluations, p)
  | S maxfev' =>
      match next evaluations with
      | None => (Ok evaluations, p)
      | Some arg =>
          match fun_ arg p with
          | (Ok merit, p') => minimize maxfev' next fun_ (evaluations ++ [(arg, merit)]) p'
          | (Raise e, p') => (Raise e, p')
          end
      end
  end.

(** The preparation of [run], up to the call of [minimize]. *)
Definition prepare (self : t) (inp : inputs) : result locals :=
  match image_in inp with
  | Array2D _ _ _ => Raise FakePlanetModule.not_a_cube
  | Array3D h w frames =>
      let psf_size :=
        match psf_in inp with
        | Array2D _ _ _ => (length frames, h)
        | Array3D _ _ _ => (h, w)
        end in
      let center := (f_div (f_nat (fst psf_size)) (f_lit 2),
                     f_div (f_nat (snd psf_size)) (f_lit 2)) in
      Ok {| radius := f_ceil (f_div (m_radius self) (PIXSCALE inp));
            sigma := f_div (m_sigma self) (PIXSCALE inp);
            position := _rotate center (m_position self) (m_extra_rot self);
            mask := f_div (m_mask self) (f_mul (PIXSCALE inp) (f_nat w));
            center := center |}
  end.

(** [run]: both output tags are emptied, then the simplex search drives
    [_objective] from the rotated first guess.  [simplex x0] is the strategy
    of the search started at [x0]. *)
Definition run (self : t) (inp : inputs) (maxfev : nat)
    (simplex : F * F * F -> list (F * F * F * F) -> option (F * F * F))
  : result (list (F * F * F * F)) * ports :=
  let p := {| m_res_out := []; m_flux_position := [] |} in
  match prepare self inp with
  | Raise e => (Raise e, p)
  | Ok l =>
      let x0 := (fst (position l), snd (position l), m_magnitude self) in
      minimize maxfev (simplex x0) (_objective self inp l) [] p
  end.

(** The documentation of [flux_position_tag]: the last row of values holds
    the best-fit results. *)
Definition best_fit (p : ports) : option (list F) := last (m_flux_position p).

End Run.
End SimplexMinimizationModule.

(** ** Concrete numbers and detectors for the examples *)

(** The doubles of IEEE 754 (binary64), which are the floats of Python and
    of numpy: the primitive floats of the kernel.  The conversion of an
    integer and the division round to the nearest double, so that [of_Q]
    gives the double that the decimal literal of a rational denotes. *)
Module Binary64.

Definition of_int (z : Z) : PrimFloat.float :=
  if (z <? 0)%Z then PrimFloat.opp (PrimFloat.of_uint63 (Uint63.of_Z (- z)))
  else PrimFloat.of_uint63 (Uint63.of_Z z).

Definition of_Q (q : Q) : PrimFloat.float :=
  PrimFloat.div (of_int (Qnum q)) (of_int (Z.pos (Qden q))).

Definition double : Double PrimFloat.float := {|
  d_of_int := of_int;
  d_div := PrimFloat.div;
  d_sqrt := PrimFloat.sqrt;
  d_ltb := PrimFloat.ltb
|}.

End Binary64.

(** A detector of one pixel with rational intensities: the arithmetic on
    images is the arithmetic on the pixel.  The mean of an empty stack, NaN
    in numpy, is no rational: [mean []] is kept as it is written, and no
    example rests on its value. *)
Module QPixel.

Definition mean (stack : list Q) : Q :=
  (foldr Qplus 0 stack / inject_Z (Z.of_nat (length stack)))%Q.

Definition image : Image Q := {|
  img_sub := Qminus;
  img_add := Qplus;
  img_half := fun a => (a / 2)%Q;
  img_mean := mean
|}.

(** Two stacks hold the same intensities. *)
Definition same (a b : list Q) : Prop := Forall2 Qeq a b.

End QPixel.

(** A detector of one pixel with real intensities, and real numbers for the
    floats.  On one pixel the shift with reflecting boundary returns the
    pixel, whatever the offset; the PSF subtraction is taken to be the mean
    of the stack, and the merit the absolute value of the pixel. *)
Module RPixel.

Definition pow (a b : R) : R :=
  if Rlt_dec 0 a then Rpower a b else if Req_dec_T b 2 then (a * a)%R else 0%R.

Definition fmod (a b : R) : R := (a - b * IZR (Int_part (a / b)))%R.

Definition atan2 (y x : R) : R :=
  if Rlt_dec 0 x then atan (y / x)
  else if Rlt_dec x 0 then
    (if Rle_dec 0 y then atan (y / x) + PI else atan (y / x) - PI)%R
  else if Rlt_dec 0 y then (PI / 2)%R
  else if Rlt_dec y 0 then (- PI / 2)%R
  else 0%R.

Definition float : Float R := {|
  f_lit := Q2R;
  f_add := Rplus;
  f_sub := Rminus;
  f_mul := Rmult;
  f_div := Rdiv;
  f_neg := Ropp;
  f_pow := pow;
  f_mod := fmod;
  f_sqrt := sqrt;
  f_cos := cos;
  f_sin := sin;
  f_atan2 := atan2;
  f_pi := PI;
  f_ceil := fun a => (- Int_part (- a))%Z
|}.

Definition sum (stack : list R) : R := foldr Rplus 0%R stack.

Definition mean (stack : list R) : R := (sum stack / INR (length stack))%R.

Definition image : Image R := {|
  img_sub := Rminus;
  img_add := Rplus;
  img_half := fun a => (a / 2)%R;
  img_mean := mean
|}.

Definition scaled : ScaledImage R R := {|
  img_scale := Rmult;
  img_divs := Rdiv;
  img_sum := sum;
  img_zeros := fun _ _ => 0%R
|}.

Definition collaborators : Collaborators R R := {|
  ndimage_shift := fun psf _ => psf;
  psf_subtraction := fun stack _ _ _ => Ok (Array3D 1 1 [mean stack]);
  fast_pca := fun stack _ _ => Ok (Array2D 1 1 (mean stack));
  cutout2d := fun im _ _ => im;
  merit_hessian := fun _ _ _ => 0%R;
  merit_sum := fun im _ => Rabs im
|}.

End RPixel.


(** ** The list of time stamps and the runs of the sky modules *)

Module TimeStampList.
Import TimeStamps.

(** [sorted(l, key=lambda time_stamp: time_stamp.m_time)].  The sort of
    Python is stable, which fixes its result: the entries in the order of
    their time, entries of equal time in the order of the list.  Inserting
    the entries from the right, each before the first entry that is not
    earlier, gives that order. *)
Fixpoint insert (x : TimeStamp) (l : list TimeStamp) : list TimeStamp :=
  match l with
  | [] => [x]
  | y :: rest =>
      if (m_time x <=? m_time y)%Z then x :: y :: rest else y :: insert x rest
  end.

Definition sorted (l : list TimeStamp) : list TimeStamp := foldr insert [] l.

(** The entries of the sky frames: [TimeStamp(item, "SKY", i)]. *)
Definition sky_stamps (exp_no : list Z) : list TimeStamp :=
  imap (fun i item =>
          {| m_time := item; m_sky_or_science := "SKY"; m_index := IndexInt i |})
       exp_no.

(** The loop over the science cubes of [NoddingBackgroundModule], from cube
    [i] on: [slice(current, current+nframes[i])]. *)
Fixpoint science_stamps (exp_no : list Z) (nframes : list nat) (i current : nat)
  : result (list TimeStamp) :=
  match exp_no with
  | [] => Ok []
  | item :: rest =>
      n ← getitem nframes i;
      stamps ← science_stamps rest nframes (S i) (current + n);
      mret ({| m_time := item; m_sky_or_science := "SCIENCE";
               m_index := IndexSlice current (current + n) |} :: stamps)
  end.

(** The science entries of [SkySubtraction]: every cube has the
    [number_of_frames_per_cube] of the static attribute NAXIS3. *)
Definition uniform_science_stamps (dates : list Z) (number_of_frames_per_cube : nat)
  : list TimeStamp :=
  imap (fun i item =>
          {| m_time := item; m_sky_or_science := "SCIENCE";
             m_index := IndexSlice (i * number_of_frames_per_cube)
                                   ((i + 1) * number_of_frames_per_cube) |})
       dates.

Section Run.
Context {img : Type} `{Image img}.

(** [self.m_science_in_port[time_entry.m_index, ]]: a slice reads a cube, an
    integer one frame. *)
Definition science_cube (science : list img) (index : index_t) : result (list img) :=
  match index with
  | IndexSlice start stop => Ok (getslice science start stop)
  | IndexInt i => frame ← getitem science i; mret [frame]
  end.

(** [sky[None, ]] when [sky] is [None]. *)
Definition none_sky : exn :=
  TypeError "'NoneType' object has no attribute '__getitem__'".

(** [calc_sky_frame(i)] on the data base as it is now.  The method reads
    single frames of the sky tag, and nothing else, from the data base: on
    an unknown tag it behaves as on an empty stack, except that the read
    which fails there with an IndexError fails with NotFoundError.  ([run]
    calls the method at positions of the list of time stamps, for which no
    other step of the method raises an IndexError.) *)
Definition sky_through_port (calc : list img -> result (option img))
    (sky_in_tag : string) (db : gmap string (list img)) : result (option img) :=
  match db !! sky_in_tag with
  | Some sky => calc sky
  | None =>
      match calc [] with
      | Raise IndexError => Raise (NotFoundError sky_in_tag)
      | r => r
      end
  end.

(** The loop of [run] over the sorted entries, from position [i] on, on the
    data base: the science cube is read through the science port and the
    difference is appended through the output port, so that the loop sees
    what it has written when two tags are the same.  The data base keeps
    what was appended before an exception.  [calc_sky_frame] returns [None]
    only for a mode that the constructors do not admit; [sky[None, ]] then
    fails. *)
Fixpoint subtract_sky (calc : nat -> list img -> result (option img))
    (sky_in_tag science_in_tag image_out_tag : string)
    (i : nat) (entries : list TimeStamp) (db : gmap string (list img))
  : result unit * gmap string (list img) :=
  match entries with
  | [] => (Ok tt, db)
  | time_entry :: rest =>
      if is_sky time_entry
      then subtract_sky calc sky_in_tag science_in_tag image_out_tag (S i) rest db
      else
        match sky_through_port (calc i) sky_in_tag db with
        | Raise e => (Raise e, db)
        | Ok None => (Raise none_sky, db)
        | Ok (Some sky) =>
            match DataBase.stack science_in_tag db
                    ≫= fun science => science_cube science (m_index time_entry) with
            | Raise e => (Raise e, db)
            | Ok cube =>
                subtract_sky calc sky_in_tag science_in_tag image_out_tag (S i) rest
                  (DataBase.append image_out_tag (stack_sub cube sky) db)
            end
        end
  end.

End Run.
End TimeStampList.

(** [NoddingBackgroundModule._create_time_stamp_list] and [run].
    [m_time_stamps] is the list that the object holds before the call (empty
    after the constructor); the attributes EXP_NO of both input tags and
    NFRAMES of the science tag, which are read before anything is deleted,
    are arguments. *)
Module NoddingRun.

(** The tags of the three ports and the mode.  The constructor has the
    defaults [sky_arr], [im_arr] and [im_arr]: by default the output tag is
    the tag of the science frames. *)
Record t : Type := {
  m_sky_in_tag : string;
  m_science_in_tag : string;
  m_image_out_tag : string;
  m_mode : string
}.

Definition _create_time_stamp_list (m_time_stamps : list TimeStamps.TimeStamp)
    (sky_exp_no science_exp_no : list Z) (nframes : list nat)
  : result (list TimeStamps.TimeStamp) :=
  science ← TimeStampList.science_stamps science_exp_no nframes 0 0;
  mret (TimeStampList.sorted
          (m_time_stamps ++ TimeStampList.sky_stamps sky_exp_no ++ science)).

(** [run], on a new object: the list of time stamps is made, the data of
    the output tag are deleted, then every science cube has its sky frame
    subtracted and is appended. *)
Definition run {img : Type} `{Image img} (self : t) (depth : nat)
    (sky_exp_no science_exp_no : list Z) (nframes : list nat)
    (db : gmap string (list img)) : result unit * gmap string (list img) :=
  match _create_time_stamp_list [] sky_exp_no science_exp_no nframes with
  | Raise e => (Raise e, db)
  | Ok m_time_stamps =>
      let db := DataBase.del_all_data (m_image_out_tag self) db in
      TimeStampList.subtract_sky
        (fun i sky =>
           NoddingBackgroundModule.calc_sky_frame m_time_stamps sky i (m_mode self) depth)
        (m_sky_in_tag self) (m_science_in_tag self) (m_image_out_tag self)
        0 m_time_stamps db
  end.

End NoddingRun.

(** [SkySubtraction._create_time_stamp_list] and [run]; [naxis3] is the
    static attribute NAXIS3 of the science tag. *)
Module SkySubtractionRun.

(** The tags of the three ports and the mode.  The constructor has the
    defaults [sky_arr], [im_arr] and [im_arr]. *)
Record t : Type := {
  m_sky_in_tag : string;
  m_science_in_tag : string;
  m_science_out_tag : string;
  m_mode : string
}.

Definition _create_time_stamp_list (m_time_stamps : list TimeStamps.TimeStamp)
    (sky_dates science_dates : list Z) (naxis3 : nat)
  : list TimeStamps.TimeStamp :=
  TimeStampList.sorted
    (m_time_stamps ++ TimeStampList.sky_stamps sky_dates
     ++ TimeStampList.uniform_science_stamps science_dates naxis3).

(** [run], on a new object. *)
Definition run {img : Type} `{Image img} (self : t) (depth : nat)
    (sky_dates science_dates : list Z) (naxis3 : nat)
    (db : gmap string (list img)) : result unit * gmap string (list img) :=
  let m_time_stamps := _create_time_stamp_list [] sky_dates science_dates naxis3 in
  let db := DataBase.del_all_data (m_science_out_tag self) db in
  TimeStampList.subtract_sky
    (fun i sky => SkySubtraction.calc_sky_frame m_time_stamps sky i (m_mode self) depth)
    (m_sky_in_tag self) (m_science_in_tag self) (m_science_out_tag self)
    0 m_time_stamps db.

End SkySubtractionRun.

(** ** MeanSkyCubes *)

Module MeanSkyCubes.

(** [run], for an output tag that is not the input tag: [naxis3] is the
    non-static attribute NAXIS3 (the number of frames of each sky cube); the
    result is the stack of the output tag. *)
Definition run {img : Type} `{Image img} (naxis3 : list nat) (sky_in : list img)
  : list img :=
  snd (foldl (fun '(current_frame, out) frame_number =>
                let mean_frame :=
                  img_mean (getslice sky_in current_frame (current_frame + frame_number)) in
                (current_frame + frame_number, out ++ [mean_frame]))
             (0, []) naxis3).

End MeanSkyCubes.

(** ** AlignmentSkyAndScienceDataModule: the window of the cross-correlation *)

Module AlignmentSkyAndScienceDataModule.

(** The offsets that the constructor derives: the division of two integers
    rounds down. *)
Record t : Type := {
  m_center_size : Z * Z;
  m_center_position : Z * Z;
  m_x_off : Z;
  m_y_off : Z
}.

Definition __init__ (position_of_center size_of_center : Z * Z) : t :=
  {| m_center_size := size_of_center;
     m_center_position := position_of_center;
     m_x_off := (fst position_of_center - fst size_of_center / 2)%Z;
     m_y_off := (snd position_of_center - snd size_of_center / 2)%Z |}.

(** [cut_image_around_position]: an image is a list of rows. *)
Definition cut_image_around_position {A : Type} (self : t) (image_in : list (list A))
  : list (list A) :=
  map (fun row => py_slice row (m_y_off self) (snd (m_center_size self) + m_y_off self))
      (py_slice image_in (m_x_off self) (fst (m_center_size self) + m_x_off self)).

End AlignmentSkyAndScienceDataModule.

(** ** PCABackgroundDitheringModule: the preparation of a dither position *)

Module PCABackgroundDitheringModule.

(** The attributes that reach the preparation: the centres of the dither
    positions and the number of cubes per position.  The other attributes
    are handed to the modules for the cut, the bad pixels, the star
    position, the PCA subtraction and the combination of the tags, which
    are modules of other files. *)
Record t : Type := {
  m_center : list (Z * Z);
  m_cubes_per_position : nat
}.

(** [star_pos = np.arange(0, n_dither, 1)] *)
Definition star_pos (self : t) : list nat := seq 0 (length (m_center self)).

(** The preparation module that [run] makes for the dither position [i]:
    [dither=(n_dither, self.m_cubes_per_position, star_pos[i])]. *)
Definition prepare (self : t) (i : nat) : result PCABackgroundPreparationModule.t :=
  first_star_cube ← getitem (star_pos self) i;
  PCABackgroundPreparationModule.__init__
    [length (m_center self); m_cubes_per_position self; first_star_cube].

Section Run.
Context {img : Type} `{Image img} {angle : Type}.

(** What the cut around a dither position leaves under its output tag: the
    attributes NEW_PARA and NFRAMES, the shape of the cut frames and their
    stack. *)
Record cut_t : Type := {
  cut_NEW_PARA : option (list angle);
  cut_NFRAMES : list nat;
  cut_shape : nat * nat;
  cut_frames : list img
}.

(** The first steps of [run]: the cut around the first dither position and
    the run of its preparation.  [cut] is the run of
    [CutAroundPositionModule] for a centre, given by what it leaves under
    its output tag.  Without a dither position the loop body is not
    entered. *)
Definition run_first_preparation (self : t) (cut : Z * Z -> result cut_t)
  : result (option (@PCABackgroundPreparationModule.vars img angle)) :=
  match m_center self with
  | [] => Ok None
  | position :: _ =>
      data ← cut position;
      prepare_module ← prepare self 0;
      Some <$> PCABackgroundPreparationModule.run prepare_module
                 (cut_NEW_PARA data) (cut_NFRAMES data) (cut_shape data)
                 (cut_frames data)
  end.

End Run.
End PCABackgroundDitheringModule.
(** ** Predicates of the specification *)

(** [x] is input frame [i] minus input frame [(i + shift) mod N], for the
    stack [frames] of [N] frames. *)
Definition is_difference `{Image img} (self : SimpleBackgroundSubtractionModule.t)
    (frames : list img) (i : nat) (x : img) : Prop :=
  exists a b,
    frames !! i = Some a
    /\ frames !! SimpleBackgroundSubtractionModule.partner self (length frames) i = Some b
    /\ x = img_sub a b.

(** *** Resolving the sky frame of a science entry *)

Section SkyChoice.
Context {img : Type}.
Variable m_time_stamps : list TimeStamps.TimeStamp.
Variable m_sky_in_port : list img.

(** Entry [j] of the sorted sequence is a sky entry. *)
Definition sky_at (j : nat) : Prop :=
  exists x, m_time_stamps !! j = Some x /\ TimeStamps.is_sky x = true.

(** [j] is the first sky entry at or after position [idx]. *)
Definition first_sky_from (idx j : nat) : Prop :=
  idx <= j /\ sky_at j /\ forall k, idx <= k < j -> ~ sky_at k.

(** [j] is the nearest sky entry before position [idx]. *)
Definition last_sky_before (idx j : nat) : Prop :=
  j < idx /\ sky_at j /\ forall k, j < k < idx -> ~ sky_at k.

Definition no_sky_from (idx : nat) : Prop := forall k, idx <= k -> ~ sky_at k.
Definition no_sky_before (idx : nat) : Prop := forall k, k < idx -> ~ sky_at k.

(** The entry that mode next resolves to: the first sky entry at or after
    [idx], or the nearest previous one when there is none. *)
Definition next_choice (idx j : nat) : Prop :=
  first_sky_from idx j \/ (no_sky_from idx /\ last_sky_before idx j).

(** The entry that mode previous resolves to: the nearest sky entry before
    [idx], or the first one at or after it when there is none. *)
Definition previous_choice (idx j : nat) : Prop :=
  last_sky_before idx j \/ (no_sky_before idx /\ first_sky_from idx j).

(** [frame] is the sky frame that entry [j] points to. *)
Definition frame_of (j : nat) (frame : img) : Prop :=
  exists x i,
    m_time_stamps !! j = Some x
    /\ TimeStamps.m_index x = TimeStamps.IndexInt i
    /\ m_sky_in_port !! i = Some frame.

(** Every sky entry carries the index of a frame of the sky port, as
    [_create_time_stamp_list] builds them. *)
Definition sky_entries_indexed : Prop :=
  forall j x,
    m_time_stamps !! j = Some x -> TimeStamps.is_sky x = true ->
    exists i frame,
      TimeStamps.m_index x = TimeStamps.IndexInt i /\ m_sky_in_port !! i = Some frame.

(** What C6 says of a method [calc] called at position [idx]. *)
Definition resolves_sky `{Image img}
    (calc : list TimeStamps.TimeStamp -> list img -> nat -> string -> nat
            -> result (option img))
    (idx depth : nat) : Prop :=
  exists jp jn fp fn,
    previous_choice idx jp /\ frame_of jp fp
    /\ next_choice idx jn /\ frame_of jn fn
    /\ calc m_time_stamps m_sky_in_port idx "next"%string depth = Ok (Some fn)
    /\ calc m_time_stamps m_sky_in_port idx "previous"%string depth = Ok (Some fp)
    /\ calc m_time_stamps m_sky_in_port idx "both"%string depth
       = Ok (Some (img_half (img_add fp fn)))
    /\ (no_sky_from idx \/ no_sky_before idx -> jp = jn).

End SkyChoice.

(** *** Cubes of the PCA preparation *)

(** The index of the first frame of cube [k]. *)
Definition cube_start (nframes : list nat) (k : nat) : nat := sum_list (take k nframes).

(** The frames of cube [k]. *)
Definition cube_frames {img : Type} (frames : list img) (nframes : list nat) (k : nat)
  : list img :=
  getslice frames (cube_start nframes k) (cube_start nframes (S k)).

(** [k] is the nearest background cube before cube [i]. *)
Definition nearest_prev (bg_frames : list bool) (i k : nat) : Prop :=
  k < i /\ bg_frames !! k = Some true
  /\ forall j, k < j < i -> bg_frames !! j <> Some true.

(** [k] is the nearest background cube after cube [i]. *)
Definition nearest_next (bg_frames : list bool) (i k : nat) : Prop :=
  i < k /\ bg_frames !! k = Some true
  /\ forall j, i < j < k -> bg_frames !! j <> Some true.

(** The cubes with flag [flag] among the first [i] cubes, in order. *)
Definition cubes_flagged (bg_frames : list bool) (flag : bool) (i : nat) : list nat :=
  filter (fun k => bg_frames !! k = Some flag) (seq 0 i).

(** [out] holds, cube after cube and frame after frame, the frames of the
    cubes [ks], each cube with one image subtracted from all its frames. *)
Definition written_from `{Image img} (frames : list img) (nframes : list nat)
    (ks : list nat) (out : list img) : Prop :=
  exists blocks,
    out = concat blocks
    /\ Forall2 (fun k block => exists b, block = stack_sub (cube_frames frames nframes k) b)
               ks blocks.

(** The NFRAMES entries of the cubes [ks]. *)
Definition nframes_of (nframes : list nat) (ks : list nat) : list nat :=
  omap (fun k => nframes !! k) ks.

(** The variables of the second loop of the preparation before cube [i]. *)
Definition vars_before `{Image img} {angle : Type}
    (frames : list img) (parang : list angle) (nframes : list nat)
    (bg_frames : list bool) (i : nat)
  : result (@PCABackgroundPreparationModule.vars img angle) :=
  PCABackgroundPreparationModule.loop frames parang (length nframes)
    (PCABackgroundPreparationModule.cube_means frames nframes 0) bg_frames
    0 (take i nframes) PCABackgroundPreparationModule.initial.

(** What holds of the variables of the second loop before cube [i]: the
    frame counter is at the first frame of the cube, an output that was
    never written is empty, and each output holds the cubes with its flag
    among the first [i] cubes, with their NFRAMES entries. *)
Definition loop_invariant `{Image img} {angle : Type}
    (frames : list img) (nframes : list nat) (bg_frames : list bool)
    (i : nat) (v : @PCABackgroundPreparationModule.vars img angle) : Prop :=
  PCABackgroundPreparationModule.count v = cube_start nframes i
  /\ (PCABackgroundPreparationModule.star_init v = false ->
      PCABackgroundPreparationModule.star_out v = []
      /\ PCABackgroundPreparationModule.star_nframes v = [])
  /\ (PCABackgroundPreparationModule.background_init v = false ->
      PCABackgroundPreparationModule.background_out v = []
      /\ PCABackgroundPreparationModule.background_nframes v = [])
  /\ written_from frames nframes (cubes_flagged bg_frames false i)
       (PCABackgroundPreparationModule.star_out v)
  /\ written_from frames nframes (cubes_flagged bg_frames true i)
       (PCABackgroundPreparationModule.background_out v)
  /\ PCABackgroundPreparationModule.star_nframes v
     = nframes_of nframes (cubes_flagged bg_frames false i)
  /\ PCABackgroundPreparationModule.background_nframes v
     = nframes_of nframes (cubes_flagged bg_frames true i).

(** The iteration for cube [i], started from the variables [v], completes
    and appends to the star output the frames of cube [i] minus [b]. *)
Definition star_cube_written `{Image img} {angle : Type}
    (frames : list img) (parang : list angle) (nframes : list nat)
    (bg_frames : list bool) (i item : nat)
    (v : @PCABackgroundPreparationModule.vars img angle) (b : img) : Prop :=
  exists v',
    PCABackgroundPreparationModule.step frames parang (length nframes)
      (PCABackgroundPreparationModule.cube_means frames nframes 0) bg_frames i item v
    = Ok v'
    /\ PCABackgroundPreparationModule.star_out v'
       = PCABackgroundPreparationModule.star_out v
         ++ stack_sub (cube_frames frames nframes i) b
    /\ PCABackgroundPreparationModule.background_out v'
       = PCABackgroundPreparationModule.background_out v.

(** The same for the background output. *)
Definition background_cube_written `{Image img} {angle : Type}
    (frames : list img) (parang : list angle) (nframes : list nat)
    (bg_frames : list bool) (i item : nat)
    (v : @PCABackgroundPreparationModule.vars img angle) (b : img) : Prop :=
  exists v',
    PCABackgroundPreparationModule.step frames parang (length nframes)
      (PCABackgroundPreparationModule.cube_means frames nframes 0) bg_frames i item v
    = Ok v'
    /\ PCABackgroundPreparationModule.background_out v'
       = PCABackgroundPreparationModule.background_out v
         ++ stack_sub (cube_frames frames nframes i) b
    /\ PCABackgroundPreparationModule.star_out v'
       = PCABackgroundPreparationModule.star_out v.

(** The background estimate of star cube [i] as C1 states it: the mean of
    the previous background cube for the first cube, of the next one for the
    last cube, and the average of the two otherwise. *)
Definition claimed_estimate `{Image img} (frames : list img) (nframes : list nat)
    (bg_frames : list bool) (i : nat) (b : img) : Prop :=
  let mean k := img_mean (cube_frames frames nframes k) in
  if decide (i = 0) then
    exists k, nearest_prev bg_frames i k /\ b = mean k
  else if decide (i = length nframes - 1) then
    exists k, nearest_next bg_frames i k /\ b = mean k
  else
    exists kp kn,
      nearest_prev bg_frames i kp /\ nearest_next bg_frames i kn
      /\ b = img_half (img_add (mean kp) (mean kn)).

(** Every star cube has the background cubes that its estimate reads: a
    later one for the first cube, an earlier one for any other cube, and
    also a later one for a cube that is neither first nor last. *)
Definition has_backgrounds (bg_frames : list bool) : Prop :=
  forall i,
    bg_frames !! i = Some false ->
    (i = 0 -> exists k, nearest_next bg_frames i k)
    /\ (i <> 0 -> exists k, nearest_prev bg_frames i k)
    /\ (i <> 0 -> i <> length bg_frames - 1 -> exists k, nearest_next bg_frames i k).

(** *** Masks *)

(** The value of a mask at column [x], row [y]. *)
Definition pixel (m : list (list Q)) (x y : nat) : option Q :=
  row ← m !! y; row !! x.

(** The mean of the recorded star positions. *)
Definition mean_position (star_position : list (Z * Z)) : Q * Q :=
  let n := inject_Z (Z.of_nat (length star_position)) in
  (inject_Z (foldr Z.add 0%Z (star_position.*1)) / n,
   inject_Z (foldr Z.add 0%Z (star_position.*2)) / n)%Q.

(** The squared distance of pixel [(x, y)] from a position. *)
Definition distance2 (x y : nat) (p : Q * Q) : Q :=
  ((inject_Z (Z.of_nat x) - fst p) * (inject_Z (Z.of_nat x) - fst p)
   + (inject_Z (Z.of_nat y) - snd p) * (inject_Z (Z.of_nat y) - snd p))%Q.

(** *** Injection of the fake planet *)

(** [x] is frame [k] of the PSF stack with its own shifted and scaled copy
    added, for the parallactic angle [k] of [parang] (in radians). *)
Definition psf_plus_psf {F img : Type} `{Float F} `{Image img} `{ScaledImage F img}
    `{Collaborators F img}
    (self : @FakePlanetModule.t F) (radial theta : F) (parang : list F)
    (psf_stack : list img) (k : nat) (x : img) : Prop :=
  exists pa p,
    parang !! k = Some pa /\ psf_stack !! k = Some p
    /\ x = FakePlanetModule.inject self radial theta pa p p.

(** *** Trials of the simplex minimization *)

Section Trial.
Context {F img : Type} `{Float F} `{Image img} `{ScaledImage F img}
        `{Collaborators F img}.

(** The separation (arcsec) of the trial position [(x, y)] from the centre:
    the square root of [(y - center[0])**2 + (x - center[1])**2], times the
    pixel scale. *)
Definition separation_of (center : F * F) (pixscale x y : F) : F :=
  f_mul (f_sqrt (f_add (f_pow (f_sub y (fst center)) (f_lit 2))
                       (f_pow (f_sub x (snd center)) (f_lit 2))))
        pixscale.

(** Its position angle (deg): [atan2(y - center[0], x - center[1])] in
    degrees, minus 90. *)
Definition angle_of (center : F * F) (x y : F) : F :=
  f_sub (f_div (f_mul (f_atan2 (f_sub y (fst center)) (f_sub x (snd center)))
                      (f_lit 180))
               f_pi)
        (f_lit 90).

(** The position [(x, y)] turned about the centre by minus the extra
    rotation (deg). *)
Definition rotated_back (center : F * F) (extra_rot x y : F) : F * F :=
  let a := f_mul (f_neg extra_rot) (f_div f_pi (f_lit 180)) in
  (f_add (fst center)
         (f_sub (f_mul (f_sub x (fst center)) (f_cos a))
                (f_mul (f_sub y (snd center)) (f_sin a))),
   f_add (snd center)
         (f_add (f_mul (f_sub x (fst center)) (f_sin a))
                (f_mul (f_sub y (snd center)) (f_cos a)))).

(** The record of six components that C9 lists for a trial at [(x, y)] with
    magnitude [mag] and merit value [merit]. *)
Definition claimed_record (center : F * F) (pixscale extra_rot x y mag merit : F)
  : list F :=
  [ fst (rotated_back center extra_rot x y);
    snd (rotated_back center extra_rot x y);
    separation_of center pixscale x y;
    f_mod (f_sub (angle_of center x y) extra_rot) (f_lit 360);
    mag;
    merit ].

(** [im_res] is the residual image of the trial: the fake planet of
    magnitude [mag] is injected at the separation and angle of [(x, y)] with
    the scaling of the module, the chosen PSF subtraction is run on the
    result, and the data set of its mean residuals is the image [im_res] or
    a stack of that one image. *)
Definition trial_residual (self : @SimplexMinimizationModule.t F)
    (inp : @SimplexMinimizationModule.inputs F img)
    (l : @SimplexMinimizationModule.locals F) (x y mag : F) (im_res : img) : Prop :=
  exists simplex_fake res_mean,
    FakePlanetModule.run
      {| FakePlanetModule.m_position :=
           (separation_of (SimplexMinimizationModule.center l)
              (SimplexMinimizationModule.PIXSCALE inp) x y,
            angle_of (SimplexMinimizationModule.center l) x y);
         FakePlanetModule.m_magnitude := mag;
         FakePlanetModule.m_psf_scaling := SimplexMinimizationModule.m_psf_scaling self |}
      (SimplexMinimizationModule.MEMORY inp) (SimplexMinimizationModule.PIXSCALE inp)
      (SimplexMinimizationModule.NEW_PARA inp) (SimplexMinimizationModule.image_in inp)
      (SimplexMinimizationModule.psf_in inp)
    = Ok simplex_fake
    /\ ((SimplexMinimizationModule.m_pca_module self = "PSFSubtractionModule"%string
         /\ psf_subtraction simplex_fake (SimplexMinimizationModule.m_pca_number self)
              (SimplexMinimizationModule.m_extra_rot self)
              (SimplexMinimizationModule.mask l)
            = Ok res_mean)
        \/ (SimplexMinimizationModule.m_pca_module self = "FastPCAModule"%string
            /\ fast_pca simplex_fake (SimplexMinimizationModule.m_pca_number self)
                 (SimplexMinimizationModule.m_extra_rot self)
               = Ok res_mean))
    /\ exists h w, res_mean = Array2D h w im_res \/ res_mean = Array3D h w [im_res].

(** [merit] is the value of the function of merit of the module on the
    residuals [im_res], cut around the configured position. *)
Definition trial_merit (self : @SimplexMinimizationModule.t F)
    (l : @SimplexMinimizationModule.locals F) (im_res : img) (merit : F) : Prop :=
  let im_crop :=
    cutout2d im_res
      (rotated_back (SimplexMinimizationModule.center l)
         (SimplexMinimizationModule.m_extra_rot self)
         (fst (SimplexMinimizationModule.position l))
         (snd (SimplexMinimizationModule.position l)))
      (2 * SimplexMinimizationModule.radius l) in
  (SimplexMinimizationModule.m_merit self = "hessian"%string
   /\ merit = merit_hessian im_crop (SimplexMinimizationModule.sigma l)
                (SimplexMinimizationModule.radius l))
  \/ (SimplexMinimizationModule.m_merit self = "sum"%string
      /\ merit = merit_sum im_crop (SimplexMinimizationModule.radius l)).

(** The record that C9 lists for the evaluation [e] (position, magnitude
    and merit value) of a run. *)
Definition record_of_evaluation (self : @SimplexMinimizationModule.t F)
    (inp : @SimplexMinimizationModule.inputs F img)
    (l : @SimplexMinimizationModule.locals F) (e : F * F * F * F) : list F :=
  claimed_record (SimplexMinimizationModule.center l)
    (SimplexMinimizationModule.PIXSCALE inp) (SimplexMinimizationModule.m_extra_rot self)
    (fst (fst (fst e))) (snd (fst (fst e))) (snd (fst e)) (snd e).

End Trial.

(** ** Inputs of the examples *)

(** A stack of four one-pixel frames under the tag [im_arr]. *)
Definition four_frames : gmap string (list Q) :=
  {[ "im_arr"%string := [5; 1; 7; 2]%Q ]}.

(** Mean background subtraction with a manual shift [s], from [im_arr] to
    [bg_cleaned_arr]. *)
Definition mean_module (s : nat) : MeanBackgroundSubtractionModule.t :=
  {| MeanBackgroundSubtractionModule.m_star_prs_shift :=
       MeanBackgroundSubtractionModule.ShiftInt s;
     MeanBackgroundSubtractionModule.m_cubes_per_position := 1;
     MeanBackgroundSubtractionModule.m_image_in_tag := "im_arr";
     MeanBackgroundSubtractionModule.m_image_out_tag := "bg_cleaned_arr" |}.

(** A night with a sky frame, two science cubes of two frames each, and a
    second sky frame, in the order of their exposure numbers. *)
Definition nodding_time_stamps : list TimeStamps.TimeStamp :=
  [ {| TimeStamps.m_time := 1; TimeStamps.m_sky_or_science := "SKY";
       TimeStamps.m_index := TimeStamps.IndexInt 0 |};
    {| TimeStamps.m_time := 2; TimeStamps.m_sky_or_science := "SCIENCE";
       TimeStamps.m_index := TimeStamps.IndexSlice 0 2 |};
    {| TimeStamps.m_time := 3; TimeStamps.m_sky_or_science := "SCIENCE";
       TimeStamps.m_index := TimeStamps.IndexSlice 2 4 |};
    {| TimeStamps.m_time := 4; TimeStamps.m_sky_or_science := "SKY";
       TimeStamps.m_index := TimeStamps.IndexInt 1 |} ].

Definition nodding_sky : list Q := [10; 20]%Q.

(** PCA background subtraction with one mask for all frames, of radius
    0.75 arcsec, and the star positions of five frames of 8 by 8 pixels with
    0.5 arcsec per pixel: the star sits at (2, 6) in the first three frames
    and at (3, 7) in the last two. *)
Definition pca_mean_module : @PCABackgroundSubtractionModule.t PrimFloat.float :=
  {| PCABackgroundSubtractionModule.m_pca_number := 2;
     PCABackgroundSubtractionModule.m_mask_radius := Binary64.of_Q 0.75;
     PCABackgroundSubtractionModule.m_mask_position := "mean" |}.

Definition five_star_positions : list (Z * Z) :=
  [(2, 6); (2, 6); (2, 6); (3, 7); (3, 7)]%Z.

(** The preparation for two dither positions with one cube per position,
    the star being in the first cube: star and background cubes alternate. *)
Definition alternating : PCABackgroundPreparationModule.t :=
  {| PCABackgroundPreparationModule.m_dither_positions := 2;
     PCABackgroundPreparationModule.m_cubes_per_position := 1;
     PCABackgroundPreparationModule.m_first_star_cube := 0 |}.

(** Five cubes of one one-pixel frame each, and their parallactic angles. *)
Definition five_cubes : list Q := [4; 1; 6; 3; 9]%Q.
Definition five_angles : list Q := [0; 10; 20; 30; 40]%Q.

(** Three cubes of two, one and two one-pixel frames. *)
Definition three_cubes : list Q := [4; 6; 1; 7; 9]%Q.

(** Three one-pixel frames, of which an NFRAMES attribute [1; 1] counts
    two. *)
Definition uncounted_frames : list Q := [4; 6; 1]%Q.

(** Two science frames and two PSF frames of one real pixel, under
    different tags; a planet of magnitude 0 at 0.5 arcsec and 30 degrees. *)
Definition planet : @FakePlanetModule.t R :=
  {| FakePlanetModule.m_position := (0.5%R, 30%R);
     FakePlanetModule.m_magnitude := 0%R;
     FakePlanetModule.m_psf_scaling := 1%R |}.

Definition science_frames : ndarray R := Array3D 1 1 [1%R; 5%R].
Definition psf_frames : ndarray R := Array3D 1 1 [2%R; 3%R].

(** A simplex minimization on these frames with the merit sum. *)
Definition simplex_module : @SimplexMinimizationModule.t R :=
  {| SimplexMinimizationModule.m_position := (1%R, 0%R);
     SimplexMinimizationModule.m_magnitude := 5%R;
     SimplexMinimizationModule.m_psf_scaling := (-1)%R;
     SimplexMinimizationModule.m_merit := "sum";
     SimplexMinimizationModule.m_radius := 0.1%R;
     SimplexMinimizationModule.m_sigma := 0.027%R;
     SimplexMinimizationModule.m_tolerance := 0.1%R;
     SimplexMinimizationModule.m_pca_module := "PSFSubtractionModule";
     SimplexMinimizationModule.m_pca_number := 1;
     SimplexMinimizationModule.m_mask := 0.1%R;
     SimplexMinimizationModule.m_extra_rot := 0%R |}.

Definition simplex_inputs : @SimplexMinimizationModule.inputs R R :=
  {| SimplexMinimizationModule.MEMORY := 1;
     SimplexMinimizationModule.PIXSCALE := 0.027%R;
     SimplexMinimizationModule.NEW_PARA := [0%R; 90%R];
     SimplexMinimizationModule.image_in := science_frames;
     SimplexMinimizationModule.psf_in := psf_frames |}.

(** The same minimization with a function of merit that the module does
    not know. *)
Definition unknown_merit_module : @SimplexMinimizationModule.t R :=
  {| SimplexMinimizationModule.m_position := (1%R, 0%R);
     SimplexMinimizationModule.m_magnitude := 5%R;
     SimplexMinimizationModule.m_psf_scaling := (-1)%R;
     SimplexMinimizationModule.m_merit := "variance";
     SimplexMinimizationModule.m_radius := 0.1%R;
     SimplexMinimizationModule.m_sigma := 0.027%R;
     SimplexMinimizationModule.m_tolerance := 0.1%R;
     SimplexMinimizationModule.m_pca_module := "PSFSubtractionModule";
     SimplexMinimizationModule.m_pca_number := 1;
     SimplexMinimizationModule.m_mask := 0.1%R;
     SimplexMinimizationModule.m_extra_rot := 0%R |}.

(** A search that evaluates its first guess three times and stops. *)
Definition three_trials (x0 : R * R * R) (evaluations : list (R * R * R * R))
  : option (R * R * R) :=
  if length evaluations <? 3 then Some x0 else None.

(** Two dither positions with two cubes per position; the first star cube
    is cube [f].  Seven cubes of one one-pixel frame each. *)
Definition pairs (f : nat) : PCABackgroundPreparationModule.t :=
  {| PCABackgroundPreparationModule.m_dither_positions := 2;
     PCABackgroundPreparationModule.m_cubes_per_position := 2;
     PCABackgroundPreparationModule.m_first_star_cube := f |}.

Definition seven_cubes : list Q := [1; 2; 3; 4; 6; 10; 20]%Q.


(** ** Predicates for the further properties *)

(** *** The list of time stamps *)

(** [x] is not later than [y]. *)
Definition time_le (x y : TimeStamps.TimeStamp) : Prop :=
  (TimeStamps.m_time x <= TimeStamps.m_time y)%Z.

(** The entries of time [t], in the order of the list. *)
Definition at_time (t : Z) (l : list TimeStamps.TimeStamp) : list TimeStamps.TimeStamp :=
  filter (fun x => TimeStamps.m_time x = t) l.

(** The entries of the science cubes with their positions in the list. *)
Definition science_positions (ts : list TimeStamps.TimeStamp)
  : list (nat * TimeStamps.TimeStamp) :=
  filter (fun p => TimeStamps.is_sky (snd p) = false) (imap (fun k x => (k, x)) ts).

(** [f] is the sky frame of position [idx] for the mode [m_mode]: the frame
    of the next choice, of the previous choice, or the half of their sum. *)
Definition sky_of_mode `{Image img} (ts : list TimeStamps.TimeStamp) (sky : list img)
    (m_mode : string) (idx : nat) (f : img) : Prop :=
  exists jp jn fp fn,
    previous_choice ts idx jp /\ frame_of ts sky jp fp
    /\ next_choice ts idx jn /\ frame_of ts sky jn fn
    /\ f = (if String.eqb m_mode "next" then fn
            else if String.eqb m_mode "previous" then fp
            else img_half (img_add fp fn)).

(** [block] holds the frames of the science cube at position [fst p] of
    [ts], each minus the sky frame of that position. *)
Definition cube_minus_sky `{Image img} (ts : list TimeStamps.TimeStamp)
    (sky science : list img) (m_mode : string)
    (p : nat * TimeStamps.TimeStamp) (block : list img) : Prop :=
  exists a b f,
    TimeStamps.m_index (snd p) = TimeStamps.IndexSlice a b
    /\ sky_of_mode ts sky m_mode (fst p) f
    /\ block = stack_sub (getslice science a b) f.

(** What a run of the sky subtraction leaves in the data base [db'], for
    the data base [db] before the run: the output tag holds the blocks, one
    after the other, and is unknown when no block was appended; every other
    tag holds what it held. *)
Definition output_holds {img : Type} (db db' : gmap string (list img))
    (image_out_tag : string) (blocks : list (list img)) : Prop :=
  db' !! image_out_tag
  = match blocks with
    | [] => None
    | _ :: _ => Some (concat blocks)
    end
  /\ forall tag, tag <> image_out_tag -> db' !! tag = db !! tag.

(** ** Inputs of the further examples *)

(** A night with two sky frames (exposures 1 and 4) and two science cubes
    of two frames each (exposures 2 and 3). *)
Definition night_sky_exp_no : list Z := [1; 4]%Z.
Definition night_science_exp_no : list Z := [2; 3]%Z.
Definition night_nframes : list nat := [2; 2].
Definition night_science : list Q := [4; 6; 1; 7]%Q.

(** The data base of that night: the sky frames, the science frames, and an
    output tag that holds one frame of an earlier run. *)
Definition night_db : gmap string (list Q) :=
  {[ "sky_arr"%string := nodding_sky;
     "im_arr"%string := night_science;
     "im_sub"%string := [1%Q] ]}.

(** The nodding module and the sky subtraction from [im_arr] to [im_sub]. *)
Definition night_module : NoddingRun.t :=
  {| NoddingRun.m_sky_in_tag := "sky_arr";
     NoddingRun.m_science_in_tag := "im_arr";
     NoddingRun.m_image_out_tag := "im_sub";
     NoddingRun.m_mode := "both" |}.

Definition night_sky_subtraction (m_mode : string) : SkySubtractionRun.t :=
  {| SkySubtractionRun.m_sky_in_tag := "sky_arr";
     SkySubtractionRun.m_science_in_tag := "im_arr";
     SkySubtractionRun.m_science_out_tag := "im_sub";
     SkySubtractionRun.m_mode := m_mode |}.

(** Two raw sky cubes of two and three one-pixel frames. *)
Definition raw_sky : list Q := [10; 12; 20; 22; 24]%Q.
Definition raw_sky_naxis3 : list nat := [2; 3].

(** *** The mean background of a block of frames *)

(** Block [i] of [s] frames, and the last block, which also takes the frames
    that are left over. *)
Definition block {img : Type} (frames : list img) (s i : nat) : list img :=
  getslice frames (i * s) ((i + 1) * s).

Definition last_block {img : Type} (frames : list img) (s : nat) : list img :=
  getslice frames ((length frames / s - 1) * s) (length frames).

(** The background of block [i] of a stack of at least [3 * s] frames: the
    mean of the second block for the first block, the mean of the block
    before for the last block, and for a block in between the half of the
    sum of the means of the two blocks around it. *)
Definition mean_background `{Image img} (frames : list img) (s i : nat) : img :=
  let top := length frames / s - 2 in
  if i =? 0 then img_mean (block frames s 1)
  else if i <? top then
    img_half (img_add (img_mean (block frames s (i + 1))) (img_mean (block frames s (i - 1))))
  else if i =? top then
    img_half (img_add (img_mean (block frames s (top - 1))) (img_mean (last_block frames s)))
  else img_mean (block frames s top).

(** The block of frame [j]. *)
Definition block_of (frames_length s j : nat) : nat :=
  Nat.min (j / s) (frames_length / s - 1).





(** *** The simple subtraction in place *)

(** [x] is input frame [i] minus the frame at the index [(i + shift) mod N]
    as the loop finds it when input and output share their tag: the output
    frame when that index is smaller than [i], the input frame otherwise. *)
Definition is_difference_in_place `{Image img} (self : SimpleBackgroundSubtractionModule.t)
    (frames out : list img) (i : nat) (x : img) : Prop :=
  let p := SimpleBackgroundSubtractionModule.partner self (length frames) i in
  exists a b,
    frames !! i = Some a
    /\ (if p <? i then out else frames) !! p = Some b
    /\ x = img_sub a b.

(** The simple subtraction with a shift of 1, which writes to its input tag,
    and a stack of three one-pixel frames. *)
Definition in_place_module : SimpleBackgroundSubtractionModule.t :=
  {| SimpleBackgroundSubtractionModule.m_star_prs_shift := 1;
     SimpleBackgroundSubtractionModule.m_image_in_tag := "im_arr";
     SimpleBackgroundSubtractionModule.m_image_out_tag := "im_arr" |}.

Definition fresh_module : SimpleBackgroundSubtractionModule.t :=
  {| SimpleBackgroundSubtractionModule.m_star_prs_shift := 1;
     SimpleBackgroundSubtractionModule.m_image_in_tag := "im_arr";
     SimpleBackgroundSubtractionModule.m_image_out_tag := "bg_cleaned_arr" |}.

Definition three_frames : gmap string (list Q) :=
  {[ "im_arr"%string := [1; 3; 10]%Q ]}.

(** What holds of the stack [cur] of the shared tag before frame [k] is
    processed: the frames from [k] on are the input frames, and the frames
    before [k] are differences. *)
Definition in_place_invariant `{Image img} (self : SimpleBackgroundSubtractionModule.t)
    (frames : list img) (k : nat) (cur : list img) : Prop :=
  length cur = length frames
  /\ (forall j, k <= j -> cur !! j = frames !! j)
  /\ forall i, i < k ->
       exists x, cur !! i = Some x /\ is_difference_in_place self frames cur i x.

(** *** The parallactic angles of the PCA preparation *)

(** What holds of the angles of the two outputs before cube [i]: an output
    that was never written has no angles, and each output has the angles of
    the frames of the cubes with its flag among the first [i] cubes. *)
Definition parang_invariant {img angle : Type}
    (parang : list angle) (nframes : list nat) (bg_frames : list bool)
    (i : nat) (v : @PCABackgroundPreparationModule.vars img angle) : Prop :=
  (PCABackgroundPreparationModule.star_init v = false ->
   PCABackgroundPreparationModule.star_parang v = [])
  /\ (PCABackgroundPreparationModule.background_init v = false ->
      PCABackgroundPreparationModule.background_parang v = [])
  /\ PCABackgroundPreparationModule.star_parang v
     = flat_map (cube_frames parang nframes) (cubes_flagged bg_frames false i)
  /\ PCABackgroundPreparationModule.background_parang v
     = flat_map (cube_frames parang nframes) (cubes_flagged bg_frames true i).

(** *** The masks of the PCA background subtraction *)

(** The pixel in column [x] and row [y] is within the radius of the
    position [pos]: the root of the squared distance, a double, is less
    than the radius. *)
Definition within_radius {D : Type} `{Double D} (x y : nat) (pos : Z * Z) (radius : D)
  : bool :=
  d_ltb (d_sqrt (d_of_int ((Z.of_nat x - fst pos) ^ 2 + (Z.of_nat y - snd pos) ^ 2)%Z))
        radius.

(** The mask of a square image of [n] by [n] pixels that is 0 within the
    radius of the centre and 1 elsewhere. *)
Definition disk_image {D : Type} `{Double D} (n : nat) (cent_x cent_y : Z)
    (mask_radius : D) : list (list Q) :=
  map (fun r =>
         map (fun c => if within_radius c r (cent_x, cent_y) mask_radius then 0%Q else 1%Q)
             (seq 0 n))
      (seq 0 n).

(** The masks of the frames of an "exact" chunk, one per star position. *)
Definition exact_masks {D : Type} `{Double D} (n : nat) (mask_radius : D)
    (positions : list (Z * Z)) : list (list (list Q)) :=
  map (fun pos => disk_image n (fst pos) (snd pos) mask_radius) positions.

(** PCA background subtraction with one mask per frame. *)
Definition pca_exact_module : @PCABackgroundSubtractionModule.t PrimFloat.float :=
  {| PCABackgroundSubtractionModule.m_pca_number := 2;
     PCABackgroundSubtractionModule.m_mask_radius := Binary64.of_Q 0.75;
     PCABackgroundSubtractionModule.m_mask_position := "exact" |}.

(** A mask of 1.8 arcsec on frames of 13 by 13 pixels with 0.3 arcsec per
    pixel, the star at (6, 6) in both frames. *)
Definition pca_wide_module : @PCABackgroundSubtractionModule.t PrimFloat.float :=
  {| PCABackgroundSubtractionModule.m_pca_number := 2;
     PCABackgroundSubtractionModule.m_mask_radius := Binary64.of_Q 1.8;
     PCABackgroundSubtractionModule.m_mask_position := "exact" |}.

Definition centred_positions : list (Z * Z) := [(6, 6); (6, 6)]%Z.

(** *** Simplex minimization *)

(** The simplex minimization of the examples with a function of merit, and
    with a PSF subtraction module, that the module does not know. *)
Definition chi2_module : @SimplexMinimizationModule.t R :=
  {| SimplexMinimizationModule.m_position := (1%R, 0%R);
     SimplexMinimizationModule.m_magnitude := 5%R;
     SimplexMinimizationModule.m_psf_scaling := (-1)%R;
     SimplexMinimizationModule.m_merit := "chi2";
     SimplexMinimizationModule.m_radius := 0.1%R;
     SimplexMinimizationModule.m_sigma := 0.027%R;
     SimplexMinimizationModule.m_tolerance := 0.1%R;
     SimplexMinimizationModule.m_pca_module := "PSFSubtractionModule";
     SimplexMinimizationModule.m_pca_number := 1;
     SimplexMinimizationModule.m_mask := 0.1%R;
     SimplexMinimizationModule.m_extra_rot := 0%R |}.

(** The ports before the first evaluation. *)
Definition empty_ports {F img : Type} : @SimplexMinimizationModule.ports F img :=
  {| SimplexMinimizationModule.m_res_out := [];
     SimplexMinimizationModule.m_flux_position := [] |}.

(** *** The window of the alignment *)

(** The pixel in row [r] and column [c] of an image given as a list of rows. *)
Definition pixel_at {A : Type} (image : list (list A)) (r c : nat) : option A :=
  row ← image !! r; row !! c.

(** An image of four rows and four columns. *)
Definition small_image : list (list Z) :=
  [[11; 12; 13; 14]; [21; 22; 23; 24]; [31; 32; 33; 34]; [41; 42; 43; 44]]%Z.

(** *** The dithering module *)

(** Two dither positions with two cubes per position, and a cut that leaves
    the seven cubes of one frame each. *)
Definition dither_pairs : PCABackgroundDitheringModule.t :=
  {| PCABackgroundDitheringModule.m_center := [(50, 50); (150, 50)]%Z;
     PCABackgroundDitheringModule.m_cubes_per_position := 2 |}.

Definition seven_cut (position : Z * Z)
  : result (@PCABackgroundDitheringModule.cut_t Q Q) :=
  Ok {| PCABackgroundDitheringModule.cut_NEW_PARA := Some seven_cubes;
        PCABackgroundDitheringModule.cut_NFRAMES := [1; 1; 1; 1; 1; 1; 1];
        PCABackgroundDitheringModule.cut_shape := (1, 1);
        PCABackgroundDitheringModule.cut_frames := seven_cubes |}.
(** * Properties *)

(** ** Construction of the nodding and sky modules *)

(** C7, as stated, fails for [SkySubtraction]: a mode outside the three is
    accepted and silently replaced by the mode next. *)
Lemma C7_sky_subtraction_substitutes_default :
  ("nearest"%string ∉ ["next"; "previous"; "both"]%string)
  /\ SkySubtraction.__init__ "nearest" = Ok "next"%string.
Proof. split; [by apply (bool_decide_unpack _) | reflexivity]. Qed.

(** C7, amended: constructing a [NoddingBackgroundModule] with a mode
    outside next, previous, both raises the [ValueError] of the constructor,
    and no mode is set; constructing a [SkySubtraction] with such a mode
    raises nothing and sets the mode next. *)
Theorem C7_mode_outside_the_three (mode : string) :
  mode ∉ ["next"; "previous"; "both"]%string ->
  NoddingBackgroundModule.__init__ mode = Raise NoddingBackgroundModule.bad_mode
  /\ SkySubtraction.__init__ mode = Ok "next"%string.
Proof.
  intros Hmode.
  unfold NoddingBackgroundModule.__init__, SkySubtraction.__init__.
  by rewrite bool_decide_eq_false_2.
Qed.

Lemma C7_mode_outside_the_three_witness :
  ("nearest"%string ∉ ["next"; "previous"; "both"]%string)
  /\ (NoddingBackgroundModule.__init__ "nearest"
      = Raise NoddingBackgroundModule.bad_mode
      /\ SkySubtraction.__init__ "nearest" = Ok "next"%string).
Proof.
  split.
  - by apply (bool_decide_unpack _).
  - apply (C7_mode_outside_the_three "nearest"). by apply (bool_decide_unpack _).
Defined.

(** ** The flags of star and background cubes *)

Lemma elem_of_range_from (step fuel start stop k : nat) :
  0 < step -> stop <= start + fuel ->
  k ∈ range_from fuel start stop step <->
  (exists m, k = start + m * step) /\ k < stop.
Proof.
  intros Hstep. revert start.
  induction fuel as [|fuel IH]; intros start Hfuel; simpl.
  - rewrite elem_of_nil. split; [done|]. intros [[m ->] Hk]. lia.
  - destruct (Nat.ltb_spec start stop) as [Hlt|Hge].
    + rewrite elem_of_cons, IH by lia. split.
      * intros [-> | [[m ->] Hk]].
        -- split; [exists 0; lia | done].
        -- split; [exists (S m); lia | done].
      * intros [[m ->] Hk]. destruct m as [|m].
        -- left. lia.
        -- right. split; [exists m; lia | done].
    + rewrite elem_of_nil. split; [done|]. intros [[m ->] Hk]. lia.
Qed.

Lemma lookup_clear_ranges (c : nat) (indices : list nat) (flags : list bool) (i : nat) :
  foldl (fun bg_frames k => PCABackgroundPreparationModule.clear_range bg_frames k c)
        flags indices !! i
  = (fun b => b && negb (existsb (fun k => (k <=? i) && (i <? k + c)) indices))
      <$> flags !! i.
Proof.
  revert flags. induction indices as [|k rest IH]; intros flags; simpl.
  - destruct (flags !! i) as [b|]; simpl; [by rewrite andb_true_r | done].
  - rewrite IH. unfold PCABackgroundPreparationModule.clear_range.
    rewrite list_lookup_imap.
    destruct (flags !! i) as [b|]; simpl; [|done].
    f_equal. by destruct ((k <=? i) && (i <? k + c)), b.
Qed.

Lemma length_clear_ranges (c : nat) (indices : list nat) (flags : list bool) :
  length (foldl (fun bg_frames k => PCABackgroundPreparationModule.clear_range bg_frames k c)
                flags indices)
  = length flags.
Proof.
  revert flags. induction indices as [|k rest IH]; intros flags; simpl; [done|].
  rewrite IH. unfold PCABackgroundPreparationModule.clear_range. apply length_imap.
Qed.

Lemma flag_cubes_lookup (self : PCABackgroundPreparationModule.t) (size_nframes i : nat) :
  let c := PCABackgroundPreparationModule.m_cubes_per_position self in
  let d := PCABackgroundPreparationModule.m_dither_positions self in
  let f := PCABackgroundPreparationModule.m_first_star_cube self in
  0 < c * d ->
  i < size_nframes ->
  exists bg_frames,
    PCABackgroundPreparationModule.flag_cubes self size_nframes = Ok bg_frames
    /\ length bg_frames = size_nframes
    /\ bg_frames !! i = Some (negb ((f <=? i) && ((i - f) mod (c * d) <? c))).
Proof.
  intros c d f Hstep Hi. unfold PCABackgroundPreparationModule.flag_cubes, py_range.
  fold c d f.
  assert (Hc : c <= c * d).
  { destruct d as [|d']; [lia|]. rewrite Nat.mul_succ_r. lia. }
  generalize dependent (c * d). intros p Hstep Hc. clearbody c f. clear d.
  destruct (Nat.eqb_spec p 0) as [?|_]; [lia|]. simpl.
  eexists. split; [reflexivity|]. split.
  { by rewrite length_clear_ranges, length_replicate. }
  rewrite lookup_clear_ranges, lookup_replicate_2 by done. simpl. f_equal. f_equal.
  apply eq_true_iff_eq. rewrite existsb_exists, andb_true_iff.
  rewrite Nat.leb_le, Nat.ltb_lt. split.
  - intros (k & Hk & Hr).
    apply list_elem_of_In, elem_of_range_from in Hk as [[m ->] Hn]; [|done|lia].
    apply andb_true_iff in Hr as [H1%Nat.leb_le H2%Nat.ltb_lt].
    split; [lia|].
    replace (i - f) with ((i - f - m * p) + m * p) by lia.
    rewrite Nat.Div0.mod_add. rewrite Nat.mod_small; lia.
  - intros [Hf Hr]. exists (f + (i - f) / p * p). split.
    + apply list_elem_of_In, elem_of_range_from; [done|lia|].
      split; [eauto|]. pose proof (Nat.Div0.div_mod (i - f) p). nia.
    + pose proof (Nat.Div0.div_mod (i - f) p).
      apply andb_true_iff. rewrite Nat.leb_le, Nat.ltb_lt. nia.
Qed.

(** C3, as stated, fails before the first star cube: with two dither
    positions, one cube per position and the first star cube at index 2, cube
    0 is flagged as background although [(0 - 2) mod (1 * 2) < 1]. *)
Lemma C3_cube_before_first_star_cube :
  PCABackgroundPreparationModule.flag_cubes
    {| PCABackgroundPreparationModule.m_dither_positions := 2;
       PCABackgroundPreparationModule.m_cubes_per_position := 1;
       PCABackgroundPreparationModule.m_first_star_cube := 2 |} 3
  = Ok [true; true; false]
  /\ ((Z.of_nat 0 - Z.of_nat 2) mod (Z.of_nat 1 * Z.of_nat 2) < Z.of_nat 1)%Z.
Proof. split; [reflexivity | by vm_compute]. Qed.

(** C3, amended: for every cube index [i] of the sequence, cube [i] is
    flagged as a star cube exactly when [i] is not before the first star cube
    [f] and [(i - f) mod (c * d) < c], and as a background cube otherwise;
    [d] is the number of dither positions, [c] the number of cubes per
    position (so [c * d] is positive). *)
Theorem C3_star_cube_flags (self : PCABackgroundPreparationModule.t)
    (size_nframes i : nat) :
  let c := PCABackgroundPreparationModule.m_cubes_per_position self in
  let d := PCABackgroundPreparationModule.m_dither_positions self in
  let f := PCABackgroundPreparationModule.m_first_star_cube self in
  0 < c * d ->
  i < size_nframes ->
  exists bg_frames,
    PCABackgroundPreparationModule.flag_cubes self size_nframes = Ok bg_frames
    /\ (bg_frames !! i = Some false <-> f <= i /\ (i - f) mod (c * d) < c)
    /\ (bg_frames !! i = Some true <-> ~ (f <= i /\ (i - f) mod (c * d) < c)).
Proof.
  intros c d f Hstep Hi.
  destruct (flag_cubes_lookup self size_nframes i Hstep Hi) as (bg & Hrun & _ & Hlook).
  exists bg. split; [done|]. rewrite Hlook. fold c d f.
  destruct (Nat.leb_spec f i), (Nat.ltb_spec ((i - f) mod (c * d)) c); simpl;
    split; split; try done; try lia; intros []; lia.
Qed.

Lemma C3_star_cube_flags_witness :
  exists bg_frames,
    PCABackgroundPreparationModule.flag_cubes
      {| PCABackgroundPreparationModule.m_dither_positions := 2;
         PCABackgroundPreparationModule.m_cubes_per_position := 2;
         PCABackgroundPreparationModule.m_first_star_cube := 1 |} 8
    = Ok bg_frames
    /\ (bg_frames !! 5 = Some false <-> 1 <= 5 /\ (5 - 1) mod (2 * 2) < 2)
    /\ (bg_frames !! 5 = Some true <-> ~ (1 <= 5 /\ (5 - 1) mod (2 * 2) < 2)).
Proof.
  apply (C3_star_cube_flags
           {| PCABackgroundPreparationModule.m_dither_positions := 2;
              PCABackgroundPreparationModule.m_cubes_per_position := 2;
              PCABackgroundPreparationModule.m_first_star_cube := 1 |} 8 5);
    simpl; lia.
Defined.

(** ** Reads through a port *)

Lemma read_known {img : Type} (tag : string) (i : nat) (db : gmap string (list img))
    (frames : list img) :
  db !! tag = Some frames -> DataBase.read tag i db = getitem frames i.
Proof. intros Hdb. unfold DataBase.read, DataBase.stack. by rewrite Hdb. Qed.

Lemma read_unknown {img : Type} (tag : string) (i : nat) (db : gmap string (list img)) :
  db !! tag = None -> DataBase.read tag i db = Raise (NotFoundError tag).
Proof. intros Hdb. unfold DataBase.read, DataBase.stack. by rewrite Hdb. Qed.

(** ** Simple background subtraction *)

Section Simple.
Context {img : Type} `{Image img}.
Import SimpleBackgroundSubtractionModule.

Lemma partner_lt (self : t) (n i : nat) : 0 < n -> partner self n i < n.
Proof.
  intros Hn. unfold partner.
  pose proof (Z.mod_pos_bound (Z.of_nat i + m_star_prs_shift self) (Z.of_nat n)).
  lia.
Qed.

Lemma difference_ok (self : t) (db : gmap string (list img)) (frames : list img) (i : nat) :
  db !! m_image_in_tag self = Some frames ->
  i < length frames ->
  exists x, difference self (length frames) i db = Ok x /\ is_difference self frames i x.
Proof.
  intros Hdb Hi. unfold difference. rewrite !(read_known _ _ _ _ Hdb). unfold getitem.
  destruct (lookup_lt_is_Some_2 frames i Hi) as [a Ha].
  destruct (lookup_lt_is_Some_2 frames (partner self (length frames) i)) as [b Hb].
  { apply partner_lt. lia. }
  rewrite Ha. simpl. rewrite Hb. simpl.
  exists (img_sub a b). split; [done|]. by exists a, b.
Qed.

(** The loop over the remaining frames when the output tag is not the input
    tag: every difference is taken from the untouched input. *)
Lemma for_db_fresh (self : t) (frames : list img) (indices : list nat)
    (db : gmap string (list img)) (acc : list img) :
  m_image_in_tag self <> m_image_out_tag self ->
  db !! m_image_in_tag self = Some frames ->
  db !! m_image_out_tag self = Some acc ->
  Forall (fun i => i < length frames) indices ->
  exists l,
    Forall2 (is_difference self frames) indices l
    /\ for_db (fun i db =>
                 match difference self (length frames) i db with
                 | Raise e => (Raise e, db)
                 | Ok tmp_res =>
                     (Ok tt, DataBase.append (m_image_out_tag self) [tmp_res] db)
                 end) indices db
       = (Ok tt, <[m_image_out_tag self := acc ++ l]> db).
Proof.
  intros Hne. revert db acc.
  induction indices as [|i rest IH]; intros db acc Hin Hout Hall; simpl.
  - exists []. split; [constructor|]. by rewrite app_nil_r, insert_id.
  - apply Forall_cons in Hall as [Hi Hrest].
    destruct (difference_ok self db frames i Hin Hi) as (x & -> & Hx).
    destruct (IH (DataBase.append (m_image_out_tag self) [x] db) (acc ++ [x]))
      as (l & Hl & ->); [| |done|].
    + unfold DataBase.append. by rewrite lookup_insert_ne.
    + unfold DataBase.append, DataBase.get_all. rewrite Hout. simpl.
      by rewrite lookup_insert_eq.
    + exists (x :: l). split; [by constructor|].
      unfold DataBase.append. rewrite insert_insert_eq. by rewrite <- app_assoc.
Qed.

(** With an output tag of its own the run does what C5 says: output frame
    [i] is input frame [i] minus input frame [(i + shift) mod N]. *)
Lemma run_fresh_output_tag (self : t) (db : gmap string (list img)) (frames : list img) :
  m_image_in_tag self <> m_image_out_tag self ->
  db !! m_image_in_tag self = Some frames ->
  0 < length frames ->
  exists out,
    run self db = (Ok tt, <[m_image_out_tag self := out]> db)
    /\ length out = length frames
    /\ forall i, i < length frames ->
         exists x, out !! i = Some x /\ is_difference self frames i x.
Proof.
  intros Hne Hin Hn. unfold run.
  assert (Hshape : DataBase.get_shape0 (m_image_in_tag self) db = length frames).
  { unfold DataBase.get_shape0, DataBase.get_all. by rewrite Hin. }
  rewrite Hshape.
  destruct (difference_ok self db frames 0 Hin Hn) as (x & -> & Hx).
  apply String.eqb_neq in Hne as Hneb. rewrite Hneb.
  destruct (for_db_fresh self frames (seq 1 (length frames - 1))
              (DataBase.set_all (m_image_out_tag self) [x] db) [x])
    as (l & Hl & Hrun).
  - done.
  - unfold DataBase.set_all. by rewrite lookup_insert_ne.
  - unfold DataBase.set_all. by rewrite lookup_insert_eq.
  - apply Forall_forall. intros i Hi%elem_of_seq. lia.
  - rewrite Hrun. unfold DataBase.set_all.
    rewrite insert_insert_eq. exists (x :: l).
    assert (Hall : Forall2 (is_difference self frames) (seq 0 (length frames)) (x :: l)).
    { replace (length frames) with (S (length frames - 1)) at 1 by lia.
      simpl. by constructor. }
    split; [done|]. split.
    + apply Forall2_length in Hall. by rewrite length_seq in Hall.
    + intros i Hi.
      destruct (Forall2_lookup_l _ _ _ i i Hall) as (y & Hy & Hd).
      { by apply lookup_seq_lt. }
      by exists y.
Qed.

End Simple.

(** C5 on a stack of three one-pixel frames 1, 3, 10 with a shift of 1 and
    the output tag equal to the input tag: frame 0 is overwritten with
    [1 - 3] before frame 2 is processed, so the run writes
    [10 - (1 - 3)] as frame 2, and that is not input frame 2 minus input
    frame [(2 + 1) mod 3]. *)
Theorem C5_in_place_subtracts_overwritten_frame :
  SimpleBackgroundSubtractionModule.run (H := QPixel.image)
    {| SimpleBackgroundSubtractionModule.m_star_prs_shift := 1;
       SimpleBackgroundSubtractionModule.m_image_in_tag := "im_arr";
       SimpleBackgroundSubtractionModule.m_image_out_tag := "im_arr" |}
    {[ "im_arr"%string := [1; 3; 10]%Q ]}
  = (Ok tt, {[ "im_arr"%string := [1 - 3; 3 - 10; 10 - (1 - 3)]%Q ]})
  /\ ~ (10 - (1 - 3) == 10 - 1)%Q.
Proof. split; [reflexivity | by vm_compute]. Qed.

(** ** Mean background subtraction: the check of the frame count *)

(** C8: with a manual, scalar [star_pos_shift] [s], a stack of fewer than
    [2 * s] frames makes [run] raise the [ValueError] of the frame count,
    and the data base (so the output tag) is as it was before the run; with
    at least [2 * s] frames [run] raises no [ValueError]. *)
Theorem C8_frame_count_check {img : Type} `{Image img}
    (self : MeanBackgroundSubtractionModule.t) (s : nat) (NFRAMES : list nat)
    (db : gmap string (list img)) :
  MeanBackgroundSubtractionModule.m_star_prs_shift self
  = MeanBackgroundSubtractionModule.ShiftInt s ->
  (DataBase.get_shape0 (MeanBackgroundSubtractionModule.m_image_in_tag self) db < 2 * s ->
   MeanBackgroundSubtractionModule.run self NFRAMES db
   = (Raise MeanBackgroundSubtractionModule.too_small, db))
  /\ (2 * s <= DataBase.get_shape0 (MeanBackgroundSubtractionModule.m_image_in_tag self) db ->
      forall msg,
        fst (MeanBackgroundSubtractionModule.run self NFRAMES db) <> Raise (ValueError msg)).
Proof.
  intros Hs.
  unfold MeanBackgroundSubtractionModule.run, MeanBackgroundSubtractionModule.run_scalar.
  rewrite Hs. split.
  - intros Hlt. apply Nat.ltb_lt in Hlt. by rewrite Hlt.
  - intros Hge msg. apply Nat.ltb_ge in Hge. rewrite Hge.
    destruct (s =? 0) eqn:Hs0; [done|].
    unfold DataBase.read, DataBase.stack, getitem.
    destruct (db !! _) as [frames|]; simpl; [|done].
    destruct (frames !! 0) as [first|]; [|done].
    by destruct (String.eqb _ _).
Qed.

Lemma C8_frame_count_check_witness :
  MeanBackgroundSubtractionModule.run (H := QPixel.image) (mean_module 3) [] four_frames
  = (Raise MeanBackgroundSubtractionModule.too_small, four_frames)
  /\ forall msg,
       fst (MeanBackgroundSubtractionModule.run (H := QPixel.image)
              (mean_module 1) [] four_frames)
       <> Raise (ValueError msg).
Proof.
  split.
  - apply (C8_frame_count_check (H := QPixel.image) (mean_module 3) 3 [] four_frames);
      [reflexivity | vm_compute; lia].
  - apply (C8_frame_count_check (H := QPixel.image) (mean_module 1) 1 [] four_frames);
      [reflexivity | vm_compute; lia].
Defined.

(** ** The sky frame of a science entry *)

Section Sky.
Context {img : Type} `{Image img}.
Variable ts : list TimeStamps.TimeStamp.
Variable sky : list img.
Hypothesis Hindexed : sky_entries_indexed ts sky.

Lemma not_sky_at (k : nat) (x : TimeStamps.TimeStamp) :
  ts !! k = Some x -> TimeStamps.is_sky x = false -> ~ sky_at ts k.
Proof. intros Hk Hx (y & Hy & Hs). congruence. Qed.

(** The forward scan over [idx, idx + n). *)
Lemma scan_forward (n idx : nat) :
  idx + n <= length ts ->
  (TimeStamps.scan ts sky (seq idx n) = Ok None
   /\ forall k, idx <= k < idx + n -> ~ sky_at ts k)
  \/ (exists j frame,
        j < idx + n /\ first_sky_from ts idx j /\ frame_of ts sky j frame
        /\ TimeStamps.scan ts sky (seq idx n) = Ok (Some frame)).
Proof.
  revert idx. induction n as [|n IH]; intros idx Hlen; simpl.
  - left. split; [done|]. intros k Hk. lia.
  - destruct (lookup_lt_is_Some_2 ts idx) as [x Hx]; [lia|].
    unfold getitem. rewrite Hx. simpl.
    destruct (TimeStamps.is_sky x) eqn:Hsky.
    + right. destruct (Hindexed idx x Hx Hsky) as (i & frame & Hi & Hf).
      exists idx, frame. split; [lia|]. split; [|split].
      * split; [lia|]. split; [by exists x|]. intros k Hk. lia.
      * by exists x, i.
      * unfold TimeStamps.sky_frame, getitem. by rewrite Hi, Hf.
    + destruct (IH (S idx)) as [[Hnone Hno] | (j & frame & Hj & Hfirst & Hframe & Hscan)];
        [lia| |].
      * left. split; [done|]. intros k Hk.
        destruct (decide (k = idx)) as [->|]; [by eapply not_sky_at|apply Hno; lia].
      * right. exists j, frame. split; [lia|]. split; [|done].
        destruct Hfirst as (Hle & Hat & Hbefore).
        split; [lia|]. split; [done|]. intros k Hk.
        destruct (decide (k = idx)) as [->|]; [by eapply not_sky_at|apply Hbefore; lia].
Qed.

(** The backward scan from [n - 1] down to 0. *)
Lemma scan_backward (n : nat) :
  n <= length ts ->
  (TimeStamps.scan ts sky (rev (seq 0 n)) = Ok None /\ no_sky_before ts n)
  \/ (exists j frame,
        last_sky_before ts n j /\ frame_of ts sky j frame
        /\ TimeStamps.scan ts sky (rev (seq 0 n)) = Ok (Some frame)).
Proof.
  induction n as [|n IH]; intros Hlen.
  - left. split; [done|]. intros k Hk. lia.
  - rewrite seq_S, rev_app_distr. simpl.
    destruct (lookup_lt_is_Some_2 ts n) as [x Hx]; [lia|].
    unfold getitem. rewrite Hx. simpl.
    destruct (TimeStamps.is_sky x) eqn:Hsky.
    + right. destruct (Hindexed n x Hx Hsky) as (i & frame & Hi & Hf).
      exists n, frame. split; [|split].
      * split; [lia|]. split; [by exists x|]. intros k Hk. lia.
      * by exists x, i.
      * unfold TimeStamps.sky_frame, getitem. by rewrite Hi, Hf.
    + destruct IH as [[Hnone Hno] | (j & frame & Hlast & Hframe & Hscan)]; [lia| |].
      * left. split; [done|]. intros k Hk.
        destruct (decide (k = n)) as [->|]; [by eapply not_sky_at|apply Hno; lia].
      * right. exists j, frame. split; [|done].
        destruct Hlast as (Hlt & Hat & Hafter).
        split; [lia|]. split; [done|]. intros k Hk.
        destruct (decide (k = n)) as [->|]; [by eapply not_sky_at|apply Hafter; lia].
Qed.

Lemma sky_at_lt (j : nat) : sky_at ts j -> j < length ts.
Proof. intros (x & Hx & _). by eapply lookup_lt_Some. Qed.

Lemma has_sky : existsb TimeStamps.is_sky ts = true -> exists j, sky_at ts j.
Proof.
  intros (x & Hin & Hx)%existsb_exists.
  apply list_elem_of_In, list_elem_of_lookup in Hin as [j Hj].
  exists j. by exists x.
Qed.

Lemma last_sky_before_unique (idx j1 j2 : nat) :
  last_sky_before ts idx j1 -> last_sky_before ts idx j2 -> j1 = j2.
Proof.
  intros (H1 & Hs1 & Hn1) (H2 & Hs2 & Hn2).
  destruct (Nat.lt_trichotomy j1 j2) as [Hlt|[->|Hgt]]; [|done|].
  - destruct (Hn1 j2); [lia|done].
  - destruct (Hn2 j1); [lia|done].
Qed.

Lemma first_sky_from_unique (idx j1 j2 : nat) :
  first_sky_from ts idx j1 -> first_sky_from ts idx j2 -> j1 = j2.
Proof.
  intros (H1 & Hs1 & Hn1) (H2 & Hs2 & Hn2).
  destruct (Nat.lt_trichotomy j1 j2) as [Hlt|[->|Hgt]]; [|done|].
  - destruct (Hn2 j1); [lia|done].
  - destruct (Hn1 j2); [lia|done].
Qed.

Lemma search_next (idx depth : nat) :
  existsb TimeStamps.is_sky ts = true -> idx <= length ts ->
  exists j frame,
    next_choice ts idx j /\ frame_of ts sky j frame
    /\ TimeStamps.search_for_next_sky ts sky idx (S (S depth)) = Ok frame.
Proof.
  intros Hsky Hidx. simpl.
  destruct (scan_forward (length ts - idx) idx) as
    [[-> Hno] | (j & frame & Hj & Hfirst & Hframe & ->)]; [lia| |]; simpl.
  - destruct (scan_backward idx Hidx) as [[-> Hnob] | (j & frame & Hlast & Hframe & ->)]; simpl.
    + destruct (has_sky Hsky) as [j Hj]. pose proof (sky_at_lt j Hj).
      destruct (Nat.lt_ge_cases j idx); [by destruct (Hnob j)|].
      destruct (Hno j); [lia|done].
    + exists j, frame. split; [|done]. right. split; [|done].
      intros k Hk Hat. pose proof (sky_at_lt k Hat). destruct (Hno k); [lia|done].
  - exists j, frame. split; [by left|done].
Qed.

Lemma search_previous (idx depth : nat) :
  existsb TimeStamps.is_sky ts = true -> idx <= length ts ->
  exists j frame,
    previous_choice ts idx j /\ frame_of ts sky j frame
    /\ TimeStamps.search_for_previous_sky ts sky idx (S (S depth)) = Ok frame.
Proof.
  intros Hsky Hidx. simpl.
  destruct (scan_backward idx Hidx) as [[-> Hnob] | (j & frame & Hlast & Hframe & ->)]; simpl.
  - destruct (scan_forward (length ts - idx) idx) as
      [[-> Hno] | (j & frame & Hj & Hfirst & Hframe & ->)]; [lia| |]; simpl.
    + destruct (has_sky Hsky) as [j Hj]. pose proof (sky_at_lt j Hj).
      destruct (Nat.lt_ge_cases j idx); [by destruct (Hnob j)|].
      destruct (Hno j); [lia|done].
    + exists j, frame. split; [by right|done].
  - exists j, frame. split; [by left|done].
Qed.

Lemma calc_resolves (idx depth : nat) :
  existsb TimeStamps.is_sky ts = true -> idx <= length ts ->
  resolves_sky ts sky (@TimeStamps.calc_sky_frame img _) idx (S (S depth)).
Proof.
  intros Hsky Hidx.
  destruct (search_previous idx depth Hsky Hidx) as (jp & fp & Hp & Hfp & Hsp).
  destruct (search_next idx depth Hsky Hidx) as (jn & fn & Hn & Hfn & Hsn).
  exists jp, jn, fp, fn. unfold TimeStamps.calc_sky_frame.
  rewrite Hsky, Hsp, Hsn. simpl. repeat (split; [done|]).
  intros [Hno | Hno].
  - destruct Hn as [(Hle & Hat & _) | [_ Hlast]]; [by destruct (Hno jn)|].
    destruct Hp as [Hlast' | [Hnob _]]; [by eapply last_sky_before_unique|].
    destruct Hlast as (Hlt & Hat & _). by destruct (Hnob jn).
  - destruct Hp as [(Hlt & Hat & _) | [_ Hfirst]]; [by destruct (Hno jp)|].
    destruct Hn as [Hfirst' | [Hnof _]]; [by eapply first_sky_from_unique|].
    destruct Hfirst as (Hle & Hat & _). by destruct (Hnof jp).
Qed.

End Sky.

(** C6: for the position [idx] of a science entry in the sorted sequence,
    with at least one sky entry present, [calc_sky_frame] of
    [NoddingBackgroundModule] and of [SkySubtraction] returns: in mode next
    the frame of the first sky entry at or after [idx], or of the nearest
    previous one when no later one exists; in mode previous the frame of the
    nearest sky entry before [idx], or of the first later one when none
    exists; in mode both the elementwise average of these two frames, which
    are the same frame when sky entries exist on one side only. *)
Theorem C6_calc_sky_frame {img : Type} `{Image img}
    (m_time_stamps : list TimeStamps.TimeStamp) (m_sky_in_port : list img)
    (idx depth : nat) :
  existsb TimeStamps.is_sky m_time_stamps = true ->
  (exists x, m_time_stamps !! idx = Some x
             /\ TimeStamps.m_sky_or_science x = "SCIENCE"%string) ->
  sky_entries_indexed m_time_stamps m_sky_in_port ->
  2 <= depth ->
  resolves_sky m_time_stamps m_sky_in_port
    (@NoddingBackgroundModule.calc_sky_frame img _) idx depth
  /\ resolves_sky m_time_stamps m_sky_in_port
       (@SkySubtraction.calc_sky_frame img _) idx depth.
Proof.
  intros Hsky (x & Hx & _) Hindexed Hdepth.
  apply lookup_lt_Some in Hx.
  destruct depth as [|[|depth]]; [lia|lia|].
  split; apply calc_resolves; (done || lia).
Qed.

Lemma C6_calc_sky_frame_witness :
  resolves_sky (H := QPixel.image) nodding_time_stamps nodding_sky
    (@NoddingBackgroundModule.calc_sky_frame Q QPixel.image) 1 1000
  /\ resolves_sky (H := QPixel.image) nodding_time_stamps nodding_sky
       (@SkySubtraction.calc_sky_frame Q QPixel.image) 1 1000.
Proof.
  apply (C6_calc_sky_frame (H := QPixel.image) nodding_time_stamps nodding_sky 1 1000).
  - reflexivity.
  - eexists. split; reflexivity.
  - intros [|[|[|[|j]]]] x Hx Hs; unfold nodding_time_stamps in Hx; simpl in Hx;
      simplify_eq; try discriminate Hs.
    + by exists 0, 10%Q.
    + by exists 1, 20%Q.
  - lia.
Defined.

(** ** PCA background subtraction: the mask of the mean position *)

(** C4 on five frames fitted in chunks of three.  The centre of the mask is
    taken from the first two rows of the positions ([int] of the mean of
    [(x0, y0)] and of [(x1, y1)]), here (4, 4), not from the mean position
    (2.4, 6.4): the pixel (2, 6), which is within the radius of 1.5 pixels
    of the mean position, keeps the value 1.  And the last chunk, frames 3
    and 4, is multiplied by a mask that is made again from the positions of
    that chunk, here centred at (5, 5). *)
Theorem C4_mean_mask_off_centre_and_remade :
  exists mask remainder_mask,
    PCABackgroundSubtractionModule.run_masks (H := Binary64.double) pca_mean_module 3
      (Binary64.of_Q 0.5) five_star_positions (8, 8) 5
    = Ok [(0, 3, PCABackgroundSubtractionModule.Mask2D mask);
          (3, 5, PCABackgroundSubtractionModule.Mask2D remainder_mask)]
    /\ mask <> remainder_mask
    /\ (distance2 2 6 (mean_position five_star_positions) < 1.5 * 1.5)%Q
    /\ pixel mask 2 6 = Some 1%Q
    /\ (1.5 * 1.5 <= distance2 4 4 (mean_position five_star_positions))%Q
    /\ pixel mask 4 4 = Some 0%Q.
Proof.
  eexists _, _. split; [vm_compute; reflexivity|].
  split; [discriminate|].
  repeat split; by vm_compute.
Qed.

(** ** PCA background preparation *)

Section Preparation.
Context {img : Type} `{Image img} {angle : Type}.
Import PCABackgroundPreparationModule.

Variable frames : list img.
Variable parang : list angle.
Variable NFRAMES : list nat.
Variable bg_frames : list bool.

Local Abbreviation cube_mean := (cube_means frames NFRAMES 0).
Local Abbreviation size := (length NFRAMES).

Lemma cube_start_S (k item : nat) :
  NFRAMES !! k = Some item -> cube_start NFRAMES (S k) = cube_start NFRAMES k + item.
Proof.
  intros Hk. unfold cube_start. rewrite (take_S_r _ _ _ Hk), sum_list_with_app. simpl. lia.
Qed.

Lemma cube_means_lookup_from (nframes : list nat) (count k : nat) :
  k < length nframes ->
  cube_means frames nframes count !! k
  = Some (img_mean (getslice frames (count + cube_start nframes k)
                                    (count + cube_start nframes (S k)))).
Proof.
  revert count k. induction nframes as [|item rest IH]; intros count k Hk; simpl in *.
  - lia.
  - destruct k as [|k]; simpl.
    + unfold cube_start. simpl. do 3 f_equal; lia.
    + rewrite IH by lia. unfold cube_start. simpl. do 3 f_equal; lia.
Qed.

Lemma cube_mean_lookup (k : nat) :
  k < size -> cube_mean !! k = Some (img_mean (cube_frames frames NFRAMES k)).
Proof. intros Hk. by rewrite cube_means_lookup_from. Qed.

Lemma loop_app (i : nat) (l1 l2 : list nat) (v : vars) :
  loop frames parang size cube_mean bg_frames i (l1 ++ l2) v
  = loop frames parang size cube_mean bg_frames i l1 v
      ≫= loop frames parang size cube_mean bg_frames (i + length l1) l2.
Proof.
  revert i v. induction l1 as [|item l1 IH]; intros i v; simpl.
  - by rewrite Nat.add_0_r.
  - destruct (step frames parang size cube_mean bg_frames i item v) as [v'|e]; simpl; [|done].
    rewrite IH. by replace (S i + length l1) with (i + S (length l1)) by lia.
Qed.

Local Abbreviation before := (vars_before frames parang NFRAMES bg_frames).

Lemma before_S (i item : nat) :
  NFRAMES !! i = Some item ->
  before (S i) = before i ≫= step frames parang size cube_mean bg_frames i item.
Proof.
  intros Hi. unfold vars_before. rewrite (take_S_r _ _ _ Hi), loop_app.
  destruct (loop _ _ _ _ _ 0 (take i NFRAMES) initial) as [v|e]; simpl; [|done].
  apply lookup_lt_Some in Hi as Hlt.
  rewrite length_take_le by lia.
  by destruct (step _ _ _ _ _ i item v).
Qed.

Lemma cubes_flagged_S (flag : bool) (i : nat) :
  cubes_flagged bg_frames flag (S i)
  = cubes_flagged bg_frames flag i
    ++ (if decide (bg_frames !! i = Some flag) then [i] else []).
Proof.
  unfold cubes_flagged. rewrite seq_S, filter_app. simpl. f_equal.
Qed.

Lemma written_from_snoc (ks : list nat) (out : list img) (k : nat) (b : img) :
  written_from frames NFRAMES ks out ->
  written_from frames NFRAMES (ks ++ [k]) (out ++ stack_sub (cube_frames frames NFRAMES k) b).
Proof.
  intros (blocks & -> & Hall).
  exists (blocks ++ [stack_sub (cube_frames frames NFRAMES k) b]). split.
  - rewrite concat_app. simpl. by rewrite app_nil_r.
  - apply Forall2_app; [done|]. constructor; [by exists b|constructor].
Qed.

Local Abbreviation invariant := (loop_invariant frames NFRAMES bg_frames).

Lemma invariant_initial : invariant 0 (@initial img angle).
Proof.
  repeat split; try done; by exists [].
Qed.

(** What one iteration does to the variables, whatever background it
    selects. *)
Lemma step_inv (i item : nat) (v v' : vars) :
  step frames parang size cube_mean bg_frames i item v = Ok v' ->
  exists (flag : bool) (b : img),
    bg_frames !! i = Some flag
    /\ count v' = count v + item
    /\ let block := stack_sub (getslice frames (count v) (count v + item)) b in
       if flag then
         background_init v' = true /\ star_init v' = star_init v
         /\ background_out v'
            = (if background_init v then background_out v else []) ++ block
         /\ background_nframes v'
            = (if background_init v then background_nframes v else []) ++ [item]
         /\ star_out v' = star_out v /\ star_nframes v' = star_nframes v
       else
         star_init v' = true /\ background_init v' = background_init v
         /\ star_out v' = (if star_init v then star_out v else []) ++ block
         /\ star_nframes v' = (if star_init v then star_nframes v else []) ++ [item]
         /\ background_out v' = background_out v
         /\ background_nframes v' = background_nframes v.
Proof.
  unfold step, getitem. intros Hstep.
  destruct (bg_frames !! i) as [[|]|] eqn:Hflag; simpl in Hstep; [| |done].
  - destruct (cube_mean !! i) as [b|]; simpl in Hstep; [|done].
    injection Hstep as <-. exists true, b. simpl.
    repeat split; by destruct (background_init v).
  - match type of Hstep with (?p ≫= _) = _ => destruct p as [prev|] end;
      simpl in Hstep; [|done].
    match type of Hstep with (?p ≫= _) = _ => destruct p as [next|] end;
      simpl in Hstep; [|done].
    destruct (select_background size i prev next) as [b|]; simpl in Hstep; [|done].
    injection Hstep as <-. exists false, b. simpl.
    repeat split; by destruct (star_init v).
Qed.

Lemma invariant_step (i item : nat) (v v' : vars) :
  NFRAMES !! i = Some item ->
  invariant i v ->
  step frames parang size cube_mean bg_frames i item v = Ok v' ->
  invariant (S i) v'.
Proof.
  intros Hi (Hcount & Hstar & Hbg & Hws & Hwb & Hns & Hnb) Hstep.
  apply step_inv in Hstep as (flag & b & Hflag & Hcount' & Hrest).
  rewrite Hcount, <- (cube_start_S _ _ Hi) in Hrest. fold (cube_frames frames NFRAMES i) in Hrest.
  unfold loop_invariant. rewrite !cubes_flagged_S, Hflag.
  split; [rewrite Hcount', Hcount; by rewrite (cube_start_S _ _ Hi)|].
  destruct flag; simpl in Hrest.
  - destruct Hrest as (Hi1 & Hi2 & Ho & Hn & Hso & Hsn).
    rewrite decide_False by done. rewrite decide_True by done.
    rewrite app_nil_r, Hi1, Hi2, Ho, Hn, Hso, Hsn.
    split; [done|]. split; [done|]. split; [done|].
    assert (Hout : (if background_init v then background_out v else []) = background_out v).
    { destruct (background_init v); [done|]. by destruct Hbg as [-> _]. }
    assert (Hnf : (if background_init v then background_nframes v else []) = background_nframes v).
    { destruct (background_init v); [done|]. by destruct Hbg as [_ ->]. }
    rewrite Hout, Hnf. split; [by apply written_from_snoc|]. split; [done|].
    rewrite Hnb. unfold nframes_of. rewrite omap_app. simpl. by rewrite Hi.
  - destruct Hrest as (Hi1 & Hi2 & Ho & Hn & Hso & Hsn).
    rewrite decide_True by done. rewrite decide_False by done.
    rewrite app_nil_r, Hi1, Hi2, Ho, Hn, Hso, Hsn.
    split; [done|]. split; [done|].
    assert (Hout : (if star_init v then star_out v else []) = star_out v).
    { destruct (star_init v); [done|]. by destruct Hstar as [-> _]. }
    assert (Hnf : (if star_init v then star_nframes v else []) = star_nframes v).
    { destruct (star_init v); [done|]. by destruct Hstar as [_ ->]. }
    rewrite Hout, Hnf. split; [by apply written_from_snoc|]. split; [done|]. split; [|done].
    rewrite Hns. unfold nframes_of. rewrite omap_app. simpl. by rewrite Hi.
Qed.

Lemma invariant_before (i : nat) (v : vars) :
  i <= size -> before i = Ok v -> invariant i v.
Proof.
  revert v. induction i as [|i IH]; intros v Hi Hv.
  - unfold vars_before in Hv. simpl in Hv. injection Hv as <-. apply invariant_initial.
  - destruct (lookup_lt_is_Some_2 NFRAMES i) as [item Hitem]; [lia|].
    rewrite (before_S _ _ Hitem) in Hv.
    destruct (before i) as [v0|e] eqn:Hv0; simpl in Hv; [|done].
    eapply invariant_step; [done| |done]. apply IH; [lia|done].
Qed.



Lemma amax_le (l : list nat) (k : nat) : (forall j, j ∈ l -> j <= k) -> amax l <= k.
Proof.
  induction l as [|x l IH]; intros Hall; simpl; [lia|].
  apply Nat.max_lub; [apply Hall; left | apply IH; intros j Hj; apply Hall; by right].
Qed.

Lemma amax_ge (l : list nat) (k : nat) : k ∈ l -> k <= amax l.
Proof.
  induction l as [|x l IH]; intros Hk; simpl; [by apply elem_of_nil in Hk|].
  apply elem_of_cons in Hk as [->|Hk]; [lia|]. specialize (IH Hk). lia.
Qed.

Lemma amin_ge (l : list nat) (k : nat) :
  l <> [] -> (forall j, j ∈ l -> k <= j) -> k <= amin l.
Proof.
  destruct l as [|x l]; [done|]. intros _ Hall. simpl.
  assert (Hx : k <= x) by (apply Hall; left).
  assert (Hl : forall j, j ∈ l -> k <= j) by (intros j Hj; apply Hall; by right).
  clear Hall. induction l as [|y l IH]; simpl; [done|].
  apply Nat.min_glb; [apply Hl; left | apply IH; intros j Hj; apply Hl; by right].
Qed.

Lemma foldr_min_le_init (a : nat) (l : list nat) : foldr Nat.min a l <= a.
Proof. induction l as [|y l IH]; simpl; lia. Qed.

Lemma foldr_min_le_elem (a : nat) (l : list nat) (k : nat) :
  k ∈ l -> foldr Nat.min a l <= k.
Proof.
  induction l as [|y l IH]; simpl; [by intros ?%elem_of_nil|].
  intros [->|Hk]%elem_of_cons; [lia|]. specialize (IH Hk). lia.
Qed.

Lemma amin_le (l : list nat) (k : nat) : k ∈ l -> amin l <= k.
Proof.
  destruct l as [|x l]; [by intros ?%elem_of_nil|]. simpl.
  intros [->|Hk]%elem_of_cons; [apply foldr_min_le_init | by apply foldr_min_le_elem].
Qed.

Lemma elem_of_nonzero (k : nat) : k ∈ nonzero bg_frames <-> bg_frames !! k = Some true.
Proof.
  unfold nonzero. rewrite list_elem_of_filter, elem_of_seq. split; [by intros []|].
  intros Hk. split; [done|]. apply lookup_lt_Some in Hk. lia.
Qed.

(** The look-up of the previous background cube. *)
Lemma resolve_prev (i : nat) (old : option img) :
  i < size ->
  let before := filter (fun k => k < i) (nonzero bg_frames) in
  exists p,
    (if 0 <? length before then Some <$> getitem cube_mean (amax before) else Ok old) = Ok p
    /\ forall k, nearest_prev bg_frames i k ->
         p = Some (img_mean (cube_frames frames NFRAMES k)).
Proof.
  intros Hi. cbv zeta.
  remember (filter (fun k => k < i) (nonzero bg_frames)) as before eqn:Hdef.
  assert (Hin : forall k, k ∈ before <-> k < i /\ bg_frames !! k = Some true).
  { intros k. rewrite Hdef. by rewrite list_elem_of_filter, elem_of_nonzero. }
  clear Hdef.
  assert (Hnear : forall k, nearest_prev bg_frames i k -> amax before = k).
  { intros k (Hk & Hbg & Hnone). apply Nat.le_antisymm.
    - apply amax_le. intros j [Hj Hjbg]%Hin.
      destruct (Nat.le_gt_cases j k); [done|]. destruct (Hnone j); [lia|done].
    - apply amax_ge. by apply Hin. }
  destruct before as [|x rest].
  - exists old. split; [done|]. intros k (Hk & Hbg & _).
    assert (k ∈ []) as []%elem_of_nil by (by apply Hin).
  - assert (Hmax : amax (x :: rest) < i).
    { assert (Hx : x < i) by (apply Hin; left).
      assert (amax (x :: rest) <= i - 1); [|lia].
      apply amax_le. intros j [Hj _]%Hin. lia. }
    cbn [length Nat.ltb Nat.leb]. unfold getitem.
    rewrite cube_mean_lookup by lia.
    eexists. split; [reflexivity|]. intros k Hk. by rewrite (Hnear k Hk).
Qed.

(** The look-up of the next background cube. *)
Lemma resolve_next (i : nat) (old : option img) :
  length bg_frames = size ->
  let after := filter (fun k => i < k) (nonzero bg_frames) in
  exists n,
    (if 0 <? length after then Some <$> getitem cube_mean (amin after) else Ok old) = Ok n
    /\ forall k, nearest_next bg_frames i k ->
         n = Some (img_mean (cube_frames frames NFRAMES k)).
Proof.
  intros Hlen. cbv zeta.
  remember (filter (fun k => i < k) (nonzero bg_frames)) as after eqn:Hdef.
  assert (Hin : forall k, k ∈ after <-> i < k /\ bg_frames !! k = Some true).
  { intros k. rewrite Hdef. by rewrite list_elem_of_filter, elem_of_nonzero. }
  clear Hdef.
  assert (Hnear : forall k, nearest_next bg_frames i k -> amin after = k).
  { intros k (Hk & Hbg & Hnone). apply Nat.le_antisymm.
    - apply amin_le. by apply Hin.
    - apply amin_ge.
      + intros Hnil. assert (k ∈ after) as Hka by (by apply Hin).
        rewrite Hnil in Hka. by apply elem_of_nil in Hka.
      + intros j [Hj Hjbg]%Hin.
        destruct (Nat.le_gt_cases k j); [done|]. destruct (Hnone j); [lia|done]. }
  destruct after as [|x rest].
  - exists old. split; [done|]. intros k (Hk & Hbg & _).
    assert (k ∈ []) as []%elem_of_nil by (by apply Hin).
  - assert (Hmin : amin (x :: rest) < size).
    { assert (amin (x :: rest) <= x) by (apply amin_le; left).
      destruct (Hin x) as [[_ Hx] _]; [left|]. apply lookup_lt_Some in Hx. lia. }
    cbn [length Nat.ltb Nat.leb]. unfold getitem.
    rewrite cube_mean_lookup by lia.
    eexists. split; [reflexivity|]. intros k Hk. by rewrite (Hnear k Hk).
Qed.


Lemma getitem_Some {A} (l : list A) (i : nat) (x : A) :
  l !! i = Some x -> getitem l i = Ok x.
Proof. intros Hx. unfold getitem. by rewrite Hx. Qed.

Lemma step_background (i item : nat) (v : @vars img angle) :
  NFRAMES !! i = Some item ->
  bg_frames !! i = Some true ->
  invariant i v ->
  background_cube_written frames parang NFRAMES bg_frames i item v
    (img_mean (cube_frames frames NFRAMES i)).
Proof.
  intros Hi Hflag (Hcount & _ & Hbg & _). apply lookup_lt_Some in Hi as Hlt.
  unfold background_cube_written, step, getitem.
  rewrite Hflag, cube_mean_lookup by done. simpl.
  eexists. split; [reflexivity|]. simpl. split; [|done].
  rewrite Hcount, <- (cube_start_S _ _ Hi). fold (cube_frames frames NFRAMES i).
  destruct (background_init v); [done|]. by destruct Hbg as [-> _].
Qed.

Lemma step_star (i item : nat) (v : @vars img angle) :
  length bg_frames = size ->
  NFRAMES !! i = Some item ->
  bg_frames !! i = Some false ->
  invariant i v ->
  exists prev next,
    (forall k, nearest_prev bg_frames i k ->
       prev = Some (img_mean (cube_frames frames NFRAMES k)))
    /\ (forall k, nearest_next bg_frames i k ->
          next = Some (img_mean (cube_frames frames NFRAMES k)))
    /\ forall b, select_background size i prev next = Ok b ->
         star_cube_written frames parang NFRAMES bg_frames i item v b.
Proof.
  intros Hlen Hi Hflag (Hcount & Hstar & _). apply lookup_lt_Some in Hi as Hlt.
  destruct (resolve_prev i (bg_prev v) Hlt) as (prev & Hprev & Hp).
  destruct (resolve_next i (bg_next v) Hlen) as (next & Hnext & Hn).
  exists prev, next. split; [done|]. split; [done|]. intros b Hb.
  unfold star_cube_written, step. rewrite (getitem_Some _ _ _ Hflag). simpl.
  rewrite Hprev. simpl. rewrite Hnext. simpl. rewrite Hb. simpl.
  eexists. split; [reflexivity|]. simpl. split; [|done].
  rewrite Hcount, <- (cube_start_S _ _ Hi). fold (cube_frames frames NFRAMES i).
  destruct (star_init v); [done|]. by destruct Hstar as [-> _].
Qed.

(** With the background cubes that the estimates read, the loop reaches
    every cube. *)
Lemma before_completes (i : nat) :
  length bg_frames = size ->
  has_backgrounds bg_frames ->
  i <= size ->
  exists v, before i = Ok v.
Proof.
  intros Hlen Hhas. induction i as [|i IH]; intros Hi.
  - by eexists.
  - destruct IH as [v Hv]; [lia|].
    destruct (lookup_lt_is_Some_2 NFRAMES i) as [item Hitem]; [lia|].
    rewrite (before_S _ _ Hitem), Hv. simpl.
    assert (Hinv : invariant i v) by (apply invariant_before; [lia|done]).
    destruct (lookup_lt_is_Some_2 bg_frames i) as [[|] Hflag]; [lia| |].
    + destruct (step_background i item v Hitem Hflag Hinv) as (v' & -> & _). by eexists.
    + destruct (step_star i item v Hlen Hitem Hflag Hinv) as (prev & next & Hp & Hn & Hw).
      destruct (Hhas i Hflag) as (H0 & Hprev & Hnext).
      assert (exists b, select_background size i prev next = Ok b) as [b Hb].
      { unfold select_background.
        destruct (Nat.eqb_spec i 0) as [Hi0|Hi0].
        - destruct (H0 Hi0) as [k Hk]. rewrite (Hn k Hk). by eexists.
        - destruct (Hprev Hi0) as [kp Hkp]. rewrite (Hp kp Hkp).
          destruct (Nat.eqb_spec i (size - 1)) as [Hil|Hil]; [by eexists|].
          destruct Hnext as [kn Hkn]; [done|lia|]. rewrite (Hn kn Hkn). by eexists. }
      destruct (Hw b Hb) as (v' & -> & _). by eexists.
Qed.


Lemma cube_start_le (k : nat) : cube_start NFRAMES k <= sum_list NFRAMES.
Proof.
  unfold cube_start. rewrite <- (take_drop k NFRAMES) at 2.
  rewrite sum_list_with_app. lia.
Qed.

Lemma length_cube_frames (k item : nat) :
  NFRAMES !! k = Some item ->
  sum_list NFRAMES <= length frames ->
  length (cube_frames frames NFRAMES k) = item.
Proof.
  intros Hk Hsum. unfold cube_frames, getslice.
  rewrite length_take, length_drop, (cube_start_S _ _ Hk).
  pose proof (cube_start_le (S k)). rewrite (cube_start_S _ _ Hk) in *. lia.
Qed.

Lemma length_written_from (ks : list nat) (out : list img) :
  written_from frames NFRAMES ks out ->
  sum_list NFRAMES <= length frames ->
  Forall (fun k => k < size) ks ->
  length out = sum_list (nframes_of NFRAMES ks).
Proof.
  intros (blocks & -> & Hall) Hsum. induction Hall as [|k block ks blocks [b ->] _ IH];
    intros Hks; simpl; [done|].
  apply Forall_cons in Hks as [Hk Hks].
  destruct (lookup_lt_is_Some_2 NFRAMES k Hk) as [item Hitem].
  rewrite length_app, IH by done. unfold stack_sub. rewrite length_map.
  rewrite (length_cube_frames _ _ Hitem Hsum).
  unfold nframes_of. simpl. rewrite Hitem. simpl. done.
Qed.

Lemma elem_of_cubes_flagged (flag : bool) (i k : nat) :
  k ∈ cubes_flagged bg_frames flag i <-> k < i /\ bg_frames !! k = Some flag.
Proof.
  unfold cubes_flagged. rewrite list_elem_of_filter, elem_of_seq. split; intros []; split; (done || lia).
Qed.

Lemma sum_flagged (i : nat) :
  length bg_frames = size -> i <= size ->
  sum_list (nframes_of NFRAMES (cubes_flagged bg_frames false i))
  + sum_list (nframes_of NFRAMES (cubes_flagged bg_frames true i))
  = cube_start NFRAMES i.
Proof.
  intros Hlen. induction i as [|i IH]; intros Hi; [done|].
  destruct (lookup_lt_is_Some_2 NFRAMES i) as [item Hitem]; [lia|].
  destruct (lookup_lt_is_Some_2 bg_frames i) as [flag Hflag]; [lia|].
  rewrite !cubes_flagged_S, Hflag, (cube_start_S _ _ Hitem), <- IH by lia.
  unfold nframes_of. rewrite !omap_app, !sum_list_with_app.
  destruct flag.
  - rewrite decide_False by done. rewrite decide_True by done.
    simpl. rewrite Hitem. simpl. lia.
  - rewrite decide_True by done. rewrite decide_False by done.
    simpl. rewrite Hitem. simpl. lia.
Qed.

End Preparation.

Lemma flag_cubes_length (self : PCABackgroundPreparationModule.t) (n : nat)
    (bg_frames : list bool) :
  PCABackgroundPreparationModule.flag_cubes self n = Ok bg_frames ->
  length bg_frames = n.
Proof.
  unfold PCABackgroundPreparationModule.flag_cubes. intros Hflag.
  destruct (py_range _ _ _) as [indices|e]; simpl in Hflag; [|done].
  injection Hflag as <-. by rewrite length_clear_ranges, length_replicate.
Qed.

Lemma run_is_loop {img : Type} `{Image img} {angle : Type}
    (self : PCABackgroundPreparationModule.t) (parang : list angle)
    (NFRAMES : list nat) (im_shape : nat * nat) (frames : list img)
    (bg_frames : list bool) :
  fst im_shape = snd im_shape ->
  PCABackgroundPreparationModule.flag_cubes self (length NFRAMES) = Ok bg_frames ->
  PCABackgroundPreparationModule.run self (Some parang) NFRAMES im_shape frames
  = vars_before frames parang NFRAMES bg_frames (length NFRAMES).
Proof.
  intros Hsquare Hflag.
  unfold PCABackgroundPreparationModule.run, PCABackgroundPreparationModule.fill_cube_mean,
    vars_before.
  rewrite firstn_all. destruct NFRAMES as [|item rest].
  - simpl in *. by rewrite Hflag.
  - rewrite (proj2 (Nat.eqb_eq _ _) Hsquare). cbn [mbind result_bind]. by rewrite Hflag.
Qed.

(** A run that returns has filled the array of the cube means. *)
Lemma run_Ok_is_loop {img : Type} `{Image img} {angle : Type}
    (self : PCABackgroundPreparationModule.t) (parang : list angle)
    (NFRAMES : list nat) (im_shape : nat * nat) (frames : list img)
    (bg_frames : list bool) (v : @PCABackgroundPreparationModule.vars img angle) :
  PCABackgroundPreparationModule.flag_cubes self (length NFRAMES) = Ok bg_frames ->
  PCABackgroundPreparationModule.run self (Some parang) NFRAMES im_shape frames = Ok v ->
  vars_before frames parang NFRAMES bg_frames (length NFRAMES) = Ok v.
Proof.
  intros Hflag Hrun.
  unfold PCABackgroundPreparationModule.run, PCABackgroundPreparationModule.fill_cube_mean
    in Hrun.
  unfold vars_before. rewrite firstn_all. destruct NFRAMES as [|item rest].
  - simpl in *. by rewrite Hflag in Hrun.
  - destruct (fst im_shape =? snd im_shape); [|done].
    cbn [mbind result_bind] in Hrun. by rewrite Hflag in Hrun.
Qed.

(** The frames of a stack that is not square stop the run at the first
    cube mean. *)
Lemma run_not_square {img : Type} `{Image img} {angle : Type}
    (self : PCABackgroundPreparationModule.t) (parang : list angle)
    (NFRAMES : list nat) (im_shape : nat * nat) (frames : list img) :
  NFRAMES <> [] -> fst im_shape <> snd im_shape ->
  PCABackgroundPreparationModule.run self (Some parang) NFRAMES im_shape frames
  = Raise PCABackgroundPreparationModule.could_not_broadcast.
Proof.
  intros Hne Hshape.
  unfold PCABackgroundPreparationModule.run, PCABackgroundPreparationModule.fill_cube_mean.
  destruct NFRAMES as [|item rest]; [done|].
  by rewrite (proj2 (Nat.eqb_neq _ _) Hshape).
Qed.

(** C1, amended: for every star cube [i] reached by the loop, the
    background estimate is the mean image of the nearest following
    background cube if [i] is the first cube, the mean image of the nearest
    preceding background cube if [i] is the last cube (and not the first),
    and otherwise, with background cubes on both sides, the average of the
    means of the nearest preceding and the nearest following background cube;
    the estimate is subtracted from every frame of the cube, and the result
    is appended to the star output.  Every background cube has its own mean
    subtracted from its frames, and the result is appended to the background
    output. *)
Theorem C1_background_of_each_cube {img : Type} `{Image img} {angle : Type}
    (self : PCABackgroundPreparationModule.t) (frames : list img)
    (parang : list angle) (NFRAMES : list nat) (bg_frames : list bool)
    (i item : nat) (v : @PCABackgroundPreparationModule.vars img angle) :
  PCABackgroundPreparationModule.flag_cubes self (length NFRAMES) = Ok bg_frames ->
  NFRAMES !! i = Some item ->
  vars_before frames parang NFRAMES bg_frames i = Ok v ->
  let mean k := img_mean (cube_frames frames NFRAMES k) in
  (bg_frames !! i = Some true ->
   background_cube_written frames parang NFRAMES bg_frames i item v (mean i))
  /\ (bg_frames !! i = Some false ->
      (i = 0 ->
       forall k, nearest_next bg_frames i k ->
         star_cube_written frames parang NFRAMES bg_frames i item v (mean k))
      /\ (i <> 0 -> i = length NFRAMES - 1 ->
          forall k, nearest_prev bg_frames i k ->
            star_cube_written frames parang NFRAMES bg_frames i item v (mean k))
      /\ (i <> 0 -> i <> length NFRAMES - 1 ->
          forall kp kn, nearest_prev bg_frames i kp -> nearest_next bg_frames i kn ->
            star_cube_written frames parang NFRAMES bg_frames i item v
              (img_half (img_add (mean kp) (mean kn))))).
Proof.
  intros Hflag Hitem Hv mean.
  apply flag_cubes_length in Hflag as Hlen.
  apply lookup_lt_Some in Hitem as Hlt.
  assert (Hinv : loop_invariant frames NFRAMES bg_frames i v).
  { apply (invariant_before frames parang); [lia|done]. }
  split.
  - intros Hbg. by apply step_background.
  - intros Hstar.
    destruct (step_star frames parang NFRAMES bg_frames i item v Hlen Hitem Hstar Hinv)
      as (prev & next & Hp & Hn & Hw).
    unfold PCABackgroundPreparationModule.select_background in Hw.
    split; [|split].
    + intros Hi0 k Hk. apply Hw. rewrite (proj2 (Nat.eqb_eq _ _) Hi0).
      by rewrite (Hn k Hk).
    + intros Hi0 Hil k Hk. apply Hw.
      rewrite (proj2 (Nat.eqb_neq _ _) Hi0), (proj2 (Nat.eqb_eq _ _) Hil).
      by rewrite (Hp k Hk).
    + intros Hi0 Hil kp kn Hkp Hkn. apply Hw.
      rewrite (proj2 (Nat.eqb_neq _ _) Hi0), (proj2 (Nat.eqb_neq _ _) Hil).
      by rewrite (Hp kp Hkp), (Hn kn Hkn).
Qed.

Lemma C1_background_of_each_cube_witness :
  exists v,
    vars_before (H := QPixel.image) five_cubes five_angles [1; 1; 1; 1; 1]
      [false; true; false; true; false] 2 = Ok v
    /\ star_cube_written (H := QPixel.image) five_cubes five_angles [1; 1; 1; 1; 1]
         [false; true; false; true; false] 2 1 v
         (@img_half Q QPixel.image
            (@img_add Q QPixel.image
               (@img_mean Q QPixel.image (cube_frames five_cubes [1; 1; 1; 1; 1] 1))
               (@img_mean Q QPixel.image (cube_frames five_cubes [1; 1; 1; 1; 1] 3)))).
Proof.
  eexists. split; [vm_compute; reflexivity|].
  refine (proj2 (proj2 (proj2 (C1_background_of_each_cube (H := QPixel.image) alternating
           five_cubes five_angles [1; 1; 1; 1; 1] [false; true; false; true; false] 2 1 _
           _ _ _) _)) _ _ 1 3 _ _).
  - vm_compute; reflexivity.
  - reflexivity.
  - vm_compute; reflexivity.
  - reflexivity.
  - lia.
  - simpl; lia.
  - split; [lia|]. split; [reflexivity|]. intros j Hj. lia.
  - split; [lia|]. split; [reflexivity|]. intros j Hj. lia.
Defined.

(** C1, as stated, fails at the first and at the last cube: of three
    alternating cubes (frames 4 and 6, frame 1, frames 7 and 9) the first is
    a star cube with no background cube before it, and the run subtracts
    from it the mean of the next background cube, 1; the last is a star cube
    with no background cube after it, and the run subtracts the mean of the
    previous one.  No image is the estimate that C1 states for these two
    cubes. *)
Lemma C1_first_cube_uses_next_background :
  PCABackgroundPreparationModule.star_out
    <$> PCABackgroundPreparationModule.run (H := QPixel.image) alternating
          (Some five_angles) [2; 1; 2] (1, 1) three_cubes
  = Ok [3; 5; 6; 8]%Q
  /\ PCABackgroundPreparationModule.flag_cubes alternating 3 = Ok [false; true; false]
  /\ (forall b, ~ claimed_estimate (H := QPixel.image) three_cubes [2; 1; 2]
                   [false; true; false] 0 b)
  /\ (forall b, ~ claimed_estimate (H := QPixel.image) three_cubes [2; 1; 2]
                   [false; true; false] 2 b).
Proof.
  split; [vm_compute; reflexivity|]. split; [vm_compute; reflexivity|]. split.
  - intros b (k & (Hk & _) & _). lia.
  - intros b (k & (Hk & Hbg & _) & _).
    apply lookup_lt_Some in Hbg. simpl in Hbg. lia.
Qed.

(** C10, amended: when the NFRAMES attribute sums to the number of input
    frames, a run that returns has written every cube to exactly one of the
    two outputs: the star output holds, in the order of the input, the
    frames of the star cubes and the background output those of the
    background cubes (each cube with its background subtracted), the two
    frame counts add up to the input frame count, and the NFRAMES attributes
    of the two outputs are the entries of the input NFRAMES of the star
    cubes and of the background cubes, so that their sums add up to the sum
    of the input NFRAMES.  On square frames the run returns whenever every
    star cube has the background cubes that its estimate reads; on frames
    that are not square a run with cubes raises the ValueError of the first
    cube mean. *)
Theorem C10_every_frame_written_once {img : Type} `{Image img} {angle : Type}
    (self : PCABackgroundPreparationModule.t) (parang : list angle)
    (NFRAMES : list nat) (im_shape : nat * nat) (frames : list img)
    (bg_frames : list bool) :
  PCABackgroundPreparationModule.flag_cubes self (length NFRAMES) = Ok bg_frames ->
  sum_list NFRAMES = length frames ->
  let stars := cubes_flagged bg_frames false (length NFRAMES) in
  let backgrounds := cubes_flagged bg_frames true (length NFRAMES) in
  (fst im_shape = snd im_shape -> has_backgrounds bg_frames ->
   exists v,
     PCABackgroundPreparationModule.run self (Some parang) NFRAMES im_shape frames = Ok v)
  /\ (NFRAMES <> [] -> fst im_shape <> snd im_shape ->
      PCABackgroundPreparationModule.run self (Some parang) NFRAMES im_shape frames
      = Raise PCABackgroundPreparationModule.could_not_broadcast)
  /\ forall v,
       PCABackgroundPreparationModule.run self (Some parang) NFRAMES im_shape frames = Ok v ->
       (forall k, k < length NFRAMES ->
          (k ∈ stars /\ k ∉ backgrounds) \/ (k ∈ backgrounds /\ k ∉ stars))
       /\ written_from frames NFRAMES stars (PCABackgroundPreparationModule.star_out v)
       /\ written_from frames NFRAMES backgrounds
            (PCABackgroundPreparationModule.background_out v)
       /\ length (PCABackgroundPreparationModule.star_out v)
          + length (PCABackgroundPreparationModule.background_out v)
          = length frames
       /\ PCABackgroundPreparationModule.star_nframes v = nframes_of NFRAMES stars
       /\ PCABackgroundPreparationModule.background_nframes v
          = nframes_of NFRAMES backgrounds
       /\ sum_list (PCABackgroundPreparationModule.star_nframes v)
          + sum_list (PCABackgroundPreparationModule.background_nframes v)
          = sum_list NFRAMES.
Proof.
  intros Hflag Hsum stars backgrounds.
  apply flag_cubes_length in Hflag as Hlen.
  split; [|split].
  - intros Hsquare Hhas.
    rewrite (run_is_loop self parang NFRAMES im_shape frames bg_frames Hsquare Hflag).
    by apply before_completes.
  - apply run_not_square.
  - intros v Hv.
    apply (run_Ok_is_loop self parang NFRAMES im_shape frames bg_frames v Hflag) in Hv.
    destruct (invariant_before frames parang NFRAMES bg_frames (length NFRAMES) v)
      as (_ & _ & _ & Hws & Hwb & Hns & Hnb); [done|done|].
    pose proof (sum_flagged NFRAMES bg_frames (length NFRAMES) Hlen (Nat.le_refl _)) as Hparts.
    unfold cube_start in Hparts. rewrite firstn_all in Hparts.
    assert (Hin : forall flag, Forall (fun k => k < length NFRAMES)
                                 (cubes_flagged bg_frames flag (length NFRAMES))).
    { intros flag. apply Forall_forall. by intros k [Hk _]%elem_of_cubes_flagged. }
    split; [|split; [done|split; [done|split; [|split; [done|split; [done|]]]]]].
    + intros k Hk. unfold stars, backgrounds. rewrite !elem_of_cubes_flagged.
      destruct (lookup_lt_is_Some_2 bg_frames k) as [[|] Hk']; [lia| |].
      * right. split; [done|]. intros [_ ?]. congruence.
      * left. split; [done|]. intros [_ ?]. congruence.
    + rewrite (length_written_from frames NFRAMES _ _ Hws), (length_written_from frames NFRAMES _ _ Hwb);
        try done; try lia.
    + rewrite Hns, Hnb. done.
Qed.

Lemma C10_every_frame_written_once_witness :
  exists v,
    PCABackgroundPreparationModule.run (H := QPixel.image) alternating
      (Some five_angles) [2; 1; 2] (1, 1) three_cubes = Ok v
    /\ length (PCABackgroundPreparationModule.star_out v)
       + length (PCABackgroundPreparationModule.background_out v)
       = length three_cubes
    /\ PCABackgroundPreparationModule.star_nframes v = [2; 2]
    /\ PCABackgroundPreparationModule.background_nframes v = [1].
Proof.
  destruct (C10_every_frame_written_once (H := QPixel.image) alternating five_angles
              [2; 1; 2] (1, 1) three_cubes [false; true; false])
    as (Hruns & _ & Hwritten); [vm_compute; reflexivity | reflexivity |].
  destruct Hruns as [v Hv]; [reflexivity| |].
  { intros [|[|[|i]]] Hi; try discriminate Hi.
    - split; [|split; intros; lia]. intros _. exists 1.
      split; [lia|]. split; [reflexivity|]. intros j Hj. lia.
    - split; [intros; lia|]. split; [|intros _ Hl; simpl in Hl; lia].
      intros _. exists 1. split; [lia|]. split; [reflexivity|]. intros j Hj. lia. }
  exists v. split; [done|].
  destruct (Hwritten v Hv) as (_ & _ & _ & Hlen & Hs & Hb & _).
  split; [done|]. by split.
Defined.

(** C10, as stated, fails when NFRAMES does not count every frame, which
    the run does not check.  For a stack of three one-pixel frames 4, 6, 1
    whose NFRAMES attribute is [1; 1] the run returns: the star output holds
    frame 0 minus the mean of cube 1, the background output frame 1 minus
    its own mean, and frame 2 is in neither output, so that the two outputs
    hold two frames of the three. *)
Lemma C10_frames_beyond_NFRAMES_are_dropped :
  exists v,
    PCABackgroundPreparationModule.run (H := QPixel.image) alternating
      (Some five_angles) [1; 1] (1, 1) uncounted_frames = Ok v
    /\ PCABackgroundPreparationModule.star_out v = [4 - 6 / 1]%Q
    /\ PCABackgroundPreparationModule.background_out v = [6 - 6 / 1]%Q
    /\ length uncounted_frames = 3
    /\ length (PCABackgroundPreparationModule.star_out v)
       + length (PCABackgroundPreparationModule.background_out v)
       <> length uncounted_frames.
Proof.
  eexists. split; [vm_compute; reflexivity|]. simpl.
  split; [|split; [|split; [reflexivity|lia]]]; vm_compute; reflexivity.
Qed.

(** The cases that the amended C1 leaves out.  With the flags background,
    star, star, background, background, star, star, cube 5 is neither first
    nor last and has no background cube after it: the local [bg_next] still
    holds the mean of cube 3 from the iteration of cube 2, and the run
    subtracts the average of the means of cubes 4 and 3 from it. *)
Remark stale_next_background :
  PCABackgroundPreparationModule.flag_cubes (pairs 1) 7
  = Ok [true; false; false; true; true; false; false]
  /\ PCABackgroundPreparationModule.star_out
       <$> PCABackgroundPreparationModule.run (H := QPixel.image) (pairs 1)
             (Some five_angles) [1; 1; 1; 1; 1; 1; 1] (1, 1) seven_cubes
     = Ok [-1 # 2; 1 # 2; 10 # 2; 14]%Q.
Proof. split; vm_compute; reflexivity. Qed.

(** With the star in the first two cubes, cube 1 is neither first nor last
    and has no background cube before it: [bg_prev] is not bound, and the
    run stops with a [NameError]. *)
Remark unbound_previous_background :
  PCABackgroundPreparationModule.run (H := QPixel.image) (pairs 0)
    (Some five_angles) [1; 1; 1; 1; 1; 1; 1] (1, 1) seven_cubes
  = Raise (NameError "bg_prev").
Proof. vm_compute; reflexivity. Qed.

(** ** Injection of a fake planet *)

Lemma mapM_result {A B : Type} (f : A -> result B) (R : A -> B -> Prop) (l : list A) :
  Forall (fun x => exists y, f x = Ok y /\ R x y) l ->
  exists ys, mapM f l = Ok ys /\ Forall2 R l ys.
Proof.
  induction 1 as [|x l (y & Hy & HR) _ (ys & Hys & Hall)]; simpl.
  - exists []. split; [done|constructor].
  - exists (y :: ys). rewrite Hy. simpl. rewrite Hys. simpl. split; [done|by constructor].
Qed.

Section FakePlanet.
Context {F img : Type} `{Float F} `{Image img} `{ScaledImage F img}
        `{Collaborators F img}.
Import FakePlanetModule.

Variable self : @t F.
Variable memory : nat.
Variable radial theta : F.
Variable parang : list F.
Variable psf_stack : list img.
Hypothesis Hmemory : 0 < memory.
Hypothesis Hparang : length psf_stack <= length parang.

Local Abbreviation n := (length psf_stack).

Lemma lookup_getslice {A} (l : list A) (a b i : nat) :
  i < b - a -> getslice l a b !! i = l !! (a + i).
Proof. intros Hi. unfold getslice. by rewrite lookup_take_lt, lookup_drop. Qed.

Lemma length_getslice {A} (l : list A) (a b : nat) :
  b <= length l -> length (getslice l a b) = b - a.
Proof. intros Hb. unfold getslice. rewrite length_take, length_drop. lia. Qed.

Lemma chunk_psf (psf : option img) (h w j a b : nat) :
  a = j * memory -> b <= n ->
  exists ys,
    chunk self memory n radial theta parang psf (Array3D h w psf_stack) j a b = Ok ys
    /\ Forall2 (psf_plus_psf self radial theta parang psf_stack) (seq a (b - a)) ys.
Proof.
  intros Ha Hb. unfold chunk. rewrite length_getslice by done.
  rewrite Nat.eqb_refl.
  destruct (mapM_result
              (fun i =>
                 pa ← getitem parang (j * memory + i);
                 frame ← getitem (getslice psf_stack a b) i;
                 psf_tmp ← getitem psf_stack (j * memory + i);
                 mret (inject self radial theta pa psf_tmp frame))
              (fun i y => psf_plus_psf self radial theta parang psf_stack (a + i) y) (seq 0 (b - a)))
    as (ys & Hys & Hall).
  { apply Forall_forall. intros i Hi%elem_of_seq.
    destruct (lookup_lt_is_Some_2 parang (a + i)) as [pa Hpa]; [lia|].
    destruct (lookup_lt_is_Some_2 psf_stack (a + i)) as [p Hp]; [lia|].
    exists (inject self radial theta pa p p). rewrite <- Ha. unfold getitem.
    rewrite Hpa, lookup_getslice, Hp by lia. simpl.
    split; [done|]. by exists pa, p. }
  exists ys. split; [done|].
  assert (seq a (b - a) = (fun i => a + i) <$> seq 0 (b - a)) as ->.
  { rewrite fmap_add_seq. f_equal. lia. }
  by apply Forall2_fmap_l.
Qed.


Lemma lookup_im_stacks (j : nat) :
  j < length (im_stacks n memory) ->
  im_stacks n memory !! j = Some (Nat.min (j * memory) n).
Proof using Hmemory.
  clear Hparang.
  unfold im_stacks. intros Hj.
  pose proof (Nat.Div0.div_mod n memory) as Hdiv.
  pose proof (Nat.mod_upper_bound n memory) as Hmod.
  rewrite length_app, length_map, length_seq in Hj.
  destruct (Nat.le_gt_cases j (n / memory)) as [Hle|Hgt].
  - rewrite lookup_app_l by (rewrite length_map, length_seq; lia).
    change (map ?f ?l) with (f <$> l).
    rewrite list_lookup_fmap, lookup_seq_lt by lia. simpl. f_equal. nia.
  - destruct (Nat.eqb_spec (n / memory * memory) n) as [Heq|Hne]; simpl in Hj; [lia|].
    rewrite lookup_app_r by (rewrite length_map, length_seq; lia).
    rewrite length_map, length_seq.
    replace (j - S (n / memory)) with 0 by lia. simpl. f_equal. nia.
Qed.

Lemma length_im_stacks :
  Nat.min ((length (im_stacks n memory) - 1) * memory) n = n.
Proof using Hmemory.
  clear Hparang.
  unfold im_stacks.
  pose proof (Nat.Div0.div_mod n memory) as Hdiv.
  pose proof (Nat.mod_upper_bound n memory) as Hmod.
  rewrite length_app, length_map, length_seq.
  destruct (Nat.eqb_spec (n / memory * memory) n) as [Heq|Hne]; simpl; nia.
Qed.

Lemma im_stacks_start (j : nat) :
  j < length (im_stacks n memory) - 1 -> j * memory <= n.
Proof using Hmemory.
  clear Hparang.
  unfold im_stacks.
  pose proof (Nat.Div0.div_mod n memory) as Hdiv.
  rewrite length_app, length_map, length_seq.
  destruct (Nat.eqb_spec (n / memory * memory) n) as [Heq|Hne]; simpl; nia.
Qed.

Local Arguments chunk : simpl never.

Lemma chunks_psf (psf : option img) (h w c j0 : nat) :
  j0 + c <= length (im_stacks n memory) - 1 ->
  exists chunks,
    mapM (fun j =>
            a ← getitem (im_stacks n memory) j;
            b ← getitem (im_stacks n memory) (j + 1);
            chunk self memory n radial theta parang psf (Array3D h w psf_stack) j a b)
         (seq j0 c)
    = Ok chunks
    /\ Forall2 (psf_plus_psf self radial theta parang psf_stack)
         (seq (j0 * memory) (Nat.min ((j0 + c) * memory) n - j0 * memory))
         (concat chunks).
Proof.
  revert j0. induction c as [|c IH]; intros j0 Hj; simpl.
  - exists []. split; [done|]. rewrite Nat.add_0_r.
    replace (Nat.min (j0 * memory) n - j0 * memory) with 0 by lia. constructor.
  - rewrite (getitem_Some _ _ _ (lookup_im_stacks j0 ltac:(lia))).
    rewrite (getitem_Some _ _ _ (lookup_im_stacks (j0 + 1) ltac:(lia))). simpl.
    assert (Hstart : j0 * memory <= n).
    { apply im_stacks_start. lia. }
    rewrite (Nat.min_l _ _ Hstart).
    destruct (chunk_psf psf h w j0 (j0 * memory) (Nat.min ((j0 + 1) * memory) n))
      as (ys & -> & Hys); [done|lia|]. simpl.
    destruct (IH (S j0)) as (chunks & -> & Hchunks); [lia|]. simpl.
    exists (ys :: chunks). split; [done|]. simpl.
    replace (j0 + S c) with (S j0 + c) by lia.
    destruct (Nat.le_gt_cases ((j0 + 1) * memory) n) as [Hle|Hgt].
    + rewrite Nat.min_l in Hys by done.
      replace (Nat.min ((S j0 + c) * memory) n - j0 * memory)
        with (((j0 + 1) * memory - j0 * memory)
              + (Nat.min ((S j0 + c) * memory) n - S j0 * memory)) by nia.
      rewrite seq_app. apply Forall2_app; [done|].
      by replace (j0 * memory + ((j0 + 1) * memory - j0 * memory)) with (S j0 * memory) by nia.
    + rewrite Nat.min_r in Hys by lia.
      replace (Nat.min ((S j0 + c) * memory) n - S j0 * memory) with 0 in Hchunks by nia.
      inversion Hchunks as [Hnil|]; subst. rewrite app_nil_r.
      by replace (Nat.min ((S j0 + c) * memory) n) with n by nia.
Qed.

End FakePlanet.


(** With a PSF cube of as many frames as the science cube, every output
    frame of [run] is a frame of the PSF cube plus the shifted and scaled
    PSF: the science frames are not read. *)
Lemma run_reads_psf_stack {F img : Type} `{Float F} `{Image img} `{ScaledImage F img}
    `{Collaborators F img}
    (self : @FakePlanetModule.t F) (MEMORY : nat) (PIXSCALE : F) (NEW_PARA : list F)
    (h w hp wp : nat) (frames psf_stack : list img) :
  0 < MEMORY ->
  length psf_stack = length frames ->
  length frames <= length NEW_PARA ->
  let parang := map (fun a => f_mul a (f_div f_pi (f_lit 180))) NEW_PARA in
  let radial := f_div (fst (FakePlanetModule.m_position self)) PIXSCALE in
  let theta := f_add (f_div (f_mul (snd (FakePlanetModule.m_position self)) f_pi)
                            (f_lit 180))
                     (f_div f_pi (f_lit 2)) in
  exists out,
    FakePlanetModule.run self MEMORY PIXSCALE NEW_PARA
      (Array3D h w frames) (Array3D hp wp psf_stack) = Ok out
    /\ Forall2 (psf_plus_psf self radial theta parang psf_stack)
         (seq 0 (length psf_stack)) out.
Proof.
  intros Hmem Hlen Hpa parang radial theta. unfold FakePlanetModule.run.
  fold parang radial theta.
  destruct (Nat.eqb_spec MEMORY 0) as [?|_]; [lia|].
  rewrite bool_decide_eq_true_2 by done. simpl negb. cbv iota.
  rewrite <- Hlen, Nat.eqb_refl.
  destruct (chunks_psf self MEMORY radial theta parang psf_stack Hmem) with
    (psf := @None img) (h := hp) (w := wp) (j0 := 0)
    (c := length (FakePlanetModule.im_stacks (length psf_stack) MEMORY) - 1)
    as (chunks & Hchunks & Hall).
  { unfold parang. rewrite length_map. lia. }
  { lia. }
  rewrite Hchunks. simpl. exists (concat chunks). split; [done|].
  cbn [Nat.add Nat.mul] in Hall.
  rewrite (length_im_stacks MEMORY psf_stack Hmem), Nat.sub_0_r in Hall. done.
Qed.

Section RealPixel.
Local Existing Instance RPixel.float.
Local Existing Instance RPixel.image.
Local Existing Instance RPixel.scaled.
Local Existing Instance RPixel.collaborators.

(** C2 on two science frames 1 and 5 and two PSF frames 2 and 3 of one
    pixel, stored under different tags: with [c] the product of the scaling
    and the flux ratio [10 ** (-magnitude / 2.5)], the run writes
    [2 + c * 2] and [3 + c * 3], the PSF frames plus the scaled PSF, and not
    [1 + c * 2] and [5 + c * 3], the science frames plus the scaled PSF. *)
Theorem C2_chunk_is_read_from_psf_tag :
  let c := f_mul (FakePlanetModule.m_psf_scaling planet)
             (f_pow (f_lit 10)
                (f_div (f_neg (FakePlanetModule.m_magnitude planet)) (f_lit 2.5))) in
  FakePlanetModule.run planet 1 0.027%R [0%R; 90%R] science_frames psf_frames
  = Ok [(2 + c * 2)%R; (3 + c * 3)%R]
  /\ (2 + c * 2 <> 1 + c * 2)%R
  /\ (3 + c * 3 <> 5 + c * 3)%R.
Proof.
  intros c. split; [|split; intros Heq; lra].
  cbv -[Rplus Rmult Rminus Rdiv Ropp Rinv RPixel.pow Q2R PI cos sin IZR].
  reflexivity.
Qed.

End RealPixel.

(** ** Simplex minimization: the trial records *)

Section Simplex.
Context {F img : Type} `{Float F} `{Image img} `{ScaledImage F img}
        `{Collaborators F img}.
Import SimplexMinimizationModule.

Variable self : @t F.
Variable inp : @inputs F img.
Variable l : @locals F.

Lemma objective_appends (arg : F * F * F) (p p' : @ports F img) (merit : F) :
  _objective self inp l arg p = (Ok merit, p') ->
  exists im_res,
    m_res_out p' = m_res_out p ++ [im_res]
    /\ m_flux_position p' = m_flux_position p ++ [trial_record self inp l arg merit].
Proof.
  unfold _objective. intros Hobj.
  destruct (residuals self inp l arg ≫= single_residual) as [im_res|e]; [|done].
  destruct (merit_of self l _) as [m|e]; [|done].
  injection Hobj as <- <-. by exists im_res.
Qed.

Lemma objective_raises (arg : F * F * F) (p p' : @ports F img) (e : exn) :
  _objective self inp l arg p = (Raise e, p') ->
  m_flux_position p' = m_flux_position p
  /\ (m_res_out p' = m_res_out p \/ exists im_res, m_res_out p' = m_res_out p ++ [im_res]).
Proof.
  unfold _objective. intros Hobj.
  destruct (residuals self inp l arg ≫= single_residual) as [im_res|e'].
  - destruct (merit_of self l _) as [m|e'']; [done|].
    injection Hobj as <- <-. split; [done|]. right. by exists im_res.
  - injection Hobj as <- <-. split; [done|]. by left.
Qed.

Lemma objective_returns (arg : F * F * F) (p : @ports F img) (im_res : img) :
  residuals self inp l arg ≫= single_residual = Ok im_res ->
  m_merit self = "hessian"%string \/ m_merit self = "sum"%string ->
  exists merit p', _objective self inp l arg p = (Ok merit, p').
Proof.
  intros Hres Hmerit. unfold _objective, merit_of. rewrite Hres.
  destruct Hmerit as [-> | ->]; simpl; by eexists _, _.
Qed.

(** The residual image of an evaluation, spelt out. *)
Lemma residual_trial (pos_x pos_y mag : F) (im_res : img) :
  residuals self inp l (pos_x, pos_y, mag) ≫= single_residual = Ok im_res
  <-> trial_residual self inp l pos_x pos_y mag im_res.
Proof.
  unfold residuals, trial_residual, separation_of, angle_of, sep_of, ang_of.
  split.
  - intros Hres.
    match type of Hres with
    | context [FakePlanetModule.run ?m ?a ?b ?c ?d ?e] =>
        destruct (FakePlanetModule.run m a b c d e) as [simplex_fake|e'] eqn:Hfake
    end; [|done].
    cbn [mbind result_bind] in Hres.
    exists simplex_fake.
    destruct (String.eqb_spec (m_pca_module self) "PSFSubtractionModule") as [Hpsf|_].
    + destruct (psf_subtraction _ _ _ _) as [res_mean|e'] eqn:Hsub; [|done].
      exists res_mean. split; [done|]. split; [by left|].
      destruct res_mean as [h w im|h w [|im [|im' stack]]];
        simpl in Hres; try done; injection Hres as <-; exists h, w;
        first [by left | by right].
    + destruct (String.eqb_spec (m_pca_module self) "FastPCAModule") as [Hfast|_]; [|done].
      destruct (fast_pca _ _ _) as [res_mean|e'] eqn:Hsub; [|done].
      exists res_mean. split; [done|]. split; [by right|].
      destruct res_mean as [h w im|h w [|im [|im' stack]]];
        simpl in Hres; try done; injection Hres as <-; exists h, w;
        first [by left | by right].
  - intros (simplex_fake & res_mean & Hfake & Hsub & h & w & Hone).
    rewrite Hfake. cbn [mbind result_bind].
    destruct Hsub as [[Hpsf Hsub] | [Hfast Hsub]].
    + rewrite Hpsf. simpl. rewrite Hsub. by destruct Hone as [-> | ->].
    + rewrite Hfast. simpl. rewrite Hsub. by destruct Hone as [-> | ->].
Qed.

(** The record of an evaluation, spelt out. *)
Lemma trial_record_claimed (pos_x pos_y mag merit : F) :
  trial_record self inp l (pos_x, pos_y, mag) merit
  = claimed_record (center l) (PIXSCALE inp) (m_extra_rot self) pos_x pos_y mag merit.
Proof. reflexivity. Qed.

(** An evaluation that returns. *)
Lemma objective_trial (pos_x pos_y mag : F) (p p' : @ports F img) (merit : F) :
  _objective self inp l (pos_x, pos_y, mag) p = (Ok merit, p') ->
  exists im_res,
    trial_residual self inp l pos_x pos_y mag im_res
    /\ trial_merit self l im_res merit
    /\ m_res_out p' = m_res_out p ++ [im_res]
    /\ m_flux_position p'
       = m_flux_position p
         ++ [claimed_record (center l) (PIXSCALE inp) (m_extra_rot self)
               pos_x pos_y mag merit].
Proof.
  unfold _objective. intros Hobj.
  destruct (residuals self inp l (pos_x, pos_y, mag) ≫= single_residual)
    as [im_res|e] eqn:Hres; [|done].
  apply residual_trial in Hres.
  unfold merit_of in Hobj. exists im_res. split; [done|].
  unfold trial_merit.
  destruct (String.eqb_spec (m_merit self) "hessian") as [Hh|_].
  - injection Hobj as <- <-. split; [by left|]. by split.
  - destruct (String.eqb_spec (m_merit self) "sum") as [Hs|_]; [|done].
    injection Hobj as <- <-. split; [by right|]. by split.
Qed.

(** An evaluation that raises. *)
Lemma objective_fails (pos_x pos_y mag : F) (p p' : @ports F img) (e : exn) :
  _objective self inp l (pos_x, pos_y, mag) p = (Raise e, p') ->
  m_flux_position p' = m_flux_position p
  /\ (m_res_out p' = m_res_out p
      \/ exists im_res,
           trial_residual self inp l pos_x pos_y mag im_res
           /\ m_res_out p' = m_res_out p ++ [im_res]).
Proof.
  unfold _objective. intros Hobj.
  destruct (residuals self inp l (pos_x, pos_y, mag) ≫= single_residual)
    as [im_res|e'] eqn:Hres.
  - apply residual_trial in Hres.
    destruct (merit_of self l _) as [merit|e'']; [done|].
    injection Hobj as <- <-. split; [done|]. right. by exists im_res.
  - injection Hobj as <- <-. split; [done|]. by left.
Qed.

Lemma minimize_appends (maxfev : nat) (next : list (F * F * F * F) -> option (F * F * F))
    (done_ evaluations : list (F * F * F * F)) (p p' : @ports F img) :
  minimize maxfev next (_objective self inp l) done_ p = (Ok evaluations, p') ->
  exists new,
    evaluations = done_ ++ new
    /\ m_flux_position p'
       = m_flux_position p
         ++ map (fun e => trial_record self inp l (fst e) (snd e)) new
    /\ length (m_res_out p') = length (m_res_out p) + length new.
Proof.
  revert done_ p. induction maxfev as [|maxfev IH]; intros done_ p Hmin; simpl in Hmin.
  - injection Hmin as <- <-. exists []. by rewrite !app_nil_r, Nat.add_0_r.
  - destruct (next done_) as [arg|].
    + destruct (_objective self inp l arg p) as [[merit|e] p1] eqn:Hobj; [|done].
      apply objective_appends in Hobj as (im_res & Hres & Hflux).
      apply IH in Hmin as (new & -> & Hflux' & Hres').
      exists ((arg, merit) :: new). split; [by rewrite <- app_assoc|].
      rewrite Hflux', Hflux, Hres', Hres, length_app. simpl.
      split; [by rewrite <- app_assoc|lia].
    + injection Hmin as <- <-. exists []. by rewrite !app_nil_r, Nat.add_0_r.
Qed.

(** The evaluations of a search that returns, with their records and their
    residual images. *)
Lemma minimize_trials (maxfev : nat) (next : list (F * F * F * F) -> option (F * F * F))
    (done_ evaluations : list (F * F * F * F)) (p p' : @ports F img) :
  minimize maxfev next (_objective self inp l) done_ p = (Ok evaluations, p') ->
  exists new images,
    evaluations = done_ ++ new
    /\ m_flux_position p' = m_flux_position p ++ map (record_of_evaluation self inp l) new
    /\ m_res_out p' = m_res_out p ++ images
    /\ Forall2 (fun e im_res =>
                  trial_residual self inp l (fst (fst (fst e))) (snd (fst (fst e)))
                    (snd (fst e)) im_res
                  /\ trial_merit self l im_res (snd e))
               new images.
Proof.
  revert done_ p. induction maxfev as [|maxfev IH]; intros done_ p Hmin; simpl in Hmin.
  - injection Hmin as <- <-. exists [], []. rewrite !app_nil_r. by repeat split.
  - destruct (next done_) as [[[pos_x pos_y] mag]|].
    + destruct (_objective self inp l (pos_x, pos_y, mag) p) as [[merit|e] p1] eqn:Hobj;
        [|done].
      apply objective_trial in Hobj as (im_res & Htrial & Hmerit & Hres & Hflux).
      apply IH in Hmin as (new & images & -> & Hflux' & Hres' & Hall).
      exists ((pos_x, pos_y, mag, merit) :: new), (im_res :: images).
      rewrite Hflux', Hflux, Hres', Hres, <- !app_assoc.
      split; [done|]. split; [done|]. split; [done|]. by constructor.
    + injection Hmin as <- <-. exists [], []. rewrite !app_nil_r. by repeat split.
Qed.

End Simplex.

(** C9, amended: every evaluation of the objective function that returns a
    merit value appends exactly one residual image, the single image that
    the PSF subtraction leaves for the fake planet injected at the trial
    position, to the residual output, and exactly one record of six
    components to the flux and position output: the x and y position
    rotated back by the extra rotation, the separation, the angle minus the
    extra rotation modulo 360, the magnitude and the merit.  An evaluation
    that raises appends no record, and at most its residual image.  An
    evaluation returns whenever the PSF subtraction yields a single residual
    image and the merit is hessian or sum (the cut-out and the routines of
    the merit being taken to return).  After a run that returns, the flux
    and position output holds the records of all evaluations in the order in
    which the search made them, the residual output holds their residual
    images in the same order, and the best-fit result, the last row, is the
    record of the last evaluation. *)
Theorem C9_trial_records {F img : Type} `{Float F} `{Image img} `{ScaledImage F img}
    `{Collaborators F img}
    (self : @SimplexMinimizationModule.t F) (inp : @SimplexMinimizationModule.inputs F img) :
  (forall l pos_x pos_y mag p merit p',
     SimplexMinimizationModule._objective self inp l (pos_x, pos_y, mag) p = (Ok merit, p') ->
     exists im_res,
       trial_residual self inp l pos_x pos_y mag im_res
       /\ trial_merit self l im_res merit
       /\ SimplexMinimizationModule.m_res_out p'
          = SimplexMinimizationModule.m_res_out p ++ [im_res]
       /\ SimplexMinimizationModule.m_flux_position p'
          = SimplexMinimizationModule.m_flux_position p
            ++ [claimed_record (SimplexMinimizationModule.center l)
                  (SimplexMinimizationModule.PIXSCALE inp)
                  (SimplexMinimizationModule.m_extra_rot self) pos_x pos_y mag merit])
  /\ (forall l pos_x pos_y mag p e p',
        SimplexMinimizationModule._objective self inp l (pos_x, pos_y, mag) p
        = (Raise e, p') ->
        SimplexMinimizationModule.m_flux_position p'
        = SimplexMinimizationModule.m_flux_position p
        /\ (SimplexMinimizationModule.m_res_out p' = SimplexMinimizationModule.m_res_out p
            \/ exists im_res,
                 trial_residual self inp l pos_x pos_y mag im_res
                 /\ SimplexMinimizationModule.m_res_out p'
                    = SimplexMinimizationModule.m_res_out p ++ [im_res]))
  /\ (forall l pos_x pos_y mag p im_res,
        trial_residual self inp l pos_x pos_y mag im_res ->
        SimplexMinimizationModule.m_merit self = "hessian"%string
        \/ SimplexMinimizationModule.m_merit self = "sum"%string ->
        exists merit p',
          SimplexMinimizationModule._objective self inp l (pos_x, pos_y, mag) p
          = (Ok merit, p'))
  /\ (forall maxfev simplex evaluations p,
        SimplexMinimizationModule.run self inp maxfev simplex = (Ok evaluations, p) ->
        exists l,
          SimplexMinimizationModule.prepare self inp = Ok l
          /\ SimplexMinimizationModule.m_flux_position p
             = map (record_of_evaluation self inp l) evaluations
          /\ Forall2 (fun e im_res =>
                        trial_residual self inp l (fst (fst (fst e))) (snd (fst (fst e)))
                          (snd (fst e)) im_res
                        /\ trial_merit self l im_res (snd e))
                     evaluations (SimplexMinimizationModule.m_res_out p)
          /\ SimplexMinimizationModule.best_fit p
             = last (map (record_of_evaluation self inp l) evaluations)).
Proof.
  split; [|split; [|split]].
  - intros l pos_x pos_y mag p merit p' Hobj. by apply objective_trial.
  - intros l pos_x pos_y mag p e p' Hobj. by eapply objective_fails.
  - intros l pos_x pos_y mag p im_res Hres Hmerit.
    apply residual_trial in Hres. by eapply objective_returns.
  - intros maxfev simplex evaluations p. unfold SimplexMinimizationModule.run.
    destruct (SimplexMinimizationModule.prepare self inp) as [l|e]; [|done].
    intros (new & images & -> & Hflux & Hres & Hall)%minimize_trials. simpl in *.
    exists l. split; [done|]. unfold SimplexMinimizationModule.best_fit.
    rewrite Hflux, Hres. by split.
Qed.

Section RealSimplex.
Local Existing Instance RPixel.float.
Local Existing Instance RPixel.image.
Local Existing Instance RPixel.scaled.
Local Existing Instance RPixel.collaborators.

Lemma C9_trial_records_witness :
  exists evaluations p,
    SimplexMinimizationModule.run simplex_module simplex_inputs 200 three_trials
    = (Ok evaluations, p)
    /\ length evaluations = 3
    /\ length (SimplexMinimizationModule.m_flux_position p) = 3
    /\ length (SimplexMinimizationModule.m_res_out p) = 3.
Proof.
  destruct (SimplexMinimizationModule.run simplex_module simplex_inputs 200 three_trials)
    as [[evaluations|e] p] eqn:Hrun.
  - exists evaluations, p. split; [reflexivity|].
    destruct (proj2 (proj2 (proj2 (C9_trial_records simplex_module simplex_inputs)))
                200 three_trials evaluations p Hrun) as (l & _ & Hflux & Hres & _).
    apply Forall2_length in Hres. rewrite Hflux, <- Hres, length_map.
    cbv -[Rplus Rmult Rminus Rdiv Ropp Rinv RPixel.pow RPixel.fmod RPixel.atan2
          sqrt cos sin PI Q2R IZR INR Rabs Int_part Z.mul Z.opp] in Hrun.
    injection Hrun as <- _. by repeat split.
  - cbv -[Rplus Rmult Rminus Rdiv Ropp Rinv RPixel.pow RPixel.fmod RPixel.atan2
          sqrt cos sin PI Q2R IZR INR Rabs Int_part Z.mul Z.opp] in Hrun.
    discriminate Hrun.
Defined.

(** C9, as stated, fails for an evaluation that raises.  With a function of
    merit that the module does not know, the first evaluation of the run
    injects the fake planet, runs the PSF subtraction and appends the
    residual image, and then raises the ValueError of the merit: the
    residual output holds one image and the flux and position output no
    record. *)
Lemma C9_unknown_merit_leaves_no_record :
  exists l p,
    SimplexMinimizationModule.prepare unknown_merit_module simplex_inputs = Ok l
    /\ SimplexMinimizationModule._objective unknown_merit_module simplex_inputs l
         (fst (SimplexMinimizationModule.position l),
          snd (SimplexMinimizationModule.position l),
          SimplexMinimizationModule.m_magnitude unknown_merit_module)
         {| SimplexMinimizationModule.m_res_out := [];
            SimplexMinimizationModule.m_flux_position := [] |}
       = (Raise SimplexMinimizationModule.bad_merit, p)
    /\ length (SimplexMinimizationModule.m_res_out p) = 1
    /\ SimplexMinimizationModule.m_flux_position p = [].
Proof.
  destruct (SimplexMinimizationModule.prepare unknown_merit_module simplex_inputs)
    as [l|e] eqn:Hprep; [|discriminate Hprep].
  exists l. injection Hprep as <-.
  eexists. split; [reflexivity|]. split; [|split].
  - cbv -[Rplus Rmult Rminus Rdiv Ropp Rinv RPixel.pow RPixel.fmod RPixel.atan2
          sqrt cos sin PI Q2R IZR INR Rabs Int_part Z.mul Z.opp].
    reflexivity.
  - reflexivity.
  - reflexivity.
Qed.

End RealSimplex.

(** * Further properties of the modules *)

(** ** Slices *)

Lemma length_getslice_min {A} (l : list A) (a b : nat) :
  length (getslice l a b) = Nat.min (b - a) (length l - a).
Proof. unfold getslice. by rewrite length_take, length_drop. Qed.

Lemma lookup_getslice_lt {A} (l : list A) (a b i : nat) :
  i < b - a -> getslice l a b !! i = l !! (a + i).
Proof. intros Hi. unfold getslice. by rewrite lookup_take_lt, lookup_drop. Qed.

Lemma filter_none {A} (P : A -> Prop) `{forall x, Decision (P x)} (l : list A) :
  (forall x, x ∈ l -> ~ P x) -> filter P l = [].
Proof.
  induction l as [|x rest IH]; intros Hall; [done|].
  rewrite filter_cons_False by (apply Hall; left).
  apply IH. intros y Hy. apply Hall. by right.
Qed.


Lemma getslice_app {A} (l : list A) (a b c : nat) :
  a <= b -> b <= c -> getslice l a b ++ getslice l b c = getslice l a c.
Proof.
  intros Hab Hbc. unfold getslice.
  replace (c - a) with ((b - a) + (c - b)) by lia.
  rewrite <- take_take_drop, drop_drop. by replace (a + (b - a)) with b by lia.
Qed.

(** ** The list of time stamps *)

Section TimeStampList.
Import TimeStamps TimeStampList.

Lemma insert_Permutation (x : TimeStamp) (l : list TimeStamp) : insert x l ≡ₚ x :: l.
Proof.
  induction l as [|y rest IH]; simpl; [done|].
  destruct (m_time x <=? m_time y)%Z; [done|].
  rewrite IH. apply Permutation_swap.
Qed.

Lemma sorted_Permutation (l : list TimeStamp) : sorted l ≡ₚ l.
Proof.
  induction l as [|x rest IH]; simpl; [done|].
  by rewrite insert_Permutation, IH.
Qed.

Lemma insert_sorted (x : TimeStamp) (l : list TimeStamp) :
  StronglySorted time_le l -> StronglySorted time_le (insert x l).
Proof.
  induction 1 as [|y rest Hrest IH Hy]; simpl.
  - repeat constructor.
  - destruct (Z.leb_spec (m_time x) (m_time y)) as [Hle | Hlt].
    + constructor; [by constructor|].
      constructor; [done|].
      eapply Forall_impl; [exact Hy|]. unfold time_le. simpl. intros. lia.
    + constructor; [done|].
      rewrite insert_Permutation. constructor; [|done]. unfold time_le. lia.
Qed.

Lemma sorted_sorted (l : list TimeStamp) : StronglySorted time_le (sorted l).
Proof.
  induction l as [|x rest IH]; simpl; [constructor|]. by apply insert_sorted.
Qed.

Lemma at_time_insert (t : Z) (x : TimeStamp) (l : list TimeStamp) :
  StronglySorted time_le l ->
  at_time t (insert x l) = at_time t (x :: l).
Proof.
  unfold at_time.
  induction 1 as [|y rest Hrest IH Hy]; simpl; [done|].
  destruct (Z.leb_spec (m_time x) (m_time y)) as [Hle | Hlt]; [done|].
  rewrite !filter_cons in *.
  rewrite IH.
  destruct (decide (m_time y = t)) as [Hyt|]; [|done].
  destruct (decide (m_time x = t)) as [Hxt|]; [lia|done].
Qed.

Lemma at_time_sorted (t : Z) (l : list TimeStamp) : at_time t (sorted l) = at_time t l.
Proof.
  induction l as [|x rest IH]; simpl; [done|].
  rewrite at_time_insert by apply sorted_sorted.
  unfold at_time in *. rewrite !filter_cons. by rewrite IH.
Qed.

Lemma at_time_head (x : TimeStamp) (l1 l2 : list TimeStamp) (y : TimeStamp) :
  StronglySorted time_le (y :: l2) ->
  at_time (m_time x) (x :: l1) = at_time (m_time x) (y :: l2) ->
  time_le y x.
Proof.
  intros Hs Heq.
  assert (Hx : x ∈ at_time (m_time x) (y :: l2)).
  { rewrite <- Heq. unfold at_time. rewrite filter_cons_True by done. left. }
  apply list_elem_of_filter in Hx as [_ Hx].
  apply StronglySorted_inv in Hs as [_ Hall].
  apply elem_of_cons in Hx as [-> | Hx]; [unfold time_le; lia|].
  by eapply Forall_forall in Hall.
Qed.

(** The two properties of a stable sort leave one list only, so that
    [sorted] is the list that any stable sort returns. *)
Lemma sorted_unique (l1 l2 : list TimeStamp) :
  StronglySorted time_le l1 -> StronglySorted time_le l2 ->
  (forall t, at_time t l1 = at_time t l2) -> l1 = l2.
Proof.
  revert l2. induction l1 as [|x r1 IH]; intros l2 H1 H2 Heq.
  - destruct l2 as [|y r2]; [done|].
    specialize (Heq (m_time y)). unfold at_time in Heq.
    rewrite filter_cons_True in Heq by done. done.
  - destruct l2 as [|y r2].
    { specialize (Heq (m_time x)). unfold at_time in Heq.
      rewrite filter_cons_True in Heq by done. done. }
    assert (Hxy : m_time x = m_time y).
    { pose proof (at_time_head x r1 r2 y H2 (Heq _)) as Ha.
      pose proof (at_time_head y r2 r1 x H1 (eq_sym (Heq _))) as Hb.
      unfold time_le in *. lia. }
    pose proof (Heq (m_time x)) as Hhead. unfold at_time in Hhead.
    rewrite filter_cons_True in Hhead by done.
    rewrite (filter_cons_True _ y) in Hhead by done.
    injection Hhead as -> Htail.
    f_equal. apply StronglySorted_inv in H1 as [H1 _]. apply StronglySorted_inv in H2 as [H2 _].
    apply IH; [done|done|]. intros t.
    destruct (decide (m_time y = t)) as [<- | Hne]; [done|].
    specialize (Heq t). unfold at_time in *.
    by rewrite !filter_cons_False in Heq by done.
Qed.

Lemma sorted_entries (l1 l2 : list TimeStamp) (x : TimeStamp) :
  x ∈ sorted (l1 ++ l2) <-> x ∈ l1 \/ x ∈ l2.
Proof. rewrite sorted_Permutation. apply elem_of_app. Qed.

Lemma length_sky_stamps (exp_no : list Z) : length (sky_stamps exp_no) = length exp_no.
Proof. unfold sky_stamps. by rewrite length_imap. Qed.

Lemma sky_stamps_lookup (exp_no : list Z) (k : nat) (x : TimeStamp) :
  sky_stamps exp_no !! k = Some x ->
  is_sky x = true /\ m_index x = IndexInt k /\ k < length exp_no.
Proof.
  unfold sky_stamps. rewrite list_lookup_imap.
  destruct (exp_no !! k) as [item|] eqn:Hk; simpl; [|done].
  intros [= <-]. apply lookup_lt_Some in Hk. done.
Qed.

(** The loop over the science cubes, from cube [i] with the counter at
    [current]. *)
Lemma science_stamps_ok (exp_no : list Z) (nframes : list nat) (i current : nat) :
  i + length exp_no <= length nframes ->
  exists l,
    science_stamps exp_no nframes i current = Ok l
    /\ length l = length exp_no
    /\ forall k x, l !! k = Some x ->
         (is_sky x = false /\ m_sky_or_science x = "SCIENCE"%string)
         /\ exp_no !! k = Some (m_time x)
         /\ m_index x = IndexSlice (current + sum_list (take k (drop i nframes)))
                                   (current + sum_list (take (S k) (drop i nframes))).
Proof.
  revert i current. induction exp_no as [|item rest IH]; intros i current Hlen; simpl in *.
  - exists []. split; [done|]. split; [done|]. intros k x Hk. by rewrite lookup_nil in Hk.
  - destruct (lookup_lt_is_Some_2 nframes i) as [n Hn]; [lia|].
    unfold getitem. rewrite Hn. simpl.
    destruct (IH (S i) (current + n)) as (l & -> & Hl & Hall); [lia|]. simpl.
    eexists. split; [reflexivity|]. split; [simpl; by rewrite Hl|].
    rewrite (drop_S _ _ _ Hn).
    intros [|k] x Hk; simpl in *.
    + injection Hk as <-. simpl. split; [done|]. split; [done|].
      f_equal; lia.
    + destruct (Hall k x Hk) as (Hs & Ht & Hi). split; [done|]. split; [done|].
      rewrite Hi. f_equal; lia.
Qed.

Lemma science_stamps_short (exp_no : list Z) (nframes : list nat) (i current : nat) :
  i <= length nframes -> length nframes < i + length exp_no ->
  science_stamps exp_no nframes i current = Raise IndexError.
Proof.
  revert i current.
  induction exp_no as [|item rest IH]; intros i current Hi Hlen; simpl in *.
  - lia.
  - unfold getitem. destruct (nframes !! i) as [n|] eqn:Hn; simpl; [|done].
    apply lookup_lt_Some in Hn. rewrite IH; [done|lia|lia].
Qed.

Lemma uniform_science_stamps_lookup (dates : list Z) (n k : nat) (x : TimeStamp) :
  uniform_science_stamps dates n !! k = Some x ->
  is_sky x = false /\ dates !! k = Some (m_time x)
  /\ m_index x = IndexSlice (k * n) ((k + 1) * n).
Proof.
  unfold uniform_science_stamps. rewrite list_lookup_imap.
  destruct (dates !! k) as [item|] eqn:Hk; simpl; [|done].
  by intros [= <-].
Qed.

End TimeStampList.

(** X1: [NoddingBackgroundModule._create_time_stamp_list] returns when
    NFRAMES has an entry for every science cube.  The list it leaves in
    [m_time_stamps] holds the entries that were there before the call, one
    entry per sky frame and one per science cube; it is in the order of the
    exposure numbers; and the entries of one exposure number keep their
    order: the earlier entries first, then sky frames, then science cubes,
    each group in the order of the attributes. *)
Theorem time_stamps_sorted_and_stable (m_time_stamps : list TimeStamps.TimeStamp)
    (sky_exp_no science_exp_no : list Z) (nframes : list nat) :
  length science_exp_no <= length nframes ->
  exists ts science,
    NoddingRun._create_time_stamp_list m_time_stamps sky_exp_no science_exp_no nframes
    = Ok ts
    /\ TimeStampList.science_stamps science_exp_no nframes 0 0 = Ok science
    /\ StronglySorted time_le ts
    /\ length ts = length m_time_stamps + length sky_exp_no + length science_exp_no
    /\ forall t,
         at_time t ts
         = at_time t m_time_stamps ++ at_time t (TimeStampList.sky_stamps sky_exp_no)
           ++ at_time t science.
Proof.
  intros Hlen.
  destruct (science_stamps_ok science_exp_no nframes 0 0) as (science & Hs & Hl & _);
    [lia|].
  unfold NoddingRun._create_time_stamp_list. rewrite Hs. simpl.
  eexists _, science. split; [reflexivity|]. split; [done|].
  split; [apply sorted_sorted|]. split.
  - rewrite sorted_Permutation, !length_app, length_sky_stamps. lia.
  - intros t. rewrite at_time_sorted. unfold at_time. by rewrite !filter_app.
Qed.

Lemma time_stamps_sorted_and_stable_witness :
  length night_science_exp_no <= length night_nframes
  /\ exists ts science,
       NoddingRun._create_time_stamp_list nodding_time_stamps
         night_sky_exp_no night_science_exp_no night_nframes = Ok ts
       /\ TimeStampList.science_stamps night_science_exp_no night_nframes 0 0 = Ok science
       /\ StronglySorted time_le ts
       /\ length ts = length nodding_time_stamps + length night_sky_exp_no
                      + length night_science_exp_no
       /\ forall t,
            at_time t ts
            = at_time t nodding_time_stamps
              ++ at_time t (TimeStampList.sky_stamps night_sky_exp_no)
              ++ at_time t science.
Proof.
  split; [simpl; lia|].
  apply (time_stamps_sorted_and_stable nodding_time_stamps
           night_sky_exp_no night_science_exp_no night_nframes).
  simpl. lia.
Defined.

(** X2: the entry that [NoddingBackgroundModule._create_time_stamp_list]
    makes for science cube [k] carries the exposure number [k] of the
    science tag and the slice of the frames of cube [k], which runs from the
    sum of the first [k] entries of NFRAMES to the sum of the first [k + 1]
    entries; with fewer NFRAMES entries than exposure numbers the method
    raises an IndexError. *)
Theorem science_entries_index_their_cubes (science_exp_no : list Z) (nframes : list nat) :
  (length science_exp_no <= length nframes ->
   exists science,
     TimeStampList.science_stamps science_exp_no nframes 0 0 = Ok science
     /\ length science = length science_exp_no
     /\ forall k x, science !! k = Some x ->
          science_exp_no !! k = Some (TimeStamps.m_time x)
          /\ TimeStamps.m_sky_or_science x = "SCIENCE"%string
          /\ TimeStamps.m_index x
             = TimeStamps.IndexSlice (cube_start nframes k) (cube_start nframes (S k)))
  /\ (length nframes < length science_exp_no ->
      forall m_time_stamps sky_exp_no,
        NoddingRun._create_time_stamp_list m_time_stamps sky_exp_no science_exp_no nframes
        = Raise IndexError).
Proof.
  split.
  - intros Hlen.
    destruct (science_stamps_ok science_exp_no nframes 0 0) as (science & Hs & Hl & Hall);
      [lia|].
    exists science. split; [done|]. split; [done|].
    intros k x Hk. destruct (Hall k x Hk) as ((_ & Hsky) & Ht & Hi).
    split; [done|]. split; [done|]. by rewrite Hi.
  - intros Hlen m_time_stamps sky_exp_no.
    unfold NoddingRun._create_time_stamp_list.
    rewrite science_stamps_short; [done|lia|lia].
Qed.

Lemma science_entries_index_their_cubes_witness :
  length night_science_exp_no <= length night_nframes
  /\ exists science,
       TimeStampList.science_stamps night_science_exp_no night_nframes 0 0 = Ok science
       /\ length science = length night_science_exp_no
       /\ forall k x, science !! k = Some x ->
            night_science_exp_no !! k = Some (TimeStamps.m_time x)
            /\ TimeStamps.m_sky_or_science x = "SCIENCE"%string
            /\ TimeStamps.m_index x
               = TimeStamps.IndexSlice (cube_start night_nframes k)
                                       (cube_start night_nframes (S k)).
Proof.
  split; [simpl; lia|].
  apply (science_entries_index_their_cubes night_science_exp_no night_nframes).
  simpl. lia.
Defined.

(** ** The runs of the sky subtraction *)

Section SkyRun.
Import TimeStamps TimeStampList.
Context {img : Type} `{Image img}.

(** What the appends of a sequence of blocks leave in the data base. *)
Lemma append_blocks (image_out_tag : string) (blocks : list (list img))
    (db : gmap string (list img)) :
  let db' := foldl (fun d block => DataBase.append image_out_tag block d) db blocks in
  db' !! image_out_tag
  = match blocks with
    | [] => db !! image_out_tag
    | _ :: _ => Some (DataBase.get_all image_out_tag db ++ concat blocks)
    end
  /\ forall tag, tag <> image_out_tag -> db' !! tag = db !! tag.
Proof.
  revert db. induction blocks as [|block rest IH]; intros db; cbv zeta; [done|].
  cbn [foldl]. destruct (IH (DataBase.append image_out_tag block db)) as [Hout Hother].
  split.
  - rewrite Hout. unfold DataBase.append, DataBase.get_all.
    destruct rest as [|block' rest].
    + rewrite lookup_insert_eq. simpl. by rewrite app_nil_r.
    + rewrite lookup_insert_eq. simpl. by rewrite <- app_assoc.
  - intros tag Htag. rewrite (Hother tag Htag). unfold DataBase.append.
    by rewrite lookup_insert_ne.
Qed.

(** After the data of the output tag were deleted. *)
Lemma output_holds_appended (image_out_tag : string) (blocks : list (list img))
    (db : gmap string (list img)) :
  output_holds db
    (foldl (fun d block => DataBase.append image_out_tag block d)
           (DataBase.del_all_data image_out_tag db) blocks)
    image_out_tag blocks.
Proof.
  destruct (append_blocks image_out_tag blocks (DataBase.del_all_data image_out_tag db))
    as [Hout Hother].
  unfold DataBase.del_all_data, DataBase.get_all in *. rewrite lookup_delete_eq in Hout.
  split.
  - by destruct blocks.
  - intros tag Htag. rewrite (Hother tag Htag). by rewrite lookup_delete_ne.
Qed.

(** The loop of [run] when every science entry has a slice and a sky
    frame, the output tag being neither input tag: every science cube is
    appended, minus its sky frame. *)
Lemma subtract_sky_blocks (calc : nat -> list img -> result (option img))
    (sky_in_tag science_in_tag image_out_tag : string) (sky science : list img)
    (R : nat * TimeStamp -> list img -> Prop)
    (entries : list TimeStamp) (i : nat) (db : gmap string (list img)) :
  image_out_tag <> sky_in_tag -> image_out_tag <> science_in_tag ->
  db !! sky_in_tag = Some sky -> db !! science_in_tag = Some science ->
  (forall k x, entries !! k = Some x -> is_sky x = false ->
     exists a b f, m_index x = IndexSlice a b /\ calc (i + k) sky = Ok (Some f)
                   /\ R (i + k, x) (stack_sub (getslice science a b) f)) ->
  exists blocks,
    subtract_sky calc sky_in_tag science_in_tag image_out_tag i entries db
    = (Ok tt, foldl (fun d block => DataBase.append image_out_tag block d) db blocks)
    /\ Forall2 R (filter (fun p => is_sky (snd p) = false)
                         (imap (fun k x => (i + k, x)) entries)) blocks.
Proof.
  intros Hsky_tag Hscience_tag.
  revert i db. induction entries as [|x rest IH]; intros i db Hsky Hscience Hall; simpl.
  - exists []. split; [done|constructor].
  - assert (Hrest : forall k y, rest !! k = Some y -> is_sky y = false ->
       exists a b f, m_index y = IndexSlice a b /\ calc (S i + k) sky = Ok (Some f)
                     /\ R (S i + k, y) (stack_sub (getslice science a b) f)).
    { intros k y Hk Hy. destruct (Hall (S k) y Hk Hy) as (a & b & f & Hi & Hc & HR).
      exists a, b, f. by replace (S i + k) with (i + S k) by lia. }
    assert (Himap : imap ((fun k y => (i + k, y)) ∘ S) rest
                    = imap (fun k y => (S i + k, y)) rest).
    { apply imap_ext. intros k y _. simpl. f_equal. lia. }
    rewrite filter_cons. simpl. rewrite Himap.
    destruct (is_sky x) eqn:Hx.
    + destruct (IH (S i) db Hsky Hscience Hrest) as (blocks & -> & Hb).
      exists blocks. split; [done|].
      destruct (decide (true = false)); [done|]. done.
    + destruct (Hall 0 x eq_refl Hx) as (a & b & f & Hi & Hc & HR).
      rewrite Nat.add_0_r in Hc, HR.
      unfold sky_through_port, DataBase.stack. rewrite Hsky, Hc, Hscience.
      cbn [mbind result_bind]. rewrite Hi. cbn [science_cube].
      destruct (IH (S i) (DataBase.append image_out_tag
                            (stack_sub (getslice science a b) f) db))
        as (blocks & -> & Hb).
      { unfold DataBase.append. by rewrite lookup_insert_ne. }
      { unfold DataBase.append. by rewrite lookup_insert_ne. }
      { exact Hrest. }
      exists (stack_sub (getslice science a b) f :: blocks).
      split; [done|].
      destruct (decide (false = false)); [|done].
      rewrite Nat.add_0_r. by constructor.
Qed.

Lemma mode_resolves (ts : list TimeStamp) (sky : list img) (m_mode : string)
    (idx depth : nat) :
  m_mode ∈ ["next"; "previous"; "both"]%string ->
  resolves_sky ts sky (@calc_sky_frame img _) idx depth ->
  exists f, calc_sky_frame ts sky idx m_mode depth = Ok (Some f)
            /\ sky_of_mode ts sky m_mode idx f.
Proof.
  intros Hmode (jp & jn & fp & fn & Hp & Hfp & Hn & Hfn & Hnext & Hprev & Hboth & _).
  unfold sky_of_mode.
  repeat (apply elem_of_cons in Hmode as [-> | Hmode]);
    [| | |by apply elem_of_nil in Hmode]; eexists; (split; [eassumption|]);
    exists jp, jn, fp, fn; done.
Qed.

(** The loop of [run] over the sorted list of the sky entries and of
    science entries with slices, after the data of the output tag were
    deleted. *)
Lemma run_loop_sorted (sky_exp : list Z) (science_ : list TimeStamp)
    (sky_in_tag science_in_tag image_out_tag m_mode : string) (depth : nat)
    (sky science : list img) (db : gmap string (list img)) :
  m_mode ∈ ["next"; "previous"; "both"]%string ->
  sky_exp <> [] -> length sky_exp <= length sky ->
  (forall x, x ∈ science_ -> is_sky x = false /\ exists a b, m_index x = IndexSlice a b) ->
  image_out_tag <> sky_in_tag -> image_out_tag <> science_in_tag ->
  db !! sky_in_tag = Some sky -> db !! science_in_tag = Some science ->
  let ts := sorted (sky_stamps sky_exp ++ science_) in
  exists blocks db',
    subtract_sky (fun i sky => calc_sky_frame ts sky i m_mode (S (S depth)))
      sky_in_tag science_in_tag image_out_tag 0 ts
      (DataBase.del_all_data image_out_tag db)
    = (Ok tt, db')
    /\ output_holds db db' image_out_tag blocks
    /\ Forall2 (cube_minus_sky ts sky science m_mode) (science_positions ts) blocks.
Proof.
  intros Hmode Hsky Hlen Hscience Hsky_tag Hscience_tag Hdbsky Hdbscience ts.
  assert (Hindexed : sky_entries_indexed ts sky).
  { intros j x Hj Hx. apply list_elem_of_lookup_2 in Hj.
    apply sorted_entries in Hj as [Hj | Hj].
    - apply list_elem_of_lookup_1 in Hj as [k Hk].
      apply sky_stamps_lookup in Hk as (_ & Hi & Hk).
      destruct (lookup_lt_is_Some_2 sky k) as [frame Hf]; [lia|].
      by exists k, frame.
    - destruct (Hscience x Hj) as [Hno _]. congruence. }
  assert (Hsome : existsb is_sky ts = true).
  { apply existsb_exists. destruct sky_exp as [|item rest]; [done|].
    exists {| m_time := item; m_sky_or_science := "SKY"; m_index := IndexInt 0 |}.
    split; [|reflexivity].
    apply list_elem_of_In, sorted_entries. left. unfold sky_stamps. simpl. left. }
  destruct (subtract_sky_blocks
              (fun i sky => calc_sky_frame ts sky i m_mode (S (S depth)))
              sky_in_tag science_in_tag image_out_tag sky science
              (cube_minus_sky ts sky science m_mode) ts 0
              (DataBase.del_all_data image_out_tag db))
    as (blocks & Hrun & Hblocks); [done|done| | | |].
  - unfold DataBase.del_all_data. rewrite lookup_delete_ne by done. exact Hdbsky.
  - unfold DataBase.del_all_data. rewrite lookup_delete_ne by done. exact Hdbscience.
  - intros k x Hk Hx.
    assert (Hin : x ∈ ts) by by eapply list_elem_of_lookup_2.
    apply sorted_entries in Hin as [Hin | Hin].
    { apply list_elem_of_lookup_1 in Hin as [k' Hk'].
      apply sky_stamps_lookup in Hk' as (Hs & _). congruence. }
    destruct (Hscience x Hin) as (_ & a & b & Hab).
    destruct (mode_resolves ts sky m_mode k (S (S depth)) Hmode) as (f & Hf & Hof).
    { apply calc_resolves; [done|done|]. apply lookup_lt_Some in Hk. lia. }
    exists a, b, f. split; [done|]. split; [done|].
    exists a, b, f. done.
  - eexists blocks, _. split; [exact Hrun|]. split; [|exact Hblocks].
    apply output_holds_appended.
Qed.

(** The science entries of a sorted list are its entries that are not sky
    entries. *)
Lemma science_positions_entries (ts : list TimeStamp) :
  (science_positions ts).*2 = filter (fun x => is_sky x = false) ts.
Proof.
  unfold science_positions. generalize 0 as i.
  assert (Hgen : forall i, (filter (fun p : nat * TimeStamp => is_sky (snd p) = false)
                              (imap (fun k x => (i + k, x)) ts)).*2
                           = filter (fun x => is_sky x = false) ts).
  { induction ts as [|x rest IH]; intros i; simpl; [done|].
    rewrite !filter_cons. simpl.
    assert (Himap : imap ((fun k y => (i + k, y)) ∘ S) rest
                    = imap (fun k y => (S i + k, y)) rest).
    { apply imap_ext. intros k y _. simpl. f_equal. lia. }
    rewrite Himap.
    destruct (decide (is_sky x = false));
      [rewrite fmap_cons; f_equal|]; apply IH. }
  intros _. apply (Hgen 0).
Qed.

(** The number of frames of the blocks of science cubes. *)
Lemma length_blocks (ts : list TimeStamp) (sky science : list img) (m_mode : string)
    (ps : list (nat * TimeStamp)) (blocks : list (list img)) :
  Forall2 (cube_minus_sky ts sky science m_mode) ps blocks ->
  length (concat blocks)
  = sum_list_with (fun x => match m_index x with
                            | IndexSlice a b => length (getslice science a b)
                            | IndexInt _ => 0
                            end) (ps.*2).
Proof.
  induction 1 as [|p block ps blocks (a & b & f & Hi & _ & ->) _ IH]; simpl; [done|].
  rewrite length_app, IH, Hi. unfold stack_sub. by rewrite length_map.
Qed.

End SkyRun.

Lemma nodding_run_blocks {img : Type} `{Image img}
    (self : NoddingRun.t) (depth : nat) (sky_exp_no science_exp_no : list Z)
    (nframes : list nat) (sky science : list img) (db : gmap string (list img)) :
  NoddingRun.m_mode self ∈ ["next"; "previous"; "both"]%string ->
  sky_exp_no <> [] -> length sky_exp_no <= length sky ->
  length science_exp_no <= length nframes ->
  2 <= depth ->
  NoddingRun.m_image_out_tag self <> NoddingRun.m_sky_in_tag self ->
  NoddingRun.m_image_out_tag self <> NoddingRun.m_science_in_tag self ->
  db !! NoddingRun.m_sky_in_tag self = Some sky ->
  db !! NoddingRun.m_science_in_tag self = Some science ->
  exists science_ blocks db',
    let ts := TimeStampList.sorted (TimeStampList.sky_stamps sky_exp_no ++ science_) in
    TimeStampList.science_stamps science_exp_no nframes 0 0 = Ok science_
    /\ (forall x, x ∈ science_ -> TimeStamps.is_sky x = false)
    /\ NoddingRun._create_time_stamp_list [] sky_exp_no science_exp_no nframes = Ok ts
    /\ NoddingRun.run self depth sky_exp_no science_exp_no nframes db = (Ok tt, db')
    /\ output_holds db db' (NoddingRun.m_image_out_tag self) blocks
    /\ Forall2 (cube_minus_sky ts sky science (NoddingRun.m_mode self))
         (science_positions ts) blocks.
Proof.
  intros Hmode Hsky Hlen Hn Hdepth Hsky_tag Hscience_tag Hdbsky Hdbscience.
  destruct depth as [|[|depth]]; [lia|lia|].
  destruct (science_stamps_ok science_exp_no nframes 0 0) as (science_ & Hs & _ & Hall);
    [lia|].
  unfold NoddingRun.run, NoddingRun._create_time_stamp_list. rewrite Hs. simpl.
  destruct (run_loop_sorted sky_exp_no science_ (NoddingRun.m_sky_in_tag self)
              (NoddingRun.m_science_in_tag self) (NoddingRun.m_image_out_tag self)
              (NoddingRun.m_mode self) depth sky science db)
    as (blocks & db' & Hrun & Hout & Hblocks); [done|done|done| |done|done|done|done|].
  - intros x [k Hk]%list_elem_of_lookup_1.
    destruct (Hall k x Hk) as ((Hx & _) & _ & Hi). split; [done|]. by eexists _, _.
  - exists science_, blocks, db'. split; [done|]. split.
    { intros x [k Hk]%list_elem_of_lookup_1. by destruct (Hall k x Hk) as ((Hx & _) & _). }
    split; [reflexivity|]. split; [exact Hrun|]. split; [exact Hout|exact Hblocks].
Qed.



Section SkyRunCount.
Import TimeStamps TimeStampList.
Context {img : Type} `{Image img}.

Lemma science_stamps_total (science : list img) (exp_no : list Z) (nframes : list nat)
    (i current : nat) (l : list TimeStamp) :
  science_stamps exp_no nframes i current = Ok l ->
  current + sum_list (take (length exp_no) (drop i nframes)) <= length science ->
  sum_list_with (fun x => match m_index x with
                          | IndexSlice a b => length (getslice science a b)
                          | IndexInt _ => 0
                          end) l
  = sum_list (take (length exp_no) (drop i nframes)).
Proof.
  revert i current l. induction exp_no as [|item rest IH]; intros i current l Hl Hsum;
    simpl in Hl.
  - by injection Hl as <-.
  - unfold getitem in Hl. destruct (nframes !! i) as [n|] eqn:Hn; simpl in Hl; [|done].
    destruct (science_stamps rest nframes (S i) (current + n)) as [tl|] eqn:Htl;
      simpl in Hl; [|done].
    injection Hl as <-. rewrite (drop_S _ _ _ Hn) in *. simpl in *.
    rewrite (IH _ _ _ Htl) by lia.
    rewrite length_getslice_min. lia.
Qed.

Lemma filter_science_sorted (sky_exp : list Z) (science_ : list TimeStamp) :
  (forall x, x ∈ science_ -> is_sky x = false) ->
  filter (fun x => is_sky x = false) (sorted (sky_stamps sky_exp ++ science_))
  ≡ₚ science_.
Proof.
  intros Hscience. rewrite sorted_Permutation, filter_app.
  replace (filter (fun x => is_sky x = false) (sky_stamps sky_exp)) with (@nil TimeStamp).
  - simpl. induction science_ as [|x rest IH]; [done|].
    rewrite filter_cons_True by (apply Hscience; left).
    f_equiv. apply IH. intros y Hy. apply Hscience. by right.
  - symmetry. apply filter_none.
    intros x [k Hk]%list_elem_of_lookup_1.
    apply sky_stamps_lookup in Hk as (Hs & _). congruence.
Qed.

End SkyRunCount.

(** X4: [NoddingBackgroundModule.run] with an output tag that is neither
    input tag keeps the number of frames: when the science tag holds the
    frames that NFRAMES counts for its cubes, the output tag holds as many
    frames after the run. *)
Theorem nodding_run_frame_count {img : Type} `{Image img}
    (self : NoddingRun.t) (depth : nat) (sky_exp_no science_exp_no : list Z)
    (nframes : list nat) (sky science : list img) (db : gmap string (list img)) :
  NoddingRun.m_mode self ∈ ["next"; "previous"; "both"]%string ->
  sky_exp_no <> [] -> length sky_exp_no <= length sky ->
  length science_exp_no <= length nframes ->
  sum_list (take (length science_exp_no) nframes) <= length science ->
  2 <= depth ->
  NoddingRun.m_image_out_tag self <> NoddingRun.m_sky_in_tag self ->
  NoddingRun.m_image_out_tag self <> NoddingRun.m_science_in_tag self ->
  db !! NoddingRun.m_sky_in_tag self = Some sky ->
  db !! NoddingRun.m_science_in_tag self = Some science ->
  exists blocks db',
    NoddingRun.run self depth sky_exp_no science_exp_no nframes db = (Ok tt, db')
    /\ output_holds db db' (NoddingRun.m_image_out_tag self) blocks
    /\ length (concat blocks) = sum_list (take (length science_exp_no) nframes).
Proof.
  intros Hmode Hsky Hlen Hn Hsum Hdepth Hsky_tag Hscience_tag Hdbsky Hdbscience.
  destruct (nodding_run_blocks self depth sky_exp_no science_exp_no nframes sky science
              db Hmode Hsky Hlen Hn Hdepth Hsky_tag Hscience_tag Hdbsky Hdbscience)
    as (science_ & blocks & db' & Hs & Hscience & _ & Hrun & Hout & Hblocks).
  exists blocks, db'. split; [done|]. split; [done|].
  rewrite (length_blocks _ _ _ _ _ _ Hblocks), science_positions_entries.
  rewrite (filter_science_sorted sky_exp_no science_ Hscience).
  by apply (science_stamps_total science _ _ 0 0).
Qed.

Lemma nodding_run_frame_count_witness :
  exists blocks db',
    NoddingRun.run (H := QPixel.image) night_module 1000 night_sky_exp_no
      night_science_exp_no night_nframes night_db
    = (Ok tt, db')
    /\ output_holds night_db db' "im_sub" blocks
    /\ length (concat blocks) = sum_list (take (length night_science_exp_no) night_nframes).
Proof.
  apply (nodding_run_frame_count (H := QPixel.image) night_module 1000 night_sky_exp_no
           night_science_exp_no night_nframes nodding_sky night_science night_db).
  - set_solver.
  - done.
  - simpl. lia.
  - simpl. lia.
  - simpl. lia.
  - lia.
  - done.
  - done.
  - reflexivity.
  - reflexivity.
Defined.

(** X5: the failures of [NoddingBackgroundModule.run], whatever its tags.
    With fewer NFRAMES entries than science cubes the run raises an
    IndexError while the list of time stamps is made, and the data base is
    as it was.  With science cubes but no sky frame the run raises the
    ValueError of [calc_sky_frame] at the first cube, after the data of the
    output tag were deleted. *)
Theorem nodding_run_failures {img : Type} `{Image img}
    (self : NoddingRun.t) (depth : nat) (sky_exp_no science_exp_no : list Z)
    (nframes : list nat) (db : gmap string (list img)) :
  (length nframes < length science_exp_no ->
   NoddingRun.run self depth sky_exp_no science_exp_no nframes db
   = (Raise IndexError, db))
  /\ (length science_exp_no <= length nframes -> science_exp_no <> [] ->
      NoddingRun.run self depth [] science_exp_no nframes db
      = (Raise TimeStamps.no_sky, delete (NoddingRun.m_image_out_tag self) db)).
Proof.
  split.
  - intros Hlen. unfold NoddingRun.run, NoddingRun._create_time_stamp_list.
    rewrite science_stamps_short; [done|lia|lia].
  - intros Hlen Hne.
    destruct (science_stamps_ok science_exp_no nframes 0 0) as (science_ & Hs & Hl & Hall);
      [lia|].
    unfold NoddingRun.run, NoddingRun._create_time_stamp_list. rewrite Hs. simpl.
    assert (Hnosky : forall x, x ∈ TimeStampList.sorted science_ ->
                               TimeStamps.is_sky x = false).
    { intros x Hx. rewrite sorted_Permutation in Hx.
      apply list_elem_of_lookup_1 in Hx as [k Hk].
      by destruct (Hall k x Hk) as ((Hx & _) & _). }
    assert (Hex : existsb TimeStamps.is_sky (TimeStampList.sorted science_) = false).
    { apply not_true_is_false. intros (x & Hx & Hs')%existsb_exists.
      apply list_elem_of_In, Hnosky in Hx. congruence. }
    destruct (TimeStampList.sorted science_) as [|x rest] eqn:Hsorted.
    { apply (f_equal length) in Hsorted.
      assert (Hp := sorted_Permutation science_). apply Permutation_length in Hp.
      destruct science_exp_no; [done|]. simpl in *. lia. }
    simpl. rewrite (Hnosky x) by left.
    unfold TimeStampList.sky_through_port, NoddingBackgroundModule.calc_sky_frame,
      TimeStamps.calc_sky_frame.
    rewrite Hex. simpl. unfold DataBase.del_all_data.
    by destruct (delete _ db !! _).
Qed.

Lemma nodding_run_failures_witness :
  NoddingRun.run (H := QPixel.image) night_module 1000 night_sky_exp_no
    night_science_exp_no [2] night_db
  = (Raise IndexError, night_db)
  /\ NoddingRun.run (H := QPixel.image) night_module 1000 [] night_science_exp_no
       night_nframes night_db
     = (Raise TimeStamps.no_sky, delete "im_sub"%string night_db).
Proof.
  split.
  - apply (nodding_run_failures (H := QPixel.image) night_module 1000 night_sky_exp_no
             night_science_exp_no [2] night_db).
    simpl. lia.
  - apply (nodding_run_failures (H := QPixel.image) night_module 1000 night_sky_exp_no
             night_science_exp_no night_nframes night_db).
    + simpl. lia.
    + done.
Defined.

Lemma uniform_total {img : Type} (science : list img) (dates : list Z) (n i : nat) :
  (i + length dates) * n <= length science ->
  sum_list_with (fun x => match TimeStamps.m_index x with
                          | TimeStamps.IndexSlice a b => length (getslice science a b)
                          | TimeStamps.IndexInt _ => 0
                          end)
    (imap (fun k item =>
             {| TimeStamps.m_time := item; TimeStamps.m_sky_or_science := "SCIENCE";
                TimeStamps.m_index := TimeStamps.IndexSlice ((i + k) * n) ((i + k + 1) * n) |})
          dates)
  = length dates * n.
Proof.
  revert i. induction dates as [|item rest IH]; intros i Hlen; simpl in *; [done|].
  rewrite length_getslice_min.
  erewrite imap_ext; [rewrite (IH (S i)) by lia|].
  - nia.
  - intros k x _. simpl. f_equal. f_equal; f_equal; lia.
Qed.

(** X6: [SkySubtraction.run] with at least one sky frame and an output tag
    that is neither input tag, for every mode string given to the
    constructor: the run returns, and the output tag holds the science cubes
    in the order of their entries in the sorted list of time stamps, the
    frames of each cube minus the sky frame that the mode of the object
    selects for the position of the cube.  The cubes are taken to have
    NAXIS3 frames each: when the science tag holds that many frames for
    every exposure number, the output holds as many. *)
Theorem sky_subtraction_run_subtracts_sky {img : Type} `{Image img}
    (mode : string) (self : SkySubtractionRun.t) (depth : nat)
    (sky_dates science_dates : list Z)
    (naxis3 : nat) (sky science : list img) (db : gmap string (list img)) :
  SkySubtraction.__init__ mode = Ok (SkySubtractionRun.m_mode self) ->
  sky_dates <> [] -> length sky_dates <= length sky ->
  2 <= depth ->
  SkySubtractionRun.m_science_out_tag self <> SkySubtractionRun.m_sky_in_tag self ->
  SkySubtractionRun.m_science_out_tag self <> SkySubtractionRun.m_science_in_tag self ->
  db !! SkySubtractionRun.m_sky_in_tag self = Some sky ->
  db !! SkySubtractionRun.m_science_in_tag self = Some science ->
  let ts := SkySubtractionRun._create_time_stamp_list [] sky_dates science_dates naxis3 in
  exists blocks db',
    SkySubtractionRun.run self depth sky_dates science_dates naxis3 db = (Ok tt, db')
    /\ output_holds db db' (SkySubtractionRun.m_science_out_tag self) blocks
    /\ Forall2 (cube_minus_sky ts sky science (SkySubtractionRun.m_mode self))
         (science_positions ts) blocks
    /\ (length science_dates * naxis3 <= length science ->
        length (concat blocks) = length science_dates * naxis3).
Proof.
  intros Hinit Hsky Hlen Hdepth Hsky_tag Hscience_tag Hdbsky Hdbscience ts.
  destruct depth as [|[|depth]]; [lia|lia|].
  assert (Hmode : SkySubtractionRun.m_mode self ∈ ["next"; "previous"; "both"]%string).
  { unfold SkySubtraction.__init__ in Hinit.
    destruct (bool_decide _) eqn:Hd; injection Hinit as <-.
    - by apply bool_decide_eq_true in Hd.
    - set_solver. }
  assert (Hscience : forall x,
            x ∈ TimeStampList.uniform_science_stamps science_dates naxis3 ->
            TimeStamps.is_sky x = false
            /\ exists a b, TimeStamps.m_index x = TimeStamps.IndexSlice a b).
  { intros x [k Hk]%list_elem_of_lookup_1.
    apply uniform_science_stamps_lookup in Hk as (Hx & _ & Hi).
    split; [done|]. by eexists _, _. }
  destruct (run_loop_sorted sky_dates
              (TimeStampList.uniform_science_stamps science_dates naxis3)
              (SkySubtractionRun.m_sky_in_tag self) (SkySubtractionRun.m_science_in_tag self)
              (SkySubtractionRun.m_science_out_tag self) (SkySubtractionRun.m_mode self)
              depth sky science db Hmode Hsky Hlen Hscience Hsky_tag Hscience_tag
              Hdbsky Hdbscience)
    as (blocks & db' & Hrun & Hout & Hblocks).
  exists blocks, db'. split; [exact Hrun|]. split; [exact Hout|]. split; [exact Hblocks|].
  intros Htotal.
  rewrite (length_blocks _ _ _ _ _ _ Hblocks), science_positions_entries.
  unfold ts, SkySubtractionRun._create_time_stamp_list. simpl.
  rewrite (filter_science_sorted sky_dates _ (fun x Hx => proj1 (Hscience x Hx))).
  unfold TimeStampList.uniform_science_stamps.
  rewrite <- (uniform_total science science_dates naxis3 0) by (simpl; lia).
  done.
Qed.

Lemma sky_subtraction_run_subtracts_sky_witness :
  let ts := SkySubtractionRun._create_time_stamp_list [] night_sky_exp_no
              night_science_exp_no 2 in
  exists blocks db',
    SkySubtractionRun.run (H := QPixel.image) (night_sky_subtraction "next") 1000
      night_sky_exp_no night_science_exp_no 2 night_db
    = (Ok tt, db')
    /\ output_holds night_db db' "im_sub" blocks
    /\ Forall2 (cube_minus_sky (H := QPixel.image) ts nodding_sky night_science "next")
         (science_positions ts) blocks
    /\ (length night_science_exp_no * 2 <= length night_science ->
        length (concat blocks) = length night_science_exp_no * 2).
Proof.
  apply (sky_subtraction_run_subtracts_sky (H := QPixel.image) "nearest"
           (night_sky_subtraction "next") 1000
           night_sky_exp_no night_science_exp_no 2 nodding_sky night_science night_db).
  - reflexivity.
  - done.
  - simpl. lia.
  - lia.
  - done.
  - done.
  - reflexivity.
  - reflexivity.
Defined.

Section SortedOrder.
Import TimeStamps TimeStampList.







End SortedOrder.



(** ** MeanSkyCubes *)

Lemma mean_sky_loop {img : Type} `{Image img} (sky_in : list img) (naxis3 : list nat)
    (current_frame : nat) (out : list img) :
  foldl (fun '(current_frame, out) frame_number =>
           let mean_frame :=
             img_mean (getslice sky_in current_frame (current_frame + frame_number)) in
           (current_frame + frame_number, out ++ [mean_frame]))
        (current_frame, out) naxis3
  = (current_frame + sum_list naxis3,
     out ++ PCABackgroundPreparationModule.cube_means sky_in naxis3 current_frame).
Proof.
  revert current_frame out. induction naxis3 as [|n rest IH]; intros c out; simpl.
  - by rewrite Nat.add_0_r, app_nil_r.
  - rewrite IH, <- app_assoc. simpl. f_equal. lia.
Qed.

(** X8: [MeanSkyCubes.run] writes one frame per entry of NAXIS3: frame [k]
    of the output is the mean of the frames of sky cube [k], the cubes being
    laid out one after the other in the input with the lengths of NAXIS3.
    These are the cube means that the first loop of
    [PCABackgroundPreparationModule.run] computes from the same input. *)
Theorem mean_sky_cubes_one_mean_per_cube {img : Type} `{Image img}
    (naxis3 : list nat) (sky_in : list img) :
  MeanSkyCubes.run naxis3 sky_in
  = PCABackgroundPreparationModule.cube_means sky_in naxis3 0
  /\ length (MeanSkyCubes.run naxis3 sky_in) = length naxis3
  /\ forall k, k < length naxis3 ->
       MeanSkyCubes.run naxis3 sky_in !! k
       = Some (img_mean (cube_frames sky_in naxis3 k)).
Proof.
  assert (Hrun : MeanSkyCubes.run naxis3 sky_in
                 = PCABackgroundPreparationModule.cube_means sky_in naxis3 0).
  { unfold MeanSkyCubes.run. by rewrite mean_sky_loop. }
  split; [done|]. rewrite Hrun. split.
  - clear Hrun. generalize 0 as c.
    induction naxis3 as [|n rest IH]; intros c; simpl; [done|].
    f_equal. apply IH.
  - intros k Hk. by rewrite cube_means_lookup_from.
Qed.

(** ** MeanBackgroundSubtractionModule *)

Lemma flat_map_ext_elem {A B} (f g : A -> list B) (l : list A) :
  (forall a, a ∈ l -> f a = g a) -> flat_map f l = flat_map g l.
Proof.
  induction l as [|a rest IH]; intros Hall; simpl; [done|].
  rewrite (Hall a) by left. f_equal. apply IH. intros b Hb. apply Hall. by right.
Qed.

Section MeanScalar.
Context {img : Type} `{Image img}.
Import MeanBackgroundSubtractionModule.

Variable tin tout : string.
Variable frames : list img.
Hypothesis Hne : tin <> tout.

Lemma append_insert (db : gmap string (list img)) (acc x : list img) :
  DataBase.append tout x (<[tout := acc]> db) = <[tout := acc ++ x]> db.
Proof.
  unfold DataBase.append, DataBase.get_all.
  by rewrite lookup_insert_eq, insert_insert_eq.
Qed.

Lemma get_all_in (db : gmap string (list img)) (x : list img) :
  db !! tin = Some frames -> DataBase.get_all tin (<[tout := x]> db) = frames.
Proof.
  intros Hin. unfold DataBase.get_all. by rewrite lookup_insert_ne, Hin.
Qed.

Lemma foldl_append (g : list img -> nat -> list img) (l : list nat)
    (db : gmap string (list img)) (acc : list img) :
  db !! tin = Some frames ->
  foldl (fun db i => DataBase.append tout (g (DataBase.get_all tin db) i) db)
        (<[tout := acc]> db) l
  = <[tout := acc ++ flat_map (g frames) l]> db.
Proof.
  intros Hin. revert acc. induction l as [|i rest IH]; intros acc; simpl.
  - by rewrite app_nil_r.
  - rewrite get_all_in by done.
    rewrite append_insert, IH. by rewrite <- app_assoc.
Qed.

End MeanScalar.

Lemma lookup_getslice_full {A} (l : list A) (a b i : nat) :
  getslice l a b !! i = if i <? b - a then l !! (a + i) else None.
Proof.
  unfold getslice. destruct (Nat.ltb_spec i (b - a)).
  - by rewrite lookup_take_lt, lookup_drop.
  - by rewrite lookup_take_ge.
Qed.

Section Blocks.
Context {img : Type} `{Image img}.

Lemma stack_sub_slice (frames : list img) (bg : nat -> img) (a b : nat) (x : img) :
  (forall j, a <= j < b -> j < length frames -> bg j = x) ->
  stack_sub (getslice frames a b) x
  = getslice (imap (fun j f => img_sub f (bg j)) frames) a b.
Proof.
  intros Hbg. apply list_eq. intros i. unfold stack_sub.
  rewrite list_lookup_fmap, !lookup_getslice_full.
  destruct (Nat.ltb_spec i (b - a)); [|done].
  rewrite list_lookup_imap.
  destruct (frames !! (a + i)) as [f|] eqn:Hf; simpl; [|done].
  rewrite Hbg; [done|lia|]. by apply lookup_lt_Some in Hf.
Qed.

Lemma flat_map_slices {A} (l : list A) (s a n : nat) :
  flat_map (fun i => getslice l (i * s) ((i + 1) * s)) (seq a n)
  = getslice l (a * s) ((a + n) * s).
Proof.
  revert a. induction n as [|n IH]; intros a; cbn [flat_map seq].
  - rewrite Nat.add_0_r. unfold getslice. by rewrite Nat.sub_diag.
  - rewrite IH. replace (S a * s) with ((a + 1) * s) by lia.
    rewrite getslice_app by nia. f_equal. lia.
Qed.

Lemma getslice_all {A} (l : list A) : getslice l 0 (length l) = l.
Proof. unfold getslice. by rewrite drop_0, Nat.sub_0_r, firstn_all. Qed.

End Blocks.

Lemma div_block (s i j : nat) : 0 < s -> i * s <= j < (i + 1) * s -> j / s = i.
Proof.
  intros Hs Hj. symmetry. apply (Nat.div_unique j s i (j - i * s)); lia.
Qed.

Lemma div_block_ge (s i j : nat) : 0 < s -> i * s <= j -> i <= j / s.
Proof. intros Hs Hj. apply Nat.div_le_lower_bound; lia. Qed.

Lemma py_slice_nonneg {A} (l : list A) (a b : nat) :
  a <= b -> b <= length l ->
  py_slice l (Z.of_nat a) (Z.of_nat b) = getslice l a b.
Proof.
  intros Hab Hb. unfold py_slice, slice_index.
  destruct (Z.ltb_spec (Z.of_nat a) 0); [lia|].
  destruct (Z.ltb_spec (Z.of_nat b) 0); [lia|].
  rewrite !Nat2Z.id. f_equal; lia.
Qed.


Section MeanScalarRun.
Context {img : Type} `{Image img}.
Import MeanBackgroundSubtractionModule.

(** The output of the scalar branch, block after block. *)
Lemma run_scalar_blocks (self : t) (s : nat) (db : gmap string (list img))
    (frames : list img) :
  m_image_in_tag self <> m_image_out_tag self ->
  db !! m_image_in_tag self = Some frames ->
  0 < s -> 2 * s <= length frames ->
  let n := length frames in
  let top := n / s - 2 in
  run_scalar self s db
  = (Ok tt,
     <[m_image_out_tag self :=
         stack_sub (block frames s 0) (img_mean (block frames s 1))
         ++ flat_map (fun i => stack_sub (block frames s i)
                                 (img_half (img_add (img_mean (block frames s (i + 1)))
                                                    (img_mean (block frames s (i - 1))))))
                     (seq 1 (top - 1))
         ++ stack_sub (block frames s top)
              (img_half (img_add
                           (img_mean (py_slice frames ((Z.of_nat top - 1) * Z.of_nat s)
                                                      (Z.of_nat (top * s))))
                           (img_mean (last_block frames s))))
         ++ stack_sub (last_block frames s) (img_mean (block frames s top))]> db).
Proof.
  intros Hne Hin Hs Hlen n top. unfold run_scalar.
  assert (Hshape : DataBase.get_shape0 (m_image_in_tag self) db = n).
  { unfold DataBase.get_shape0, DataBase.get_all. by rewrite Hin. }
  rewrite Hshape.
  destruct (Nat.ltb_spec n (2 * s)) as [?|_]; [lia|].
  destruct (Nat.eqb_spec s 0) as [?|_]; [lia|].
  rewrite (read_known _ _ _ _ Hin). unfold DataBase.set_all.
  assert (Hall : DataBase.get_all (m_image_in_tag self) db = frames).
  { unfold DataBase.get_all. by rewrite Hin. }
  rewrite Hall.
  destruct (lookup_lt_is_Some_2 frames 0) as [first Hfirst]; [lia|].
  unfold getitem. rewrite Hfirst.
  apply String.eqb_neq in Hne as Hneb. rewrite Hneb.
  cbv zeta.
  rewrite (get_all_in _ _ frames Hne) by done.
  rewrite append_insert.
  rewrite (foldl_append (m_image_in_tag self) (m_image_out_tag self) frames Hne
             (fun im i => stack_sub (getslice im (i * s) ((i + 1) * s))
                            (img_half (img_add (img_mean (getslice im ((i + 1) * s) ((i + 2) * s)))
                                               (img_mean (getslice im ((i - 1) * s) (i * s)))))))
    by done.
  rewrite !(get_all_in _ _ frames Hne) by done.
  rewrite append_insert.
  rewrite !(get_all_in _ _ frames Hne) by done.
  rewrite append_insert.
  fold top. f_equal. f_equal.
  rewrite <- !app_assoc.
  assert (Hb0 : [img_sub first (img_mean (getslice frames s (2 * s)))]
                ++ stack_sub (getslice frames 1 s) (img_mean (getslice frames s (2 * s)))
                = stack_sub (block frames s 0) (img_mean (block frames s 1))).
  { unfold block. replace ((1 + 1) * s) with (2 * s) by lia.
    replace (1 * s) with s by lia. replace (0 * s) with 0 by lia.
    replace ((0 + 1) * s) with s by lia.
    clear -Hfirst Hs. destruct frames as [|x rest]; [done|]. injection Hfirst as ->.
    unfold stack_sub, getslice. simpl.
    destruct s as [|s']; [lia|]. simpl. by rewrite Nat.sub_0_r, drop_0. }
  rewrite app_assoc, Hb0. 
  unfold last_block, block. fold n.
  assert (Htop : (top + 1) * s = (n / s - 1) * s).
  { assert (2 <= n / s) by (apply Nat.div_le_lower_bound; unfold n; lia).
    unfold top. f_equal. lia. }
  rewrite Htop.
  f_equal. f_equal.
  apply flat_map_ext_elem. intros i Hi%elem_of_seq.
  replace (i - 1 + 1) with i by lia. by replace (i + 1 + 1) with (i + 2) by lia.
Qed.




Lemma scalar_output_frames (frames : list img) (s : nat) :
  0 < s -> 3 * s <= length frames ->
  let n := length frames in
  let top := n / s - 2 in
  stack_sub (block frames s 0) (img_mean (block frames s 1))
  ++ flat_map (fun i => stack_sub (block frames s i)
                          (img_half (img_add (img_mean (block frames s (i + 1)))
                                             (img_mean (block frames s (i - 1))))))
              (seq 1 (top - 1))
  ++ stack_sub (block frames s top)
       (img_half (img_add
                    (img_mean (py_slice frames ((Z.of_nat top - 1) * Z.of_nat s)
                                               (Z.of_nat (top * s))))
                    (img_mean (last_block frames s))))
  ++ stack_sub (last_block frames s) (img_mean (block frames s top))
  = imap (fun j a => img_sub a (mean_background frames s (block_of (length frames) s j)))
         frames.
Proof.
  intros Hs Hlen n top.
  assert (Hq : 3 <= n / s) by (apply Nat.div_le_lower_bound; unfold n; lia).
  assert (Hqs : (n / s) * s <= n) by (rewrite Nat.mul_comm; apply Nat.Div0.mul_div_le).
  assert (Htop : top = n / s - 2) by done. clearbody top.
  set (bg := fun j => mean_background frames s (block_of (length frames) s j)).
  set (G := imap (fun j a => img_sub a (bg j)) frames).
  assert (Hbg : forall i j, i <= top + 1 -> i * s <= j < (i + 1) * s -> j < n ->
                  bg j = mean_background frames s i).
  { intros i j Hi Hj _. unfold bg, block_of. fold n. f_equal.
    rewrite (div_block s i j) by done. lia. }
  assert (Hlast : forall j, (top + 1) * s <= j -> j < n ->
                    bg j = mean_background frames s (top + 1)).
  { intros j Hj Hn. unfold bg, block_of. fold n. f_equal.
    pose proof (div_block_ge s (top + 1) j Hs Hj). lia. }
  assert (Hprev : py_slice frames ((Z.of_nat top - 1) * Z.of_nat s) (Z.of_nat (top * s))
                  = block frames s (top - 1)).
  { replace ((Z.of_nat top - 1) * Z.of_nat s)%Z with (Z.of_nat ((top - 1) * s))
      by (rewrite Nat2Z.inj_mul, Nat2Z.inj_sub by lia; lia).
    rewrite py_slice_nonneg by (fold n; nia).
    unfold block. f_equal. f_equal. lia. }
  rewrite Hprev.
  rewrite (stack_sub_slice frames bg (0 * s) ((0 + 1) * s)).
  2:{ intros j Hj Hn. rewrite (Hbg 0 j) by (done || lia). done. }
  rewrite (flat_map_ext_elem _ (fun i => getslice G (i * s) ((i + 1) * s))).
  2:{ intros i Hi%elem_of_seq. unfold block. apply stack_sub_slice.
      intros j Hj Hn. rewrite (Hbg i j) by (done || lia).
      unfold mean_background. fold n. rewrite <- Htop.
      destruct (Nat.eqb_spec i 0); [lia|].
      destruct (Nat.ltb_spec i top); [done|lia]. }
  rewrite flat_map_slices.
  unfold block at 1. rewrite (stack_sub_slice frames bg (top * s) ((top + 1) * s)).
  2:{ intros j Hj Hn. rewrite (Hbg top j) by (done || lia).
      unfold mean_background. fold n. rewrite <- Htop.
      destruct (Nat.eqb_spec top 0); [lia|].
      destruct (Nat.ltb_spec top top); [lia|].
      by rewrite Nat.eqb_refl. }
  unfold last_block. fold n.
  replace ((n / s - 1) * s) with ((top + 1) * s) by (f_equal; lia).
  rewrite (stack_sub_slice frames bg ((top + 1) * s) n).
  2:{ intros j Hj Hn. rewrite Hlast by (done || lia).
      unfold mean_background. fold n. rewrite <- Htop.
      destruct (Nat.eqb_spec (top + 1) 0); [lia|].
      destruct (Nat.ltb_spec (top + 1) top); [lia|].
      destruct (Nat.eqb_spec (top + 1) top); [lia|]. done. }
  fold G. change (imap _ frames) with G.
  replace ((0 + 1) * s) with (1 * s) by lia.
  replace ((1 + (top - 1)) * s) with (top * s) by (f_equal; lia).
  rewrite (getslice_app G (top * s)) by nia.
  rewrite (getslice_app G (1 * s)) by nia.
  rewrite (getslice_app G (0 * s)) by nia.
  assert (HG : length G = n) by (unfold G; by rewrite length_imap).
  rewrite <- HG. apply getslice_all.
Qed.

End MeanScalarRun.

(** X9: [MeanBackgroundSubtractionModule.run] with a manual shift [s] on a
    stack of at least [3 * s] frames, the output tag not being the input
    tag: the run returns, the input is untouched, and the output tag holds
    one frame per input frame, in the same order.  Output frame [j] is input
    frame [j] minus the background of its block of [s] frames: the mean of
    the second block for the first block, the mean of the block before for
    the last block (which takes the frames that are left over), and for a
    block in between the half of the sum of the means of its two
    neighbours. *)
Theorem mean_run_subtracts_neighbouring_blocks {img : Type} `{Image img}
    (self : MeanBackgroundSubtractionModule.t) (s : nat) (NFRAMES : list nat)
    (db : gmap string (list img)) (frames : list img) :
  MeanBackgroundSubtractionModule.m_star_prs_shift self
  = MeanBackgroundSubtractionModule.ShiftInt s ->
  MeanBackgroundSubtractionModule.m_image_in_tag self
  <> MeanBackgroundSubtractionModule.m_image_out_tag self ->
  db !! MeanBackgroundSubtractionModule.m_image_in_tag self = Some frames ->
  0 < s -> 3 * s <= length frames ->
  exists out,
    MeanBackgroundSubtractionModule.run self NFRAMES db
    = (Ok tt, <[MeanBackgroundSubtractionModule.m_image_out_tag self := out]> db)
    /\ length out = length frames
    /\ forall j a, frames !! j = Some a ->
         out !! j
         = Some (img_sub a (mean_background frames s (block_of (length frames) s j))).
Proof.
  intros Hshift Hne Hin Hs Hlen.
  unfold MeanBackgroundSubtractionModule.run. rewrite Hshift.
  rewrite (run_scalar_blocks self s db frames Hne Hin Hs) by lia.
  rewrite (scalar_output_frames frames s Hs Hlen).
  eexists. split; [reflexivity|]. split; [by rewrite length_imap|].
  intros j a Hj. by rewrite list_lookup_imap, Hj.
Qed.

Lemma mean_run_subtracts_neighbouring_blocks_witness :
  exists out,
    MeanBackgroundSubtractionModule.run (H := QPixel.image) (mean_module 1) [] four_frames
    = (Ok tt, <["bg_cleaned_arr"%string := out]> four_frames)
    /\ length out = 4
    /\ forall j a, [5; 1; 7; 2]%Q !! j = Some a ->
         out !! j
         = Some (img_sub (Image := QPixel.image) a
                   (mean_background (H := QPixel.image) [5; 1; 7; 2]%Q 1
                      (block_of 4 1 j))).
Proof.
  apply (mean_run_subtracts_neighbouring_blocks (H := QPixel.image) (mean_module 1) 1 []
           four_frames [5; 1; 7; 2]%Q).
  - reflexivity.
  - done.
  - reflexivity.
  - lia.
  - simpl. lia.
Defined.



Section MeanArray.
Context {img : Type} `{Image img}.
Import MeanBackgroundSubtractionModule.









End MeanArray.



(** X12: [MeanBackgroundSubtractionModule.run] never works in place and
    fails cleanly: with at least one cube per position, a run that raises
    leaves the data base as it was; and when the output tag is the input
    tag the run always raises. *)
Theorem mean_run_failures_leave_data_base {img : Type} `{Image img}
    (self : MeanBackgroundSubtractionModule.t) (NFRAMES : list nat)
    (db : gmap string (list img)) :
  0 < MeanBackgroundSubtractionModule.m_cubes_per_position self ->
  (forall e db', MeanBackgroundSubtractionModule.run self NFRAMES db = (Raise e, db') ->
                 db' = db)
  /\ (MeanBackgroundSubtractionModule.m_image_in_tag self
      = MeanBackgroundSubtractionModule.m_image_out_tag self ->
      exists e, MeanBackgroundSubtractionModule.run self NFRAMES db = (Raise e, db)).
Proof.
  intros Hc.
  assert (Harray : forall a,
            (forall e db', MeanBackgroundSubtractionModule.run_array self a db = (Raise e, db')
                           -> db' = db)
            /\ (MeanBackgroundSubtractionModule.m_image_in_tag self
                = MeanBackgroundSubtractionModule.m_image_out_tag self ->
                exists e, MeanBackgroundSubtractionModule.run_array self a db = (Raise e, db))).
  { intros a. unfold MeanBackgroundSubtractionModule.run_array.
    destruct (length a <? _); [split; [by intros e db' [= _ <-]|by eexists]|].
    destruct (DataBase.read _ 0 db) as [first|e0];
      [|split; [by intros e db' [= _ <-]|by eexists]].
    destruct (String.eqb_spec (MeanBackgroundSubtractionModule.m_image_in_tag self)
                (MeanBackgroundSubtractionModule.m_image_out_tag self)) as [Heq | Hne].
    { split; [by intros e db' [= _ <-]|by eexists]. }
    split; [|done]. unfold py_range.
    destruct (Nat.eqb_spec (MeanBackgroundSubtractionModule.m_cubes_per_position self) 0);
      [lia|]. done. }
  unfold MeanBackgroundSubtractionModule.run.
  destruct (MeanBackgroundSubtractionModule.m_star_prs_shift self) as [|s|a];
    [apply Harray| |apply Harray].
  unfold MeanBackgroundSubtractionModule.run_scalar.
  destruct (_ <? 2 * s); [split; [by intros e db' [= _ <-]|by eexists]|].
  destruct (s =? 0); [split; [by intros e db' [= _ <-]|by eexists]|].
  destruct (DataBase.read _ 0 db) as [first|e0];
    [|split; [by intros e db' [= _ <-]|by eexists]].
  destruct (String.eqb_spec (MeanBackgroundSubtractionModule.m_image_in_tag self)
              (MeanBackgroundSubtractionModule.m_image_out_tag self)) as [Heq | Hne].
  { split; [by intros e db' [= _ <-]|by eexists]. }
  split; [done|done].
Qed.

Lemma mean_run_failures_leave_data_base_witness :
  (forall e db',
     MeanBackgroundSubtractionModule.run (H := QPixel.image) (mean_module 3) [] four_frames
     = (Raise e, db') -> db' = four_frames)
  /\ (MeanBackgroundSubtractionModule.m_image_in_tag (mean_module 3)
      = MeanBackgroundSubtractionModule.m_image_out_tag (mean_module 3) ->
      exists e,
        MeanBackgroundSubtractionModule.run (H := QPixel.image) (mean_module 3) []
          four_frames = (Raise e, four_frames)).
Proof.
  apply (mean_run_failures_leave_data_base (H := QPixel.image) (mean_module 3) []
           four_frames).
  simpl. lia.
Defined.

(** ** SimpleBackgroundSubtractionModule *)

Section SimpleInPlace.
Context {img : Type} `{Image img}.
Import SimpleBackgroundSubtractionModule.

Variable self : t.
Variable frames : list img.
Variable db : gmap string (list img).
Hypothesis Hsame : m_image_in_tag self = m_image_out_tag self.

Local Abbreviation in_place_invariant := (in_place_invariant self frames).

Lemma in_place_step (k : nat) (cur : list img) :
  k < length frames -> in_place_invariant k cur ->
  exists x,
    difference self (length frames) k (<[m_image_in_tag self := cur]> db) = Ok x
    /\ in_place_invariant (S k) (<[k := x]> cur).
Proof.
  intros Hk (Hlen & Hrest & Hdone).
  unfold difference, DataBase.read, DataBase.stack. rewrite lookup_insert_eq. simpl.
  set (p := partner self (length frames) k).
  assert (Hp : p < length frames) by (apply partner_lt; lia).
  destruct (lookup_lt_is_Some_2 cur k) as [a Ha]; [lia|].
  destruct (lookup_lt_is_Some_2 cur p) as [b Hb]; [lia|].
  unfold getitem. rewrite Ha. simpl. fold p. rewrite Hb. simpl.
  exists (img_sub a b). split; [done|].
  split; [by rewrite length_insert|]. split.
  - intros j Hj. rewrite list_lookup_insert_ne by lia. apply Hrest. lia.
  - intros i Hi. destruct (decide (i = k)) as [-> | Hne].
    + exists (img_sub a b). split; [apply list_lookup_insert_eq; lia|].
      unfold is_difference_in_place. fold p. exists a, b.
      split; [by rewrite <- Hrest|]. split; [|done].
      destruct (Nat.ltb_spec p k).
      * rewrite list_lookup_insert_ne by lia. done.
      * rewrite <- Hrest by done. done.
    + destruct (Hdone i) as (x & Hx & a' & b' & Ha' & Hb' & ->); [lia|].
      exists (img_sub a' b'). split; [by rewrite list_lookup_insert_ne|].
      exists a', b'. split; [done|]. split; [|done].
      destruct (Nat.ltb_spec (partner self (length frames) i) i); [|done].
      rewrite list_lookup_insert_ne by lia. done.
Qed.

Lemma for_db_in_place (m k : nat) (cur : list img) :
  k + m = length frames -> in_place_invariant k cur ->
  exists out,
    for_db (fun i db =>
              match difference self (length frames) i db with
              | Raise e => (Raise e, db)
              | Ok tmp_res =>
                  (Ok tt,
                   if String.eqb (m_image_in_tag self) (m_image_out_tag self)
                   then DataBase.setitem (m_image_out_tag self) i tmp_res db
                   else DataBase.append (m_image_out_tag self) [tmp_res] db)
              end)
           (seq k m) (<[m_image_in_tag self := cur]> db)
    = (Ok tt, <[m_image_in_tag self := out]> db)
    /\ in_place_invariant (length frames) out.
Proof.
  destruct (String.eqb (m_image_in_tag self) (m_image_out_tag self)) eqn:Heq;
    [|by apply String.eqb_neq in Heq].
  rewrite <- Hsame.
  revert k cur. induction m as [|m IH]; intros k cur Hkm Hinv; simpl.
  - exists cur. split; [done|]. by replace (length frames) with k by lia.
  - destruct (in_place_step k cur) as (x & -> & Hinv'); [lia|done|].
    unfold DataBase.setitem, DataBase.get_all.
    rewrite lookup_insert_eq, insert_insert_eq. simpl.
    apply IH; [lia|done].
Qed.



Lemma run_in_place :
  db !! m_image_in_tag self = Some frames ->
  0 < length frames ->
  exists out,
    run self db = (Ok tt, <[m_image_in_tag self := out]> db)
    /\ in_place_invariant (length frames) out.
Proof.
  intros Hin Hn. unfold run.
  assert (Hshape : DataBase.get_shape0 (m_image_in_tag self) db = length frames).
  { unfold DataBase.get_shape0, DataBase.get_all. by rewrite Hin. }
  rewrite Hshape.
  assert (Hinv : in_place_invariant 0 frames).
  { split; [done|]. split; [done|]. intros i Hi. lia. }
  destruct (in_place_step 0 frames Hn Hinv) as (x & Hx & Hinv').
  rewrite (insert_id db _ _ Hin) in Hx. rewrite Hx.
  destruct (for_db_in_place (length frames - 1) 1 (<[0 := x]> frames)) as (out & Hrun & Hout);
    [lia|done|].
  exists out. split; [|done].
  rewrite <- Hrun. f_equal.
  rewrite <- Hsame, String.eqb_refl.
  unfold DataBase.setitem, DataBase.get_all. by rewrite Hin.
Qed.

End SimpleInPlace.

(** X13: [SimpleBackgroundSubtractionModule.run] with the output tag equal
    to the input tag, on a stack that is not empty: the run returns and the
    tag holds as many frames as before.  Frame [i] is now the input frame
    [i] minus the frame at the index [(i + shift) mod N] as it was when
    frame [i] was processed: the frame already written when that index is
    smaller than [i], the input frame otherwise. *)
Theorem simple_run_in_place_reads_written_frames {img : Type} `{Image img}
    (self : SimpleBackgroundSubtractionModule.t) (db : gmap string (list img))
    (frames : list img) :
  SimpleBackgroundSubtractionModule.m_image_in_tag self
  = SimpleBackgroundSubtractionModule.m_image_out_tag self ->
  db !! SimpleBackgroundSubtractionModule.m_image_in_tag self = Some frames ->
  0 < length frames ->
  exists out,
    SimpleBackgroundSubtractionModule.run self db
    = (Ok tt, <[SimpleBackgroundSubtractionModule.m_image_in_tag self := out]> db)
    /\ length out = length frames
    /\ forall i, i < length frames ->
         exists x, out !! i = Some x /\ is_difference_in_place self frames out i x.
Proof.
  intros Hsame Hin Hn.
  destruct (run_in_place self frames db Hsame Hin Hn) as (out & Hrun & Hlen & _ & Hall).
  by exists out.
Qed.

Lemma simple_run_in_place_reads_written_frames_witness :
  exists out,
    SimpleBackgroundSubtractionModule.run (H := QPixel.image) in_place_module three_frames
    = (Ok tt, <["im_arr"%string := out]> three_frames)
    /\ length out = 3
    /\ forall i, i < 3 ->
         exists x, out !! i = Some x
                   /\ is_difference_in_place (H := QPixel.image) in_place_module
                        [1; 3; 10]%Q out i x.
Proof.
  apply (simple_run_in_place_reads_written_frames (H := QPixel.image) in_place_module
           three_frames [1; 3; 10]%Q).
  - reflexivity.
  - reflexivity.
  - simpl. lia.
Defined.

(** X14: [SimpleBackgroundSubtractionModule.run] in place with a shift
    between 0 and the number [N] of frames: the first [N - shift] frames
    are the input frame minus the input frame [shift] places later, as with
    an output tag of its own; each of the last [shift] frames is the input
    frame minus the frame that the run has written [N - shift] places
    earlier. *)
Theorem simple_run_in_place_wraps_to_output {img : Type} `{Image img}
    (self : SimpleBackgroundSubtractionModule.t) (db : gmap string (list img))
    (frames : list img) (shift : nat) :
  SimpleBackgroundSubtractionModule.m_image_in_tag self
  = SimpleBackgroundSubtractionModule.m_image_out_tag self ->
  db !! SimpleBackgroundSubtractionModule.m_image_in_tag self = Some frames ->
  SimpleBackgroundSubtractionModule.m_star_prs_shift self = Z.of_nat shift ->
  0 < shift < length frames ->
  exists out,
    SimpleBackgroundSubtractionModule.run self db
    = (Ok tt, <[SimpleBackgroundSubtractionModule.m_image_in_tag self := out]> db)
    /\ (forall i a b, i + shift < length frames ->
          frames !! i = Some a -> frames !! (i + shift) = Some b ->
          out !! i = Some (img_sub a b))
    /\ (forall i a b, i < length frames -> length frames <= i + shift ->
          frames !! i = Some a -> out !! (i + shift - length frames) = Some b ->
          out !! i = Some (img_sub a b)).
Proof.
  intros Hsame Hin Hshift Hs.
  destruct (run_in_place self frames db Hsame Hin) as (out & Hrun & Hlen & _ & Hall); [lia|].
  exists out. split; [done|]. split.
  - intros i a b Hi Ha Hb.
    destruct (Hall i) as (x & Hx & a' & b' & Ha' & Hb' & ->); [lia|].
    assert (Hp : SimpleBackgroundSubtractionModule.partner self (length frames) i
                 = i + shift).
    { unfold SimpleBackgroundSubtractionModule.partner. rewrite Hshift.
      rewrite Z.mod_small by lia. lia. }
    rewrite Hp in Hb'. destruct (Nat.ltb_spec (i + shift) i); [lia|].
    rewrite Hx. congruence.
  - intros i a b Hi Hwrap Ha Hb.
    destruct (Hall i) as (x & Hx & a' & b' & Ha' & Hb' & ->); [lia|].
    assert (Hp : SimpleBackgroundSubtractionModule.partner self (length frames) i
                 = i + shift - length frames).
    { unfold SimpleBackgroundSubtractionModule.partner. rewrite Hshift.
      replace (Z.of_nat i + Z.of_nat shift)%Z
        with (Z.of_nat (i + shift - length frames) + 1 * Z.of_nat (length frames))%Z by lia.
      rewrite Z.mod_add by lia. rewrite Z.mod_small by lia. lia. }
    rewrite Hp in Hb'. destruct (Nat.ltb_spec (i + shift - length frames) i); [|lia].
    rewrite Hx. congruence.
Qed.

Lemma simple_run_in_place_wraps_to_output_witness :
  exists out,
    SimpleBackgroundSubtractionModule.run (H := QPixel.image) in_place_module three_frames
    = (Ok tt, <["im_arr"%string := out]> three_frames)
    /\ (forall i a b, i + 1 < 3 ->
          [1; 3; 10]%Q !! i = Some a -> [1; 3; 10]%Q !! (i + 1) = Some b ->
          out !! i = Some (img_sub (Image := QPixel.image) a b))
    /\ (forall i a b, i < 3 -> 3 <= i + 1 ->
          [1; 3; 10]%Q !! i = Some a -> out !! (i + 1 - 3) = Some b ->
          out !! i = Some (img_sub (Image := QPixel.image) a b)).
Proof.
  apply (simple_run_in_place_wraps_to_output (H := QPixel.image) in_place_module
           three_frames [1; 3; 10]%Q 1).
  - reflexivity.
  - reflexivity.
  - reflexivity.
  - simpl. lia.
Defined.

(** X15: [SimpleBackgroundSubtractionModule.run] with an output tag that is
    not the input tag, on a stack of [N] frames that is not empty: the run
    returns, the input tag keeps its frames, and the output tag holds [N]
    frames, frame [i] being input frame [i] minus input frame
    [(i + shift) mod N]. *)
Theorem simple_run_fresh_tag_subtracts_partner {img : Type} `{Image img}
    (self : SimpleBackgroundSubtractionModule.t) (db : gmap string (list img))
    (frames : list img) :
  SimpleBackgroundSubtractionModule.m_image_in_tag self
  <> SimpleBackgroundSubtractionModule.m_image_out_tag self ->
  db !! SimpleBackgroundSubtractionModule.m_image_in_tag self = Some frames ->
  0 < length frames ->
  exists db' out,
    SimpleBackgroundSubtractionModule.run self db = (Ok tt, db')
    /\ db' !! SimpleBackgroundSubtractionModule.m_image_in_tag self = Some frames
    /\ db' !! SimpleBackgroundSubtractionModule.m_image_out_tag self = Some out
    /\ length out = length frames
    /\ forall i a b,
         frames !! i = Some a ->
         frames !! SimpleBackgroundSubtractionModule.partner self (length frames) i = Some b ->
         out !! i = Some (img_sub a b).
Proof.
  intros Hne Hin Hn.
  destruct (run_fresh_output_tag self db frames Hne Hin Hn) as (out & Hrun & Hlen & Hall).
  exists (<[SimpleBackgroundSubtractionModule.m_image_out_tag self := out]> db), out.
  split; [done|]. split; [by rewrite lookup_insert_ne|].
  split; [by rewrite lookup_insert_eq|]. split; [done|].
  intros i a b Ha Hb.
  destruct (Hall i) as (x & Hx & a' & b' & Ha' & Hb' & ->).
  { by apply lookup_lt_Some in Ha. }
  rewrite Hx. congruence.
Qed.

Lemma simple_run_fresh_tag_subtracts_partner_witness :
  exists db' out,
    SimpleBackgroundSubtractionModule.run (H := QPixel.image) fresh_module three_frames
    = (Ok tt, db')
    /\ db' !! "im_arr"%string = Some [1; 3; 10]%Q
    /\ db' !! "bg_cleaned_arr"%string = Some out
    /\ length out = 3
    /\ forall i a b,
         [1; 3; 10]%Q !! i = Some a ->
         [1; 3; 10]%Q !! SimpleBackgroundSubtractionModule.partner fresh_module 3 i = Some b ->
         out !! i = Some (img_sub (Image := QPixel.image) a b).
Proof.
  apply (simple_run_fresh_tag_subtracts_partner (H := QPixel.image) fresh_module
           three_frames [1; 3; 10]%Q).
  - done.
  - reflexivity.
  - simpl. lia.
Defined.

(** ** PCABackgroundPreparationModule *)

Section PairsFromZero.
Context {img : Type} `{Image img} {angle : Type}.
Import PCABackgroundPreparationModule.

Lemma no_background_before (bg_frames : list bool) (i : nat) :
  (forall k, k < i -> bg_frames !! k <> Some true) ->
  filter (fun k => k < i) (nonzero bg_frames) = [].
Proof.
  intros Hnone. apply filter_none. intros k Hk Hlt.
  apply elem_of_nonzero in Hk. by apply (Hnone k).
Qed.

(** A star cube other than the first that has no background cube before it,
    reached with [bg_prev] unbound, stops the loop. *)
Lemma step_unbound_previous (frames : list img) (parang : list angle)
    (NFRAMES : list nat) (bg_frames : list bool) (i item : nat) (v : @vars img angle) :
  length bg_frames = length NFRAMES ->
  i <> 0 ->
  bg_frames !! i = Some false ->
  (forall k, k < i -> bg_frames !! k <> Some true) ->
  bg_prev v = None ->
  step frames parang (length NFRAMES) (cube_means frames NFRAMES 0) bg_frames i item v
  = Raise (NameError "bg_prev").
Proof.
  intros Hlen Hi Hflag Hnone Hprev. unfold step.
  rewrite (getitem_Some _ _ _ Hflag). simpl.
  rewrite (no_background_before bg_frames i Hnone). simpl.
  destruct (resolve_next frames NFRAMES bg_frames i (bg_next v) Hlen) as (n & -> & _).
  simpl. unfold select_background.
  destruct (Nat.eqb_spec i 0) as [?|_]; [done|].
  rewrite Hprev. by destruct (i =? length NFRAMES - 1).
Qed.

(** The first cube, when it is a star cube: the loop stops for want of a
    later background cube, or goes on with [bg_prev] unbound. *)
Lemma step_first_star (frames : list img) (parang : list angle)
    (NFRAMES : list nat) (bg_frames : list bool) (item : nat) :
  length bg_frames = length NFRAMES ->
  bg_frames !! 0 = Some false ->
  step frames parang (length NFRAMES) (cube_means frames NFRAMES 0) bg_frames 0 item
    (@initial img angle)
  = Raise (NameError "bg_next")
  \/ (exists k, 0 < k /\ bg_frames !! k = Some true)
     /\ exists v', step frames parang (length NFRAMES) (cube_means frames NFRAMES 0)
                     bg_frames 0 item (@initial img angle) = Ok v'
                   /\ bg_prev v' = None.
Proof.
  intros Hlen Hflag. unfold step.
  rewrite (getitem_Some _ _ _ Hflag). simpl.
  rewrite (no_background_before bg_frames 0) by (intros k Hk; lia). simpl.
  destruct (resolve_next frames NFRAMES bg_frames 0 (@bg_next img angle initial) Hlen)
    as (n & Hn & _).
  revert Hn.
  destruct (filter (fun k => 0 < k) (nonzero bg_frames)) as [|k after] eqn:Hafter;
    cbn [length Nat.ltb Nat.leb]; intros Hn.
  - left. done.
  - right. split.
    { exists k. assert (Hk : k ∈ filter (fun k => 0 < k) (nonzero bg_frames)).
      { rewrite Hafter. left. }
      apply list_elem_of_filter in Hk as [Hk Hin]. by apply elem_of_nonzero in Hin. }
    destruct (getitem (cube_means frames NFRAMES 0) (amin (k :: after))) as [b|] eqn:Hb;
      simpl in Hn; [|done].
    simpl. by eexists.
Qed.

End PairsFromZero.

(** The flags of the first two cubes when the star is in cube 0 and there
    are two or more cubes per position. *)
Lemma first_flags_of_pairs (self : PCABackgroundPreparationModule.t) (size_nframes : nat) :
  PCABackgroundPreparationModule.m_first_star_cube self = 0 ->
  2 <= PCABackgroundPreparationModule.m_cubes_per_position self ->
  0 < PCABackgroundPreparationModule.m_dither_positions self ->
  0 < size_nframes ->
  exists bg_frames,
    PCABackgroundPreparationModule.flag_cubes self size_nframes = Ok bg_frames
    /\ length bg_frames = size_nframes
    /\ bg_frames !! 0 = Some false
    /\ (1 < size_nframes -> bg_frames !! 1 = Some false).
Proof.
  intros Hf Hc Hd Hsize.
  set (c := PCABackgroundPreparationModule.m_cubes_per_position self) in *.
  set (d := PCABackgroundPreparationModule.m_dither_positions self) in *.
  assert (Hcd : 0 < c * d) by nia.
  assert (Hle : c <= c * d) by nia.
  destruct (flag_cubes_lookup self size_nframes 0 Hcd Hsize) as (bg & Hflag & Hlen & H0).
  rewrite Hf in H0. simpl in H0. rewrite Nat.Div0.mod_0_l in H0. fold c in H0.
  destruct (Nat.ltb_spec 0 c) as [_|?]; [|lia]. simpl in H0.
  exists bg. split; [done|]. split; [done|]. split; [done|]. intros Hone.
  destruct (flag_cubes_lookup self size_nframes 1 Hcd Hone) as (bg' & Hflag' & _ & H1).
  rewrite Hflag in Hflag'. injection Hflag' as <-.
  rewrite Hf in H1. simpl in H1. fold c d in H1. rewrite Nat.mod_small in H1 by lia.
  by destruct (Nat.ltb_spec 1 c) as [_|?]; [|lia].
Qed.

(** A sequence of cubes that starts with a star cube, followed by another
    star cube if there is a second cube, stops the loop with a NameError. *)
Lemma star_cubes_at_start_raise {img : Type} `{Image img} {angle : Type}
    (self : PCABackgroundPreparationModule.t) (parang : list angle)
    (NFRAMES : list nat) (im_shape : nat * nat) (frames : list img)
    (bg_frames : list bool) :
  fst im_shape = snd im_shape ->
  PCABackgroundPreparationModule.flag_cubes self (length NFRAMES) = Ok bg_frames ->
  length bg_frames = length NFRAMES ->
  NFRAMES <> [] ->
  bg_frames !! 0 = Some false ->
  (1 < length NFRAMES -> bg_frames !! 1 = Some false) ->
  exists name,
    PCABackgroundPreparationModule.run self (Some parang) NFRAMES im_shape frames
    = Raise (NameError name).
Proof.
  intros Hsquare Hflag Hlen Hne H0 H1.
  destruct NFRAMES as [|n0 rest]; [done|].
  unfold PCABackgroundPreparationModule.run, PCABackgroundPreparationModule.fill_cube_mean.
  rewrite (proj2 (Nat.eqb_eq _ _) Hsquare). cbn [mbind result_bind].
  rewrite Hflag. cbn [mbind result_bind].
  destruct rest as [|n1 rest].
  - destruct (step_first_star frames parang [n0] bg_frames n0 Hlen H0)
      as [Hstop | [(k & Hk & Hbg) _]].
    + cbn [PCABackgroundPreparationModule.loop]. rewrite Hstop. by eexists.
    + apply lookup_lt_Some in Hbg. simpl in *. lia.
  - specialize (H1 ltac:(simpl; lia)).
    assert (Hsecond := fun v' => step_unbound_previous frames parang (n0 :: n1 :: rest)
                                   bg_frames 1 n1 v' Hlen).
    destruct (step_first_star frames parang (n0 :: n1 :: rest) bg_frames n0 Hlen H0)
      as [Hstop | [_ (v' & Hstep & Hprev)]];
      cbn [PCABackgroundPreparationModule.loop].
    + rewrite Hstop. by eexists.
    + rewrite Hstep. cbn [mbind result_bind].
      rewrite Hsecond; [by eexists|done|done| |done].
      intros j Hj. replace j with 0 by lia. by rewrite H0.
Qed.

(** X16: [PCABackgroundPreparationModule.run] with the star in the first
    cube ([first_star_cube] 0) and two or more cubes per dither position
    raises a NameError on every input that is not empty (the frames being
    square, as the array of the cube means requires): cube 0 is a star cube
    whose background is the local [bg_next], which is unbound when no
    background cube follows; and cube 1 is a star cube with no background
    cube before it, so that the local [bg_prev] that it reads has never been
    assigned. *)
Theorem preparation_pairs_from_first_cube {img : Type} `{Image img} {angle : Type}
    (self : PCABackgroundPreparationModule.t) (parang : list angle)
    (NFRAMES : list nat) (im_shape : nat * nat) (frames : list img) :
  PCABackgroundPreparationModule.m_first_star_cube self = 0 ->
  2 <= PCABackgroundPreparationModule.m_cubes_per_position self ->
  0 < PCABackgroundPreparationModule.m_dither_positions self ->
  NFRAMES <> [] ->
  fst im_shape = snd im_shape ->
  exists name,
    PCABackgroundPreparationModule.run self (Some parang) NFRAMES im_shape frames
    = Raise (NameError name).
Proof.
  intros Hf Hc Hd Hne Hsquare.
  assert (Hsize : 0 < length NFRAMES) by (destruct NFRAMES; [done|simpl; lia]).
  destruct (first_flags_of_pairs self (length NFRAMES) Hf Hc Hd Hsize)
    as (bg_frames & Hflag & Hlen & H0 & H1).
  by apply (star_cubes_at_start_raise self parang NFRAMES im_shape frames bg_frames).
Qed.

Lemma preparation_pairs_from_first_cube_witness :
  exists name,
    PCABackgroundPreparationModule.run (H := QPixel.image) (pairs 0)
      (Some seven_cubes) [1; 1; 1; 1; 1; 1; 1] (1, 1) seven_cubes
    = Raise (NameError name).
Proof.
  apply (preparation_pairs_from_first_cube (H := QPixel.image) (pairs 0) seven_cubes
           [1; 1; 1; 1; 1; 1; 1] (1, 1) seven_cubes).
  - reflexivity.
  - simpl. lia.
  - simpl. lia.
  - done.
  - reflexivity.
Defined.

(** X30: [PCABackgroundDitheringModule.run] makes the preparation of the
    dither position [i] with [i] as the first star cube, whatever the number
    of cubes per position.  With two or more cubes per position the
    preparation of the first dither position therefore fails whenever the
    cut around that position leaves at least one cube with its parallactic
    angles: with a NameError when the cut frames are square, and with the
    ValueError of the first cube mean when they are not.  The run does not
    get past its first position. *)
Theorem dithering_with_cube_pairs_stops_at_first_position {img : Type} `{Image img}
    {angle : Type} (self : PCABackgroundDitheringModule.t)
    (cut : Z * Z -> result (@PCABackgroundDitheringModule.cut_t img angle))
    (position : Z * Z) (rest : list (Z * Z))
    (data : @PCABackgroundDitheringModule.cut_t img angle) (parang : list angle) :
  PCABackgroundDitheringModule.m_center self = position :: rest ->
  2 <= PCABackgroundDitheringModule.m_cubes_per_position self ->
  cut position = Ok data ->
  PCABackgroundDitheringModule.cut_NEW_PARA data = Some parang ->
  PCABackgroundDitheringModule.cut_NFRAMES data <> [] ->
  (forall i, i < length (position :: rest) ->
     PCABackgroundDitheringModule.prepare self i
     = Ok {| PCABackgroundPreparationModule.m_dither_positions := length (position :: rest);
             PCABackgroundPreparationModule.m_cubes_per_position :=
               PCABackgroundDitheringModule.m_cubes_per_position self;
             PCABackgroundPreparationModule.m_first_star_cube := i |})
  /\ (fst (PCABackgroundDitheringModule.cut_shape data)
      = snd (PCABackgroundDitheringModule.cut_shape data) ->
      exists name,
        PCABackgroundDitheringModule.run_first_preparation self cut
        = Raise (NameError name))
  /\ (fst (PCABackgroundDitheringModule.cut_shape data)
      <> snd (PCABackgroundDitheringModule.cut_shape data) ->
      PCABackgroundDitheringModule.run_first_preparation self cut
      = Raise PCABackgroundPreparationModule.could_not_broadcast).
Proof.
  intros Hcenter Hc Hcut Hpa Hnf.
  assert (Hprep : forall i, i < length (position :: rest) ->
            PCABackgroundDitheringModule.prepare self i
            = Ok {| PCABackgroundPreparationModule.m_dither_positions :=
                      length (position :: rest);
                    PCABackgroundPreparationModule.m_cubes_per_position :=
                      PCABackgroundDitheringModule.m_cubes_per_position self;
                    PCABackgroundPreparationModule.m_first_star_cube := i |}).
  { intros i Hi. unfold PCABackgroundDitheringModule.prepare,
      PCABackgroundDitheringModule.star_pos.
    rewrite Hcenter. rewrite (getitem_Some _ _ i) by (by apply lookup_seq_lt). done. }
  split; [done|].
  unfold PCABackgroundDitheringModule.run_first_preparation.
  rewrite Hcenter, Hcut. cbn [mbind result_bind].
  rewrite (Hprep 0) by (simpl; lia). cbn [mbind result_bind]. rewrite Hpa.
  split; [intros Hsquare | intros Hshape; by rewrite run_not_square].
  set (prepare_module :=
         {| PCABackgroundPreparationModule.m_dither_positions := length (position :: rest);
            PCABackgroundPreparationModule.m_cubes_per_position :=
              PCABackgroundDitheringModule.m_cubes_per_position self;
            PCABackgroundPreparationModule.m_first_star_cube := 0 |}).
  assert (Hsize : 0 < length (PCABackgroundDitheringModule.cut_NFRAMES data)).
  { destruct (PCABackgroundDitheringModule.cut_NFRAMES data); [done|simpl; lia]. }
  destruct (first_flags_of_pairs prepare_module
              (length (PCABackgroundDitheringModule.cut_NFRAMES data)))
    as (bg_frames & Hflag & Hlen & H0 & H1); [done|done|simpl; lia|done|].
  destruct (star_cubes_at_start_raise prepare_module parang
              (PCABackgroundDitheringModule.cut_NFRAMES data)
              (PCABackgroundDitheringModule.cut_shape data)
              (PCABackgroundDitheringModule.cut_frames data) bg_frames)
    as [name Hname]; [done|done|done|done|done|done|].
  rewrite Hname. by exists name.
Qed.

Lemma dithering_with_cube_pairs_stops_at_first_position_witness :
  (forall i, i < 2 ->
     PCABackgroundDitheringModule.prepare dither_pairs i
     = Ok {| PCABackgroundPreparationModule.m_dither_positions := 2;
             PCABackgroundPreparationModule.m_cubes_per_position := 2;
             PCABackgroundPreparationModule.m_first_star_cube := i |})
  /\ exists name,
       PCABackgroundDitheringModule.run_first_preparation (H := QPixel.image)
         dither_pairs seven_cut
       = Raise (NameError name).
Proof.
  destruct (dithering_with_cube_pairs_stops_at_first_position (H := QPixel.image)
              dither_pairs seven_cut (50, 50)%Z [(150, 50)%Z]
              {| PCABackgroundDitheringModule.cut_NEW_PARA := Some seven_cubes;
                 PCABackgroundDitheringModule.cut_NFRAMES := [1; 1; 1; 1; 1; 1; 1];
                 PCABackgroundDitheringModule.cut_shape := (1, 1);
                 PCABackgroundDitheringModule.cut_frames := seven_cubes |}
              seven_cubes) as (Hprepare & Hsquare & _).
  - reflexivity.
  - simpl. lia.
  - reflexivity.
  - reflexivity.
  - done.
  - split; [exact Hprepare|]. apply Hsquare. reflexivity.
Defined.

Section PreparationAngles.
Context {img : Type} `{Image img} {angle : Type}.
Import PCABackgroundPreparationModule.

Variable frames : list img.
Variable parang : list angle.
Variable NFRAMES : list nat.
Variable bg_frames : list bool.

Lemma step_parang (i item : nat) (v v' : @vars img angle) :
  step frames parang (length NFRAMES) (cube_means frames NFRAMES 0) bg_frames i item v
  = Ok v' ->
  exists flag : bool,
    bg_frames !! i = Some flag
    /\ let pa_tmp := getslice parang (count v) (count v + item) in
       if flag then
         background_init v' = true /\ star_init v' = star_init v
         /\ background_parang v'
            = (if background_init v then background_parang v else []) ++ pa_tmp
         /\ star_parang v' = star_parang v
       else
         star_init v' = true /\ background_init v' = background_init v
         /\ star_parang v' = (if star_init v then star_parang v else []) ++ pa_tmp
         /\ background_parang v' = background_parang v.
Proof.
  unfold step, getitem. intros Hstep.
  destruct (bg_frames !! i) as [[|]|] eqn:Hflag; simpl in Hstep; [| |done].
  - destruct (cube_means frames NFRAMES 0 !! i) as [b|]; simpl in Hstep; [|done].
    injection Hstep as <-. exists true. simpl.
    repeat split; by destruct (background_init v).
  - match type of Hstep with (?p ≫= _) = _ => destruct p as [prev|] end;
      simpl in Hstep; [|done].
    match type of Hstep with (?p ≫= _) = _ => destruct p as [next|] end;
      simpl in Hstep; [|done].
    destruct (select_background (length NFRAMES) i prev next) as [b|];
      simpl in Hstep; [|done].
    injection Hstep as <-. exists false. simpl.
    repeat split; by destruct (star_init v).
Qed.

Lemma parang_invariant_before (i : nat) (v : @vars img angle) :
  i <= length NFRAMES ->
  vars_before frames parang NFRAMES bg_frames i = Ok v ->
  parang_invariant parang NFRAMES bg_frames i v.
Proof.
  revert v. induction i as [|i IH]; intros v Hi Hv.
  - unfold vars_before in Hv. simpl in Hv. injection Hv as <-. by repeat split.
  - destruct (lookup_lt_is_Some_2 NFRAMES i) as [item Hitem]; [lia|].
    rewrite (before_S _ _ _ _ _ _ Hitem) in Hv.
    destruct (vars_before frames parang NFRAMES bg_frames i) as [v0|e] eqn:Hv0;
      simpl in Hv; [|done].
    destruct (IH v0) as (Hstar & Hbg & Hsp & Hbp); [lia|done|].
    assert (Hcount : count v0 = cube_start NFRAMES i).
    { by destruct (invariant_before frames parang NFRAMES bg_frames i v0) as [Hc _];
        [lia|done|]. }
    apply step_parang in Hv as (flag & Hflag & Hrest).
    rewrite Hcount, <- (cube_start_S _ _ _ Hitem) in Hrest.
    fold (cube_frames parang NFRAMES i) in Hrest.
    unfold parang_invariant. rewrite !cubes_flagged_S, Hflag, !flat_map_app.
    destruct flag; simpl in Hrest; destruct Hrest as (Hi1 & Hi2 & Ho & Hso).
    + rewrite decide_False by done. rewrite decide_True by done.
      rewrite Hi1, Hi2, Ho, Hso. simpl. rewrite !app_nil_r.
      split; [done|]. split; [done|]. split; [done|].
      destruct (background_init v0); [by rewrite Hbp|].
      by rewrite <- Hbp, (Hbg eq_refl).
    + rewrite decide_True by done. rewrite decide_False by done.
      rewrite Hi1, Hi2, Ho, Hso. simpl. rewrite !app_nil_r.
      split; [done|]. split; [done|]. split; [|done].
      destruct (star_init v0); [by rewrite Hsp|].
      by rewrite <- Hsp, (Hstar eq_refl).
Qed.

End PreparationAngles.

Lemma length_written_angles {img : Type} `{Image img} {angle : Type}
    (frames : list img) (parang : list angle) (NFRAMES : list nat)
    (ks : list nat) (out : list img) :
  length parang = length frames ->
  written_from frames NFRAMES ks out ->
  length (flat_map (cube_frames parang NFRAMES) ks) = length out.
Proof.
  intros Hlen (blocks & -> & Hall).
  induction Hall as [|k block ks blocks [b ->] _ IH]; simpl; [done|].
  rewrite !length_app, IH. f_equal.
  unfold stack_sub, cube_frames. by rewrite length_map, !length_getslice_min, Hlen.
Qed.

(** X17: a run of [PCABackgroundPreparationModule] that returns splits the
    parallactic angles as it splits the frames: the angles written with the
    star output are the angles of the frames of the star cubes, cube after
    cube, and the angles written with the background output are those of
    the background cubes.  With one angle per input frame each output has
    as many angles as frames. *)
Theorem preparation_angles_follow_frames {img : Type} `{Image img} {angle : Type}
    (self : PCABackgroundPreparationModule.t) (parang : list angle)
    (NFRAMES : list nat) (im_shape : nat * nat) (frames : list img)
    (bg_frames : list bool)
    (v : @PCABackgroundPreparationModule.vars img angle) :
  PCABackgroundPreparationModule.flag_cubes self (length NFRAMES) = Ok bg_frames ->
  PCABackgroundPreparationModule.run self (Some parang) NFRAMES im_shape frames = Ok v ->
  PCABackgroundPreparationModule.star_parang v
  = flat_map (cube_frames parang NFRAMES)
      (cubes_flagged bg_frames false (length NFRAMES))
  /\ PCABackgroundPreparationModule.background_parang v
     = flat_map (cube_frames parang NFRAMES)
         (cubes_flagged bg_frames true (length NFRAMES))
  /\ (length parang = length frames ->
      length (PCABackgroundPreparationModule.star_parang v)
      = length (PCABackgroundPreparationModule.star_out v)
      /\ length (PCABackgroundPreparationModule.background_parang v)
         = length (PCABackgroundPreparationModule.background_out v)).
Proof.
  intros Hflag Hrun.
  apply (run_Ok_is_loop self parang NFRAMES im_shape frames bg_frames v Hflag) in Hrun.
  destruct (parang_invariant_before frames parang NFRAMES bg_frames (length NFRAMES) v)
    as (_ & _ & Hsp & Hbp); [done|done|].
  destruct (invariant_before frames parang NFRAMES bg_frames (length NFRAMES) v)
    as (_ & _ & _ & Hws & Hwb & _); [done|done|].
  split; [done|]. split; [done|]. intros Hlen.
  rewrite Hsp, Hbp. split; by apply (length_written_angles frames).
Qed.

Lemma preparation_angles_follow_frames_witness :
  exists v,
    PCABackgroundPreparationModule.run (H := QPixel.image) alternating
      (Some five_angles) [2; 1; 2] (1, 1) three_cubes = Ok v
    /\ PCABackgroundPreparationModule.star_parang v
       = flat_map (cube_frames five_angles [2; 1; 2])
           (cubes_flagged [false; true; false] false 3)
    /\ PCABackgroundPreparationModule.background_parang v
       = flat_map (cube_frames five_angles [2; 1; 2])
           (cubes_flagged [false; true; false] true 3)
    /\ (length five_angles = length three_cubes ->
        length (PCABackgroundPreparationModule.star_parang v)
        = length (PCABackgroundPreparationModule.star_out v)
        /\ length (PCABackgroundPreparationModule.background_parang v)
           = length (PCABackgroundPreparationModule.background_out v)).
Proof.
  eexists. split; [vm_compute; reflexivity|].
  apply (preparation_angles_follow_frames (H := QPixel.image) alternating five_angles
           [2; 1; 2] (1, 1) three_cubes [false; true; false]);
    vm_compute; reflexivity.
Defined.

(** ** PCABackgroundSubtractionModule: the masks of the chunks *)

Lemma mapM_map {A B : Type} (f : A -> result B) (g : A -> B) (l : list A) :
  (forall x, x ∈ l -> f x = Ok (g x)) -> mapM f l = Ok (map g l).
Proof.
  induction l as [|x rest IH]; intros Hall; simpl; [done|].
  rewrite (Hall x) by left. simpl. rewrite IH; [done|].
  intros y Hy. apply Hall. by right.
Qed.

Section Masks.
Context {D : Type} `{Double D}.
Import PCABackgroundSubtractionModule.

Lemma rr_lt_within (x y : nat) (pos : Z * Z) (mask_radius : D) :
  rr_lt (Z.of_nat x - fst pos) (Z.of_nat y - snd pos) mask_radius
  = within_radius x y pos mask_radius.
Proof. unfold rr_lt, within_radius. by rewrite !Z.pow_2_r. Qed.

Lemma disk_square (n : nat) (cent_x cent_y : Z) (mask_radius : D) :
  disk (n, n) cent_x cent_y mask_radius = Ok (disk_image n cent_x cent_y mask_radius).
Proof.
  unfold disk, disk_image. simpl. rewrite Nat.eqb_refl. f_equal.
  apply map_ext. intros r. apply map_ext. intros c.
  by rewrite (rr_lt_within c r (cent_x, cent_y)).
Qed.

Lemma pixel_disk_image (n : nat) (cent_x cent_y : Z) (mask_radius : D) (x y : nat) :
  x < n -> y < n ->
  pixel (disk_image n cent_x cent_y mask_radius) x y
  = Some (if within_radius x y (cent_x, cent_y) mask_radius then 0%Q else 1%Q).
Proof.
  intros Hx Hy. unfold pixel, disk_image.
  rewrite list_lookup_fmap, lookup_seq_lt by done. simpl.
  rewrite list_lookup_fmap, lookup_seq_lt by done. done.
Qed.

Lemma create_exact_masks (self : @t D) (n : nat) (mask_radius : D)
    (star_position : list (Z * Z)) (num_frames : nat) :
  m_mask_position self = "exact"%string ->
  num_frames <= length star_position ->
  _create_mask self (n, n) mask_radius star_position num_frames
  = Ok (Mask3D (exact_masks n mask_radius (take num_frames star_position))).
Proof.
  intros Hmode Hlen. unfold _create_mask. rewrite Hmode. simpl.
  assert (Hgen : forall k a, a + k <= length star_position ->
            mapM (fun i => row ← getitem star_position i;
                           disk (n, n) (fst row) (snd row) mask_radius) (seq a k)
            = Ok (exact_masks n mask_radius (take k (drop a star_position)))).
  { induction k as [|k IH]; intros a Ha; simpl; [done|].
    destruct (lookup_lt_is_Some_2 star_position a) as [row Hrow]; [lia|].
    rewrite (getitem_Some _ _ _ Hrow). simpl. rewrite disk_square. simpl.
    rewrite IH by lia. simpl.
    rewrite (drop_S _ _ _ Hrow). done. }
  rewrite (Hgen num_frames 0) by lia. by rewrite drop_0.
Qed.

Lemma create_exact_slice (self : @t D) (n : nat) (mask_radius : D)
    (star_position : list (Z * Z)) (a b : nat) :
  m_mask_position self = "exact"%string ->
  b <= length star_position ->
  _create_mask self (n, n) mask_radius (getslice star_position a b) (b - a)
  = Ok (Mask3D (exact_masks n mask_radius (getslice star_position a b))).
Proof.
  intros Hmode Hb. rewrite create_exact_masks; [|done|].
  - unfold getslice. by rewrite take_take, Nat.min_id.
  - rewrite length_getslice_min. lia.
Qed.

Lemma run_masks_exact (self : @t D) (MEMORY : nat) (PIXSCALE : D)
    (STAR_POSITION : list (Z * Z)) (n num_frames : nat) :
  m_mask_position self = "exact"%string ->
  0 < MEMORY -> num_frames <= length STAR_POSITION ->
  let mask_radius := d_div (m_mask_radius self) PIXSCALE in
  run_masks self MEMORY PIXSCALE STAR_POSITION (n, n) num_frames
  = Ok (map (fun i => (i * MEMORY, i * MEMORY + MEMORY,
                       Mask3D (exact_masks n mask_radius
                                 (getslice STAR_POSITION (i * MEMORY) (i * MEMORY + MEMORY)))))
            (seq 0 (num_frames / MEMORY))
        ++ (if 0 <? num_frames mod MEMORY
            then [(num_frames / MEMORY * MEMORY, num_frames,
                   Mask3D (exact_masks n mask_radius
                             (getslice STAR_POSITION (num_frames / MEMORY * MEMORY)
                                       num_frames)))]
            else [])).
Proof.
  intros Hmode Hmem Hlen mask_radius. unfold run_masks. fold mask_radius.
  destruct (Nat.eqb_spec MEMORY 0) as [?|_]; [lia|].
  rewrite Hmode. simpl String.eqb. cbn [mbind result_bind].
  pose proof (Nat.Div0.mul_div_le num_frames MEMORY) as Hq.
  rewrite (mapM_map _ (fun i => (i * MEMORY, i * MEMORY + MEMORY,
                         Mask3D (exact_masks n mask_radius
                                   (getslice STAR_POSITION (i * MEMORY)
                                      (i * MEMORY + MEMORY)))))).
  2:{ intros i Hi%elem_of_seq.
      rewrite create_exact_slice; [done|done|]. nia. }
  cbn [mbind result_bind].
  destruct (0 <? num_frames mod MEMORY); [|done].
  rewrite create_exact_slice by done. done.
Qed.

End Masks.

(** X18: [PCABackgroundSubtractionModule.run] with [mask_position]
    "exact", on square frames, with a star position for every frame: the
    chunks of MEMORY frames (and the chunk of the frames left over) cover
    every frame, and the mask that a chunk holds for frame [f] is made for
    the star position of frame [f] itself: it is 0 at the pixels for which
    the root of the squared distance from that position, computed in
    doubles, is less than the quotient of the mask radius and the pixel
    scale, computed in doubles, and 1 at the other pixels. *)
Theorem exact_masks_follow_each_frame {D : Type} `{Double D}
    (self : @PCABackgroundSubtractionModule.t D)
    (MEMORY : nat) (PIXSCALE : D) (STAR_POSITION : list (Z * Z)) (n num_frames : nat) :
  PCABackgroundSubtractionModule.m_mask_position self = "exact"%string ->
  0 < MEMORY -> num_frames <= length STAR_POSITION ->
  exists chunks,
    PCABackgroundSubtractionModule.run_masks self MEMORY PIXSCALE STAR_POSITION (n, n)
      num_frames = Ok chunks
    /\ forall f pos,
         f < num_frames -> STAR_POSITION !! f = Some pos ->
         exists frame_start frame_end ms m,
           (frame_start, frame_end, PCABackgroundSubtractionModule.Mask3D ms) ∈ chunks
           /\ frame_start <= f < frame_end
           /\ ms !! (f - frame_start) = Some m
           /\ forall x y, x < n -> y < n ->
                pixel m x y
                = Some (if d_ltb (d_sqrt (d_of_int ((Z.of_nat x - fst pos) ^ 2
                                                    + (Z.of_nat y - snd pos) ^ 2)%Z))
                                 (d_div (PCABackgroundSubtractionModule.m_mask_radius self)
                                        PIXSCALE)
                        then 0%Q else 1%Q).
Proof.
  intros Hmode Hmem Hlen.
  set (mask_radius := d_div (PCABackgroundSubtractionModule.m_mask_radius self) PIXSCALE).
  rewrite (run_masks_exact self MEMORY PIXSCALE STAR_POSITION n num_frames Hmode Hmem Hlen).
  fold mask_radius. eexists. split; [reflexivity|].
  intros f pos Hf Hpos.
  pose proof (Nat.div_mod_eq num_frames MEMORY) as Hdm.
  pose proof (Nat.Div0.mul_div_le num_frames MEMORY) as Hq.
  assert (Hmask : forall a b, a <= f < b -> b <= length STAR_POSITION ->
            exists m, exact_masks n mask_radius (getslice STAR_POSITION a b) !! (f - a)
                      = Some m
                      /\ forall x y, x < n -> y < n ->
                           pixel m x y
                           = Some (if within_radius x y pos mask_radius
                                   then 0%Q else 1%Q)).
  { intros a b Hab Hb. unfold exact_masks.
    rewrite list_lookup_fmap, lookup_getslice_lt by lia.
    replace (a + (f - a)) with f by lia. rewrite Hpos. simpl.
    eexists. split; [reflexivity|]. intros x y Hx Hy.
    rewrite pixel_disk_image by done. by destruct pos. }
  destruct (Nat.lt_ge_cases f (num_frames / MEMORY * MEMORY)) as [Hfull | Hrest].
  - set (i := f / MEMORY).
    assert (Hi : i * MEMORY <= f < i * MEMORY + MEMORY).
    { unfold i. pose proof (Nat.div_mod_eq f MEMORY).
      pose proof (Nat.mod_upper_bound f MEMORY). lia. }
    assert (Hiq : i < num_frames / MEMORY).
    { unfold i. apply Nat.Div0.div_lt_upper_bound. lia. }
    destruct (Hmask (i * MEMORY) (i * MEMORY + MEMORY) Hi) as (m & Hm & Hpix); [nia|].
    exists (i * MEMORY), (i * MEMORY + MEMORY),
      (exact_masks n mask_radius
         (getslice STAR_POSITION (i * MEMORY) (i * MEMORY + MEMORY))), m.
    split; [|done]. apply elem_of_app. left.
    apply list_elem_of_fmap. exists i. split; [done|]. apply elem_of_seq. lia.
  - assert (Hmod : 0 < num_frames mod MEMORY) by lia.
    destruct (Hmask (num_frames / MEMORY * MEMORY) num_frames) as (m & Hm & Hpix);
      [lia|lia|].
    exists (num_frames / MEMORY * MEMORY), num_frames,
      (exact_masks n mask_radius
         (getslice STAR_POSITION (num_frames / MEMORY * MEMORY) num_frames)), m.
    split; [|split; [lia|done]]. apply elem_of_app. right.
    destruct (Nat.ltb_spec 0 (num_frames mod MEMORY)); [|lia]. left.
Qed.

(** The witness is a case in which the rounding of the doubles decides the
    mask: the quotient of the doubles 1.8 and 0.3 is the double 6, though
    their exact quotient is a little more than 6, so that the pixels at
    distance 6 from the star, such as (0, 6), keep the value 1. *)
Lemma exact_masks_follow_each_frame_witness :
  exists chunks,
    PCABackgroundSubtractionModule.run_masks (H := Binary64.double) pca_wide_module 1
      (Binary64.of_Q 0.3) centred_positions (13, 13) 2 = Ok chunks
    /\ (forall f pos,
          f < 2 -> centred_positions !! f = Some pos ->
          exists frame_start frame_end ms m,
            (frame_start, frame_end, PCABackgroundSubtractionModule.Mask3D ms) ∈ chunks
            /\ frame_start <= f < frame_end
            /\ ms !! (f - frame_start) = Some m
            /\ forall x y, x < 13 -> y < 13 ->
                 pixel m x y
                 = Some (if PrimFloat.ltb
                              (PrimFloat.sqrt
                                 (Binary64.of_int ((Z.of_nat x - fst pos) ^ 2
                                                   + (Z.of_nat y - snd pos) ^ 2)%Z))
                              (PrimFloat.div (Binary64.of_Q 1.8) (Binary64.of_Q 0.3))
                         then 0%Q else 1%Q))
    /\ PrimFloat.ltb (PrimFloat.sqrt (Binary64.of_int ((0 - 6) ^ 2 + (6 - 6) ^ 2)%Z))
         (PrimFloat.div (Binary64.of_Q 1.8) (Binary64.of_Q 0.3)) = false.
Proof.
  destruct (exact_masks_follow_each_frame (H := Binary64.double) pca_wide_module 1
              (Binary64.of_Q 0.3) centred_positions 13 2) as (chunks & Hrun & Hmasks).
  - reflexivity.
  - lia.
  - simpl. lia.
  - exists chunks. split; [exact Hrun|]. split; [exact Hmasks|].
    vm_compute. reflexivity.
Defined.

(** X19: [PCABackgroundSubtractionModule.run] with [mask_position] "mean"
    and a number of frames that leaves one frame over after the chunks of
    MEMORY frames raises an IndexError: the mask of the last chunk is made
    from the star positions of that chunk alone, of which the second row
    does not exist. *)
Theorem mean_mask_single_frame_left_over {D : Type} `{Double D}
    (self : @PCABackgroundSubtractionModule.t D)
    (MEMORY : nat) (PIXSCALE : D) (STAR_POSITION : list (Z * Z)) (im_dim : nat * nat)
    (num_frames : nat) :
  PCABackgroundSubtractionModule.m_mask_position self = "mean"%string ->
  0 < MEMORY -> num_frames mod MEMORY = 1 ->
  PCABackgroundSubtractionModule.run_masks self MEMORY PIXSCALE STAR_POSITION im_dim
    num_frames = Raise IndexError.
Proof.
  intros Hmode Hmem Hmod. unfold PCABackgroundSubtractionModule.run_masks.
  destruct (Nat.eqb_spec MEMORY 0) as [?|_]; [lia|].
  rewrite Hmode, Hmod. simpl String.eqb. cbv iota.
  assert (Herr : forall (positions : list (Z * Z)) k e,
            PCABackgroundSubtractionModule._create_mask self im_dim
              (d_div (PCABackgroundSubtractionModule.m_mask_radius self) PIXSCALE)
              positions k
            = Raise e -> e = IndexError).
  { intros positions k e. unfold PCABackgroundSubtractionModule._create_mask.
    rewrite Hmode. simpl String.eqb. cbv iota. unfold getitem.
    destruct (positions !! 0); simpl; [|congruence].
    destruct (positions !! 1); simpl; [|congruence].
    unfold PCABackgroundSubtractionModule.disk.
    destruct (fst im_dim =? snd im_dim); simpl; congruence. }
  destruct (PCABackgroundSubtractionModule._create_mask self im_dim _ STAR_POSITION
              num_frames) as [mask|e] eqn:Hmask; simpl.
  2:{ by rewrite (Herr _ _ _ Hmask). }
  rewrite (mapM_map _ (fun i => (i * MEMORY, i * MEMORY + MEMORY, mask))) by done.
  simpl.
  pose proof (Nat.div_mod_eq num_frames MEMORY) as Hdm.
  assert (Hshort : length (getslice STAR_POSITION (num_frames / MEMORY * MEMORY) num_frames)
                   <= 1).
  { rewrite length_getslice_min. lia. }
  unfold PCABackgroundSubtractionModule._create_mask at 1.
  rewrite Hmode. simpl String.eqb. cbv iota. unfold getitem.
  destruct (getslice STAR_POSITION _ num_frames !! 0); simpl; [|done].
  rewrite lookup_ge_None_2 by lia. done.
Qed.

Lemma mean_mask_single_frame_left_over_witness :
  PCABackgroundSubtractionModule.run_masks (H := Binary64.double) pca_mean_module 2
    (Binary64.of_Q 0.5) five_star_positions (8, 8) 5 = Raise IndexError.
Proof.
  apply (mean_mask_single_frame_left_over (H := Binary64.double) pca_mean_module 2
           (Binary64.of_Q 0.5) five_star_positions (8, 8) 5).
  - reflexivity.
  - lia.
  - reflexivity.
Defined.



(** X21: a [mask_position] other than "mean" and "exact" is not refused by
    the constructor; [PCABackgroundSubtractionModule.run] then raises a
    NameError for the local [mask] at the first chunk, whenever there is a
    frame to process. *)
Theorem unknown_mask_position_is_a_name_error {D : Type} `{Double D}
    (self : @PCABackgroundSubtractionModule.t D)
    (MEMORY : nat) (PIXSCALE : D) (STAR_POSITION : list (Z * Z)) (im_dim : nat * nat)
    (num_frames : nat) :
  PCABackgroundSubtractionModule.m_mask_position self <> "mean"%string ->
  PCABackgroundSubtractionModule.m_mask_position self <> "exact"%string ->
  0 < MEMORY -> 0 < num_frames ->
  PCABackgroundSubtractionModule.run_masks self MEMORY PIXSCALE STAR_POSITION im_dim
    num_frames = Raise (NameError "mask").
Proof.
  intros Hmean Hexact Hmem Hnum. unfold PCABackgroundSubtractionModule.run_masks.
  destruct (Nat.eqb_spec MEMORY 0) as [?|_]; [lia|].
  apply String.eqb_neq in Hmean as Hm. apply String.eqb_neq in Hexact as He.
  rewrite Hm, He. simpl.
  pose proof (Nat.div_mod_eq num_frames MEMORY) as Hdm.
  destruct (num_frames / MEMORY) as [|q] eqn:Hq; simpl.
  - destruct (Nat.ltb_spec 0 (num_frames mod MEMORY)); [|lia].
    unfold PCABackgroundSubtractionModule._create_mask. by rewrite Hm, He.
  - done.
Qed.

Lemma unknown_mask_position_is_a_name_error_witness :
  PCABackgroundSubtractionModule.run_masks (H := Binary64.double)
    {| PCABackgroundSubtractionModule.m_pca_number := 2;
       PCABackgroundSubtractionModule.m_mask_radius := Binary64.of_Q 0.75;
       PCABackgroundSubtractionModule.m_mask_position := "median" |}
    2 (Binary64.of_Q 0.5) five_star_positions (8, 8) 5
  = Raise (NameError "mask").
Proof.
  apply (unknown_mask_position_is_a_name_error (H := Binary64.double)
           {| PCABackgroundSubtractionModule.m_pca_number := 2;
              PCABackgroundSubtractionModule.m_mask_radius := Binary64.of_Q 0.75;
              PCABackgroundSubtractionModule.m_mask_position := "median" |}
           2 (Binary64.of_Q 0.5) five_star_positions (8, 8) 5).
  - done.
  - done.
  - lia.
  - lia.
Defined.

(** ** FakePlanetModule *)

Section FakePlanetMore.
Context {F img : Type} `{Float F} `{Image img} `{ScaledImage F img}
        `{Collaborators F img}.

Lemma psf_plus_psf_unique (self : @FakePlanetModule.t F) (radial theta : F)
    (parang : list F) (psf_stack : list img) (ks : list nat) (out1 out2 : list img) :
  Forall2 (psf_plus_psf self radial theta parang psf_stack) ks out1 ->
  Forall2 (psf_plus_psf self radial theta parang psf_stack) ks out2 ->
  out1 = out2.
Proof.
  intros Hout1. revert out2.
  induction Hout1 as [|k x ks out1 (pa & p & Hpa & Hp & ->) _ IH]; intros out2 Hout2.
  - by inversion Hout2.
  - inversion Hout2 as [|k' y ks' out2' (pa' & p' & Hpa' & Hp' & ->) Hrest]; subst.
    f_equal; [congruence|]. by apply IH.
Qed.

Lemma length_im_stacks_ge (n memory : nat) :
  0 < memory -> 0 < n -> 2 <= length (FakePlanetModule.im_stacks n memory).
Proof.
  intros Hm Hn. unfold FakePlanetModule.im_stacks.
  rewrite length_app, length_map, length_seq.
  destruct (Nat.eqb_spec (n / memory * memory) n) as [Heq|Hne]; simpl; [|lia].
  destruct (n / memory); simpl in *; lia.
Qed.

Lemma single_psf_image_fails (self : @FakePlanetModule.t F) (MEMORY : nat)
    (PIXSCALE : F) (NEW_PARA : list F) (h w hp wp : nat) (frames : list img) (p : img) :
  0 < MEMORY -> frames <> [] -> 0 < hp ->
  (length frames, h) = (h, w) ->
  exists e,
    FakePlanetModule.run self MEMORY PIXSCALE NEW_PARA (Array3D h w frames)
      (Array2D hp wp p) = Raise e
    /\ (e = IndexError \/ e = FakePlanetModule.not_broadcastable).
Proof.
  intros Hmem Hne Hhp Hsize. unfold FakePlanetModule.run.
  destruct (Nat.eqb_spec MEMORY 0) as [?|_]; [lia|].
  rewrite bool_decide_eq_true_2 by done. simpl negb. cbv iota.
  assert (Hn : 0 < length frames) by (destruct frames; [done|simpl; lia]).
  pose proof (length_im_stacks_ge (length frames) MEMORY Hmem Hn) as Hlen.
  destruct (length (FakePlanetModule.im_stacks (length frames) MEMORY) - 1) as [|c] eqn:Hc;
    [lia|].
  cbn [seq mapM].
  rewrite (getitem_Some _ _ _ (lookup_im_stacks MEMORY frames Hmem 0 ltac:(lia))).
  rewrite (getitem_Some _ _ _ (lookup_im_stacks MEMORY frames Hmem (0 + 1) ltac:(lia))).
  cbn [mbind result_bind]. unfold FakePlanetModule.chunk.
  destruct (Nat.eqb_spec (Nat.min (Nat.min ((0 + 1) * MEMORY) (length frames)) hp
                          - Nat.min (Nat.min (0 * MEMORY) (length frames)) hp) 0)
    as [Hz|_]; [simpl in Hz; lia|].
  unfold getitem. destruct (_ !! (0 * MEMORY)); simpl; eexists; (split; [reflexivity|]).
  - by right.
  - by left.
Qed.

End FakePlanetMore.

(** X22: with a PSF cube of as many frames as the science cube and a
    parallactic angle for every frame, [FakePlanetModule.run] returns the
    same stack for every number MEMORY of frames per chunk: cutting the
    input into chunks does not change the result. *)
Theorem fake_planet_result_independent_of_memory {F img : Type} `{Float F} `{Image img}
    `{ScaledImage F img} `{Collaborators F img}
    (self : @FakePlanetModule.t F) (MEMORY MEMORY' : nat) (PIXSCALE : F)
    (NEW_PARA : list F) (h w hp wp : nat) (frames psf_stack : list img) :
  0 < MEMORY -> 0 < MEMORY' ->
  length psf_stack = length frames ->
  length frames <= length NEW_PARA ->
  FakePlanetModule.run self MEMORY PIXSCALE NEW_PARA (Array3D h w frames)
    (Array3D hp wp psf_stack)
  = FakePlanetModule.run self MEMORY' PIXSCALE NEW_PARA (Array3D h w frames)
      (Array3D hp wp psf_stack).
Proof.
  intros Hm Hm' Hlen Hpa.
  destruct (run_reads_psf_stack self MEMORY PIXSCALE NEW_PARA h w hp wp frames psf_stack
              Hm Hlen Hpa) as (out & -> & Hout).
  destruct (run_reads_psf_stack self MEMORY' PIXSCALE NEW_PARA h w hp wp frames psf_stack
              Hm' Hlen Hpa) as (out' & -> & Hout').
  f_equal. by eapply psf_plus_psf_unique.
Qed.

(** X23: when the PSF tag is the tag of the science images (so that both
    ports read one data set), [FakePlanetModule.run] returns one frame per
    science frame: output frame [k] is science frame [k] plus the scaled
    copy of the same frame, shifted for the parallactic angle [k]. *)
Theorem fake_planet_on_its_own_frames {F img : Type} `{Float F} `{Image img}
    `{ScaledImage F img} `{Collaborators F img}
    (self : @FakePlanetModule.t F) (MEMORY : nat) (PIXSCALE : F)
    (NEW_PARA : list F) (h w : nat) (frames : list img) :
  0 < MEMORY ->
  length frames <= length NEW_PARA ->
  let radial := f_div (fst (FakePlanetModule.m_position self)) PIXSCALE in
  let theta := f_add (f_div (f_mul (snd (FakePlanetModule.m_position self)) f_pi)
                            (f_lit 180))
                     (f_div f_pi (f_lit 2)) in
  exists out,
    FakePlanetModule.run self MEMORY PIXSCALE NEW_PARA (Array3D h w frames)
      (Array3D h w frames) = Ok out
    /\ length out = length frames
    /\ forall k frame angle,
         frames !! k = Some frame -> NEW_PARA !! k = Some angle ->
         out !! k
         = Some (FakePlanetModule.inject self radial theta
                   (f_mul angle (f_div f_pi (f_lit 180))) frame frame).
Proof.
  intros Hm Hpa radial theta.
  destruct (run_reads_psf_stack self MEMORY PIXSCALE NEW_PARA h w h w frames frames
              Hm eq_refl Hpa) as (out & Hrun & Hout).
  exists out. split; [done|].
  apply Forall2_length in Hout as Hlen. rewrite length_seq in Hlen.
  split; [done|]. intros k frame angle Hk Ha.
  apply lookup_lt_Some in Hk as Hlt.
  destruct (Forall2_lookup_l _ _ _ k k Hout) as (x & Hx & pa & p & Hpa' & Hp & ->).
  { by apply lookup_seq_lt. }
  rewrite Hx. rewrite list_lookup_fmap, Ha in Hpa'. simpl in Hpa'.
  injection Hpa' as <-. by replace p with frame by congruence.
Qed.

(** X24: [FakePlanetModule.run] with a single PSF image (a data set of two
    dimensions) and a science cube that is not empty never returns.  The
    check of the sizes compares the number of science frames and their
    height with their height and width, and raises its ValueError unless
    these agree; when they agree, the first chunk, which is cut from the
    rows of the PSF image, makes the run raise. *)
Theorem fake_planet_single_psf_image_never_returns {F img : Type} `{Float F}
    `{Image img} `{ScaledImage F img} `{Collaborators F img}
    (self : @FakePlanetModule.t F) (MEMORY : nat) (PIXSCALE : F)
    (NEW_PARA : list F) (h w hp wp : nat) (frames : list img) (p : img) :
  0 < MEMORY -> frames <> [] -> 0 < hp ->
  exists e,
    FakePlanetModule.run self MEMORY PIXSCALE NEW_PARA (Array3D h w frames)
      (Array2D hp wp p) = Raise e
    /\ ((length frames, h) <> (h, w) -> e = FakePlanetModule.size_mismatch).
Proof.
  intros Hm Hne Hhp.
  destruct (decide ((length frames, h) = (h, w))) as [Heq | Hneq].
  - destruct (single_psf_image_fails self MEMORY PIXSCALE NEW_PARA h w hp wp frames p
                Hm Hne Hhp Heq) as (e & Hrun & _).
    exists e. split; [done|]. intros Hneq. by destruct Hneq.
  - exists FakePlanetModule.size_mismatch. split; [|done].
    unfold FakePlanetModule.run.
    destruct (Nat.eqb_spec MEMORY 0) as [?|_]; [lia|].
    by rewrite bool_decide_eq_false_2.
Qed.

Section RealPixelMore.
Local Existing Instance RPixel.float.
Local Existing Instance RPixel.image.
Local Existing Instance RPixel.scaled.
Local Existing Instance RPixel.collaborators.

Lemma fake_planet_result_independent_of_memory_witness :
  FakePlanetModule.run planet 1 0.027%R [0%R; 90%R] science_frames psf_frames
  = FakePlanetModule.run planet 2 0.027%R [0%R; 90%R] science_frames psf_frames.
Proof.
  apply (fake_planet_result_independent_of_memory planet 1 2 0.027%R [0%R; 90%R]
           1 1 1 1 [1%R; 5%R] [2%R; 3%R]).
  - lia.
  - lia.
  - reflexivity.
  - simpl. lia.
Defined.

Lemma fake_planet_on_its_own_frames_witness :
  let radial := f_div (fst (FakePlanetModule.m_position planet)) 0.027%R in
  let theta := f_add (f_div (f_mul (snd (FakePlanetModule.m_position planet)) f_pi)
                            (f_lit 180))
                     (f_div f_pi (f_lit 2)) in
  exists out,
    FakePlanetModule.run planet 1 0.027%R [0%R; 90%R] science_frames science_frames
    = Ok out
    /\ length out = 2
    /\ forall k frame angle,
         [1%R; 5%R] !! k = Some frame -> [0%R; 90%R] !! k = Some angle ->
         out !! k
         = Some (FakePlanetModule.inject planet radial theta
                   (f_mul angle (f_div f_pi (f_lit 180))) frame frame).
Proof.
  apply (fake_planet_on_its_own_frames planet 1 0.027%R [0%R; 90%R] 1 1 [1%R; 5%R]).
  - lia.
  - simpl. lia.
Defined.

Lemma fake_planet_single_psf_image_never_returns_witness :
  exists e,
    FakePlanetModule.run planet 1 0.027%R [0%R; 90%R] science_frames (Array2D 1 1 2%R)
    = Raise e
    /\ ((2, 1) <> (1, 1) -> e = FakePlanetModule.size_mismatch).
Proof.
  apply (fake_planet_single_psf_image_never_returns planet 1 0.027%R [0%R; 90%R]
           1 1 1 1 [1%R; 5%R] 2%R).
  - lia.
  - done.
  - lia.
Defined.

End RealPixelMore.

(** ** SimplexMinimizationModule *)

Section SimplexFailures.
Context {F img : Type} `{Float F} `{Image img} `{ScaledImage F img}
        `{Collaborators F img}.
Import SimplexMinimizationModule.

Variable self : @t F.
Variable inp : @inputs F img.
Variable l : @locals F.

Lemma minimize_raises (maxfev : nat) (next : list (F * F * F * F) -> option (F * F * F))
    (done_ : list (F * F * F * F)) (p p' : @ports F img) (e : exn) :
  minimize maxfev next (_objective self inp l) done_ p = (Raise e, p') ->
  exists new,
    m_flux_position p'
    = m_flux_position p ++ map (fun e => trial_record self inp l (fst e) (snd e)) new
    /\ length new < maxfev
    /\ (length (m_res_out p') = length (m_res_out p) + length new
        \/ length (m_res_out p') = length (m_res_out p) + length new + 1).
Proof.
  revert done_ p. induction maxfev as [|maxfev IH]; intros done_ p Hmin; simpl in Hmin.
  - done.
  - destruct (next done_) as [arg|]; [|done].
    destruct (_objective self inp l arg p) as [[merit|e'] p1] eqn:Hobj.
    + apply objective_appends in Hobj as (im_res & Hres & Hflux).
      apply IH in Hmin as (new & Hflux' & Hlen & Hres').
      exists ((arg, merit) :: new). rewrite Hflux', Hflux, <- app_assoc.
      split; [done|]. split; [simpl; lia|].
      rewrite Hres, length_app in Hres'. simpl in *. lia.
    + injection Hmin as <- <-.
      apply objective_raises in Hobj as (Hflux & Hres).
      exists []. rewrite Hflux, app_nil_r. split; [done|]. split; [simpl; lia|].
      destruct Hres as [-> | [im_res ->]]; [left|right]; rewrite ?length_app; simpl; lia.
Qed.

End SimplexFailures.

Section RealRotation.
Local Existing Instance RPixel.float.
Import SimplexMinimizationModule.

Lemma rotate_back (center position : R * R) (angle : R) :
  _rotate center (_rotate center position angle) (f_neg angle) = position.
Proof.
  destruct center as [c1 c2], position as [p1 p2].
  unfold _rotate, radians. simpl.
  replace (- angle * (PI / Q2R 180))%R with (- (angle * (PI / Q2R 180)))%R by lra.
  rewrite cos_neg, sin_neg.
  pose proof (sin2_cos2 (angle * (PI / Q2R 180))) as Hone. unfold Rsqr in Hone.
  set (s := sin (angle * (PI / Q2R 180))) in *.
  set (c := cos (angle * (PI / Q2R 180))) in *.
  f_equal.
  - transitivity (c1 + (p1 - c1) * (s * s + c * c))%R; [ring|]. rewrite Hone. ring.
  - transitivity (c2 + (p2 - c2) * (s * s + c * c))%R; [ring|]. rewrite Hone. ring.
Qed.

End RealRotation.

(** X25: a run of [SimplexMinimizationModule] that raises leaves in the two
    output tags what the evaluations before the failure have appended.
    Either the preparation has failed and both tags are empty, or the flux
    and position tag holds the records of the evaluations that returned, in
    their order and fewer than the search was allowed, and the residual tag
    holds one image for each of them and at most one more, the image of the
    evaluation that failed. *)
Theorem simplex_failed_run_keeps_completed_trials {F img : Type} `{Float F} `{Image img}
    `{ScaledImage F img} `{Collaborators F img}
    (self : @SimplexMinimizationModule.t F) (inp : @SimplexMinimizationModule.inputs F img)
    (maxfev : nat)
    (simplex : F * F * F -> list (F * F * F * F) -> option (F * F * F))
    (e : exn) (p : @SimplexMinimizationModule.ports F img) :
  SimplexMinimizationModule.run self inp maxfev simplex = (Raise e, p) ->
  (SimplexMinimizationModule.prepare self inp = Raise e /\ p = empty_ports)
  \/ exists l completed,
       SimplexMinimizationModule.prepare self inp = Ok l
       /\ SimplexMinimizationModule.m_flux_position p
          = map (fun e => SimplexMinimizationModule.trial_record self inp l (fst e) (snd e))
                completed
       /\ length completed < maxfev
       /\ (length (SimplexMinimizationModule.m_res_out p) = length completed
           \/ length (SimplexMinimizationModule.m_res_out p) = length completed + 1).
Proof.
  unfold SimplexMinimizationModule.run. intros Hrun.
  destruct (SimplexMinimizationModule.prepare self inp) as [l|e'].
  - right. apply minimize_raises in Hrun as (new & Hflux & Hlen & Hres).
    exists l, new. simpl in *. done.
  - left. by injection Hrun as <- <-.
Qed.

(** X26: the constructor of [SimplexMinimizationModule] accepts any
    function of merit and any PSF subtraction module; the values are checked
    in the first evaluation of the objective.  With a merit other than
    hessian and sum, the run injects the fake planet, runs the PSF
    subtraction and appends the residual image before it raises its
    ValueError.  With a module other than PSFSubtractionModule and
    FastPCAModule the run raises its ValueError after the fake planet has
    been injected, and leaves both output tags empty. *)
Theorem simplex_options_checked_at_first_evaluation {F img : Type} `{Float F}
    `{Image img} `{ScaledImage F img} `{Collaborators F img}
    (self : @SimplexMinimizationModule.t F) (inp : @SimplexMinimizationModule.inputs F img)
    (l : @SimplexMinimizationModule.locals F) (maxfev : nat)
    (simplex : F * F * F -> list (F * F * F * F) -> option (F * F * F))
    (arg : F * F * F) :
  SimplexMinimizationModule.prepare self inp = Ok l ->
  simplex (fst (SimplexMinimizationModule.position l),
           snd (SimplexMinimizationModule.position l),
           SimplexMinimizationModule.m_magnitude self) [] = Some arg ->
  (forall im_res,
     SimplexMinimizationModule.m_merit self <> "hessian"%string ->
     SimplexMinimizationModule.m_merit self <> "sum"%string ->
     SimplexMinimizationModule.residuals self inp l arg
       ≫= SimplexMinimizationModule.single_residual = Ok im_res ->
     SimplexMinimizationModule.run self inp (S maxfev) simplex
     = (Raise SimplexMinimizationModule.bad_merit,
        {| SimplexMinimizationModule.m_res_out := [im_res];
           SimplexMinimizationModule.m_flux_position := [] |}))
  /\ (forall simplex_fake,
        SimplexMinimizationModule.m_pca_module self <> "PSFSubtractionModule"%string ->
        SimplexMinimizationModule.m_pca_module self <> "FastPCAModule"%string ->
        FakePlanetModule.run
          {| FakePlanetModule.m_position :=
               (SimplexMinimizationModule.sep_of inp l (fst (fst arg)) (snd (fst arg)),
                SimplexMinimizationModule.ang_of l (fst (fst arg)) (snd (fst arg)));
             FakePlanetModule.m_magnitude := snd arg;
             FakePlanetModule.m_psf_scaling :=
               SimplexMinimizationModule.m_psf_scaling self |}
          (SimplexMinimizationModule.MEMORY inp) (SimplexMinimizationModule.PIXSCALE inp)
          (SimplexMinimizationModule.NEW_PARA inp) (SimplexMinimizationModule.image_in inp)
          (SimplexMinimizationModule.psf_in inp) = Ok simplex_fake ->
        SimplexMinimizationModule.run self inp (S maxfev) simplex
        = (Raise SimplexMinimizationModule.bad_pca_module, empty_ports)).
Proof.
  intros Hprep Hfirst. unfold SimplexMinimizationModule.run. rewrite Hprep.
  cbn [SimplexMinimizationModule.minimize]. rewrite Hfirst.
  unfold SimplexMinimizationModule._objective. split.
  - intros im_res Hhessian Hsum Hres. rewrite Hres.
    unfold SimplexMinimizationModule.merit_of.
    apply String.eqb_neq in Hhessian as ->. apply String.eqb_neq in Hsum as ->. done.
  - intros simplex_fake Hpsf Hfast Hfake.
    unfold SimplexMinimizationModule.residuals.
    destruct arg as [[pos_x pos_y] mag]. simpl in Hfake. rewrite Hfake. simpl.
    apply String.eqb_neq in Hpsf as ->. apply String.eqb_neq in Hfast as ->. done.
Qed.

Section RealSimplexMore.
Local Existing Instance RPixel.float.
Local Existing Instance RPixel.image.
Local Existing Instance RPixel.scaled.
Local Existing Instance RPixel.collaborators.

Lemma simplex_failed_run_keeps_completed_trials_witness :
  exists e p,
    SimplexMinimizationModule.run chi2_module simplex_inputs 200 three_trials = (Raise e, p)
    /\ ((SimplexMinimizationModule.prepare chi2_module simplex_inputs = Raise e
         /\ p = empty_ports)
        \/ exists l completed,
             SimplexMinimizationModule.prepare chi2_module simplex_inputs = Ok l
             /\ SimplexMinimizationModule.m_flux_position p
                = map (fun e => SimplexMinimizationModule.trial_record chi2_module
                                  simplex_inputs l (fst e) (snd e))
                      completed
             /\ length completed < 200
             /\ (length (SimplexMinimizationModule.m_res_out p) = length completed
                 \/ length (SimplexMinimizationModule.m_res_out p) = length completed + 1)).
Proof.
  destruct (SimplexMinimizationModule.run chi2_module simplex_inputs 200 three_trials)
    as [[evaluations|e] p] eqn:Hrun.
  - cbv -[Rplus Rmult Rminus Rdiv Ropp Rinv RPixel.pow RPixel.fmod RPixel.atan2
          sqrt cos sin PI Q2R IZR INR Rabs Int_part Z.mul Z.opp] in Hrun.
    discriminate Hrun.
  - exists e, p. split; [reflexivity|].
    apply (simplex_failed_run_keeps_completed_trials chi2_module simplex_inputs 200
             three_trials e p Hrun).
Defined.

End RealSimplexMore.

Section RealSimplexOptions.
Local Existing Instance RPixel.float.
Local Existing Instance RPixel.image.
Local Existing Instance RPixel.scaled.
Local Existing Instance RPixel.collaborators.

Lemma simplex_options_checked_at_first_evaluation_witness :
  exists l arg im_res,
    SimplexMinimizationModule.prepare chi2_module simplex_inputs = Ok l
    /\ SimplexMinimizationModule.residuals chi2_module simplex_inputs l arg
         ≫= SimplexMinimizationModule.single_residual = Ok im_res
    /\ SimplexMinimizationModule.run chi2_module simplex_inputs (S 199) three_trials
       = (Raise SimplexMinimizationModule.bad_merit,
          {| SimplexMinimizationModule.m_res_out := [im_res];
             SimplexMinimizationModule.m_flux_position := [] |}).
Proof.
  destruct (SimplexMinimizationModule.prepare chi2_module simplex_inputs) as [l|e] eqn:Hprep;
    [|discriminate Hprep].
  set (arg := (fst (SimplexMinimizationModule.position l),
               snd (SimplexMinimizationModule.position l),
               SimplexMinimizationModule.m_magnitude chi2_module)).
  destruct (SimplexMinimizationModule.residuals chi2_module simplex_inputs l arg
              ≫= SimplexMinimizationModule.single_residual) as [im_res|e] eqn:Hres.
  - exists l, arg, im_res. split; [reflexivity|]. split; [exact Hres|].
    apply (proj1 (simplex_options_checked_at_first_evaluation chi2_module simplex_inputs
                    l 199 three_trials arg Hprep eq_refl) im_res);
      [discriminate | discriminate | exact Hres].
  - injection Hprep as <-.
    cbv -[Rplus Rmult Rminus Rdiv Ropp Rinv RPixel.pow RPixel.fmod RPixel.atan2
          sqrt cos sin PI Q2R IZR INR Rabs Int_part Z.mul Z.opp] in Hres.
    discriminate Hres.
Defined.

(** X27: over the real numbers, turning a position about a centre by an
    angle and then by the opposite angle gives the position back.  So the
    position at which every evaluation of [SimplexMinimizationModule] cuts
    the residuals, the rotated first guess turned back by the extra
    rotation, is the position given to the constructor; and the record of an
    evaluation at the first guess starts with that position. *)
Theorem cutout_centre_is_configured_position {img : Type}
    (self : @SimplexMinimizationModule.t R)
    (inp : @SimplexMinimizationModule.inputs R img)
    (l : @SimplexMinimizationModule.locals R) :
  SimplexMinimizationModule.prepare self inp = Ok l ->
  SimplexMinimizationModule._rotate (SimplexMinimizationModule.center l)
    (SimplexMinimizationModule.position l)
    (f_neg (SimplexMinimizationModule.m_extra_rot self))
  = SimplexMinimizationModule.m_position self
  /\ forall mag merit,
       take 2 (SimplexMinimizationModule.trial_record self inp l
                 (fst (SimplexMinimizationModule.position l),
                  snd (SimplexMinimizationModule.position l), mag) merit)
       = [fst (SimplexMinimizationModule.m_position self);
          snd (SimplexMinimizationModule.m_position self)].
Proof.
  intros Hprep.
  assert (Hback : SimplexMinimizationModule._rotate (SimplexMinimizationModule.center l)
                    (SimplexMinimizationModule.position l)
                    (f_neg (SimplexMinimizationModule.m_extra_rot self))
                  = SimplexMinimizationModule.m_position self).
  { unfold SimplexMinimizationModule.prepare in Hprep.
    destruct (SimplexMinimizationModule.image_in inp) as [|h w frames]; [done|].
    injection Hprep as <-. cbn [SimplexMinimizationModule.center
                                SimplexMinimizationModule.position].
    apply rotate_back. }
  split; [done|]. intros mag merit.
  unfold SimplexMinimizationModule.trial_record. cbn [take].
  destruct (SimplexMinimizationModule.position l) as [x y] eqn:Hpos.
  cbn [fst snd]. by rewrite Hback.
Qed.

Lemma cutout_centre_is_configured_position_witness :
  exists l,
    SimplexMinimizationModule.prepare simplex_module simplex_inputs = Ok l
    /\ SimplexMinimizationModule._rotate (SimplexMinimizationModule.center l)
         (SimplexMinimizationModule.position l)
         (f_neg (SimplexMinimizationModule.m_extra_rot simplex_module))
       = SimplexMinimizationModule.m_position simplex_module
    /\ forall mag merit,
         take 2 (SimplexMinimizationModule.trial_record simplex_module simplex_inputs l
                   (fst (SimplexMinimizationModule.position l),
                    snd (SimplexMinimizationModule.position l), mag) merit)
         = [fst (SimplexMinimizationModule.m_position simplex_module);
            snd (SimplexMinimizationModule.m_position simplex_module)].
Proof.
  destruct (SimplexMinimizationModule.prepare simplex_module simplex_inputs) as [l|e]
    eqn:Hprep; [|discriminate Hprep].
  exists l. split; [reflexivity|].
  apply (cutout_centre_is_configured_position simplex_module simplex_inputs l Hprep).
Defined.

End RealSimplexOptions.

(** ** AlignmentSkyAndScienceDataModule: the window of the cross-correlation *)

Lemma slice_index_nonneg (len : nat) (i : Z) :
  (0 <= i)%Z -> slice_index len i = Nat.min (Z.to_nat i) len.
Proof. intros Hi. unfold slice_index. by destruct (Z.ltb_spec i 0); [lia|]. Qed.

(** X28: the window that [AlignmentSkyAndScienceDataModule] cuts for the
    cross-correlation, when it lies within the image: it has the rows and
    columns of [size_of_center], and its pixel [(r, c)] is the pixel of the
    image [r] rows and [c] columns after the offsets, which are the position
    of the centre minus half the size, rounded down. *)
Theorem alignment_window_within_image {A : Type}
    (position_of_center size_of_center : Z * Z) (image_in : list (list A)) (width : nat) :
  let self := AlignmentSkyAndScienceDataModule.__init__ position_of_center size_of_center in
  let x_off := (fst position_of_center - fst size_of_center / 2)%Z in
  let y_off := (snd position_of_center - snd size_of_center / 2)%Z in
  Forall (fun row => length row = width) image_in ->
  (0 <= x_off)%Z -> (0 <= fst size_of_center)%Z ->
  (x_off + fst size_of_center <= Z.of_nat (length image_in))%Z ->
  (0 <= y_off)%Z -> (0 <= snd size_of_center)%Z ->
  (y_off + snd size_of_center <= Z.of_nat width)%Z ->
  let window := AlignmentSkyAndScienceDataModule.cut_image_around_position self image_in in
  length window = Z.to_nat (fst size_of_center)
  /\ Forall (fun row => length row = Z.to_nat (snd size_of_center)) window
  /\ forall r c,
       r < Z.to_nat (fst size_of_center) -> c < Z.to_nat (snd size_of_center) ->
       pixel_at window r c = pixel_at image_in (Z.to_nat x_off + r) (Z.to_nat y_off + c).
Proof.
  intros self x_off y_off Hrows Hx Hsx Hxe Hy Hsy Hye window.
  unfold window, AlignmentSkyAndScienceDataModule.cut_image_around_position, self. simpl.
  fold x_off y_off.
  assert (Hrow : forall row : list A, length row = width ->
            py_slice row y_off (snd size_of_center + y_off)
            = getslice row (Z.to_nat y_off) (Z.to_nat y_off + Z.to_nat (snd size_of_center))).
  { intros row Hlen. unfold py_slice. rewrite !slice_index_nonneg by lia.
    f_equal; lia. }
  assert (Hcut : py_slice image_in x_off (fst size_of_center + x_off)
                 = getslice image_in (Z.to_nat x_off)
                     (Z.to_nat x_off + Z.to_nat (fst size_of_center))).
  { unfold py_slice. rewrite !slice_index_nonneg by lia. f_equal; lia. }
  rewrite Hcut. split; [|split].
  - rewrite length_map, length_getslice_min. lia.
  - apply Forall_forall. intros row' [row [-> Hin]]%list_elem_of_fmap.
    assert (Hlen : length row = width).
    { apply list_elem_of_lookup_1 in Hin as [i Hi].
      rewrite lookup_getslice_full in Hi.
      destruct (i <? _); [|done].
      apply list_elem_of_lookup_2 in Hi. by eapply Forall_forall in Hrows. }
    rewrite (Hrow row Hlen), length_getslice_min. lia.
  - intros r c Hr Hc. unfold pixel_at.
    change (map ?f ?l0) with (f <$> l0).
    rewrite list_lookup_fmap, lookup_getslice_lt by lia.
    destruct (image_in !! (Z.to_nat x_off + r)) as [row|] eqn:Hlook; simpl; [|done].
    assert (Hlen : length row = width).
    { apply list_elem_of_lookup_2 in Hlook. by eapply Forall_forall in Hrows. }
    rewrite (Hrow row Hlen), lookup_getslice_lt by lia. done.
Qed.

Lemma alignment_window_within_image_witness :
  let self := AlignmentSkyAndScienceDataModule.__init__ (2, 2)%Z (2, 2)%Z in
  let window :=
    AlignmentSkyAndScienceDataModule.cut_image_around_position self small_image in
  length window = Z.to_nat 2
  /\ Forall (fun row => length row = Z.to_nat 2) window
  /\ forall r c,
       r < Z.to_nat 2 -> c < Z.to_nat 2 ->
       pixel_at window r c
       = pixel_at small_image (Z.to_nat (2 - 2 / 2) + r) (Z.to_nat (2 - 2 / 2) + c).
Proof.
  apply (alignment_window_within_image (2, 2)%Z (2, 2)%Z small_image 4).
  - repeat constructor.
  - vm_compute. discriminate.
  - vm_compute. discriminate.
  - vm_compute. discriminate.
  - vm_compute. discriminate.
  - vm_compute. discriminate.
  - vm_compute. discriminate.
Defined.

(** X29: when the centre is closer to the first row of the image than half
    the size of the window (and the window is not higher than the image),
    the window that [AlignmentSkyAndScienceDataModule] cuts is empty: the
    negative offset counts from the last row, past the row where the window
    ends. *)
Theorem alignment_window_across_first_row {A : Type}
    (position_of_center size_of_center : Z * Z) (image_in : list (list A)) :
  let self := AlignmentSkyAndScienceDataModule.__init__ position_of_center size_of_center in
  let x_off := (fst position_of_center - fst size_of_center / 2)%Z in
  (x_off < 0)%Z -> (0 <= x_off + fst size_of_center)%Z ->
  (fst size_of_center <= Z.of_nat (length image_in))%Z ->
  AlignmentSkyAndScienceDataModule.cut_image_around_position self image_in = [].
Proof.
  intros self x_off Hneg Hend Hsize.
  unfold AlignmentSkyAndScienceDataModule.cut_image_around_position, self. simpl.
  fold x_off.
  assert (Hcut : py_slice image_in x_off (fst size_of_center + x_off) = []).
  { unfold py_slice, slice_index.
    destruct (Z.ltb_spec x_off 0); [|lia].
    destruct (Z.ltb_spec (fst size_of_center + x_off) 0); [lia|].
    unfold getslice.
    replace (_ - _) with 0 by lia. by rewrite take_0. }
  by rewrite Hcut.
Qed.

Lemma alignment_window_across_first_row_witness :
  AlignmentSkyAndScienceDataModule.cut_image_around_position
    (AlignmentSkyAndScienceDataModule.__init__ (1, 2)%Z (4, 2)%Z) small_image = [].
Proof.
  apply (alignment_window_across_first_row (1, 2)%Z (4, 2)%Z small_image).
  - vm_compute. reflexivity.
  - vm_compute. discriminate.
  - vm_compute. discriminate.
Defined.
